(** * Basis builders over structured grids: a shallow embedding of
    [basisbuilder.py] and the properties of its dof layout.

    Python integers are modelled as [Z], Python lists, tuples and numpy
    arrays as [list]s (an n-dimensional object array carries its shape and
    its row-major data), exceptions as the [Raise] branch of [result].
    The 64-bit integers of numpy ([numpy.arange], [numpy.sort]) are taken
    as unbounded: element counts, interface positions and dof indices are
    lengths of arrays held in memory and stay far below their range.  The
    degree of a [Spline] is not bounded that way; it is added to such an
    index in [Spline.getslices], so the properties proved about the bounds
    of those slices carry the hypothesis that the sum stays in range (see
    [index_in_range]). *)

From Stdlib Require Import ZArith List Lia Bool.
From stdpp Require Import base option list numbers sorting gmap.

Local Open Scope Z_scope.

(** ** Exceptions

    The two [assert] sites of the source both raise Python's
    [AssertionError]; they are told apart here by the place that raises
    them: [ShapeMismatch] is the dimensionality assertion of [build] and of
    [ProductFunc], [InvalidInterfaceSet] the assertion of
    [ModSpline2.sorted_ifaces].  [IndexError] and [ValueError] are the
    exceptions of out-of-range indexing and of tuple unpacking or numpy
    reshaping. *)
Inductive exn : Set :=
| ShapeMismatch
| InvalidInterfaceSet
| IndexError
| ValueError.

Inductive result (A : Type) : Type :=
| Ok (a : A)
| Raise (e : exn).
Arguments Ok {A} a.
Arguments Raise {A} e.

Definition rbind {A B : Type} (c : result A) (k : A -> result B) : result B :=
  match c with
  | Ok a => k a
  | Raise e => Raise e
  end.

Notation "'let!' x ':=' c 'in' k" := (rbind c (fun x => k))
  (at level 10, x name, c at level 100, k at level 200).

(** [for x in xs: acc = f(acc, x)], stopping at the first exception. *)
Fixpoint for_each {A B : Type} (f : A -> B -> result A) (acc : A) (xs : list B)
  : result A :=
  match xs with
  | [] => Ok acc
  | x :: xs' => let! acc' := f acc x in for_each f acc' xs'
  end.

Fixpoint map_result {A B : Type} (f : A -> result B) (xs : list A)
  : result (list B) :=
  match xs with
  | [] => Ok []
  | x :: xs' => let! y := f x in let! ys := map_result f xs' in Ok (y :: ys)
  end.

(** ** Python sequences *)

(** Position addressed by [l[k]]: a negative [k] counts from the end. *)
Definition py_index {A : Type} (l : list A) (k : Z) : result nat :=
  let n := Z.of_nat (length l) in
  if (0 <=? k) && (k <? n) then Ok (Z.to_nat k)
  else if (- n <=? k) && (k <? 0) then Ok (Z.to_nat (k + n))
  else Raise IndexError.

Definition py_getitem {A : Type} (l : list A) (k : Z) : result A :=
  let! i := py_index l k in
  match l !! i with
  | Some x => Ok x
  | None => Raise IndexError
  end.

Definition py_setitem {A : Type} (l : list A) (k : Z) (v : A) : result (list A) :=
  let! i := py_index l k in Ok (<[i := v]> l).

(** The parameter pattern [(nelems,)]: unpacking a one-element sequence. *)
Definition unpack1 (shape : list Z) : result Z :=
  match shape with
  | [nelems] => Ok nelems
  | _ => Raise ValueError
  end.

(** [slice(start, stop)] with integer bounds and no step. *)
Record slice : Set := Slice { start : Z; stop : Z }.

(** [slice.indices(len)]: the bounds actually used on a sequence of length
    [len]; negative bounds count from the end and both are clamped. *)
Definition slice_clamp (len b : Z) : Z :=
  if b <? 0 then Z.max 0 (b + len) else Z.min b len.

Definition slice_indices (len : nat) (s : slice) : Z * Z :=
  (slice_clamp (Z.of_nat len) (start s), slice_clamp (Z.of_nat len) (stop s)).

(** The positions selected by [seq[s]] on a sequence of length [len]. *)
Definition slice_range (len : nat) (s : slice) : list Z :=
  let '(a, b) := slice_indices len s in seqZ a (b - a).

Definition slice_len (len : nat) (s : slice) : nat :=
  length (slice_range len s).

(** [numpy.arange(n)], [numpy.sort], [numpy.diff], [numpy.product]. *)
Definition arange (n : Z) : list Z := seqZ 0 n.

Definition np_sort (l : list Z) : list Z := merge_sort Z.le l.

Fixpoint np_diff (l : list Z) : list Z :=
  match l with
  | a :: (b :: _) as l' => (b - a) :: np_diff l'
  | _ => []
  end.

Definition np_product (l : list Z) : Z := foldr Z.mul 1 l.

(** [numpy.eye(n)] and the column slicings [m[:,1:]] and [m[:,:-1]]. *)
Definition eye (n : nat) : list (list Z) :=
  map (fun i => map (fun j => if Nat.eqb i j then 1 else 0) (seq 0 n)) (seq 0 n).

Definition drop_first_col (m : list (list Z)) : list (list Z) := map (drop 1) m.
Definition drop_last_col (m : list (list Z)) : list (list Z) := map (fun r => take (length r - 1)%nat r) m.

Definition ncols (m : list (list Z)) : nat :=
  match m with
  | [] => 0%nat
  | r :: _ => length r
  end.

(** An n-dimensional numpy array: its shape and its data in row-major
    order. *)
Record ndarray (A : Type) : Type := NdArray { nd_shape : list nat; nd_data : list A }.
Arguments NdArray {A} nd_shape nd_data.
Arguments nd_shape {A} n.
Arguments nd_data {A} n.

Definition array1 {A : Type} (l : list A) : ndarray A := NdArray [length l] l.

(** ** Standard elements (the collaborator [nutils.element]) *)

(** Modelled from the spec: the local shape-function sets of
    [nutils.element], which is not part of the source.  A [PolyLine] is one
    segment of the standard B-spline basis of some degree and carries
    [degree + 1] shape functions; [extract] re-expresses a set through an
    extraction matrix and yields as many shape functions as the matrix has
    columns; the product of two sets has the product of their counts. *)
Inductive StdElem : Set :=
| PolyLine (degree nelems segment : Z)
| ExtractionWrapper (stdelem : StdElem) (extraction : list (list Z))
| PolyProduct (std1 std2 : StdElem).

Fixpoint nshapes (e : StdElem) : nat :=
  match e with
  | PolyLine degree _ _ => Z.to_nat (degree + 1)
  | ExtractionWrapper _ extraction => ncols extraction
  | PolyProduct std1 std2 => (nshapes std1 * nshapes std2)%nat
  end.

Definition extract (e : StdElem) (extraction : list (list Z)) : StdElem :=
  ExtractionWrapper e extraction.

(** Modelled from the spec: [element.PolyLine.spline(degree, nelems)], the
    standard B-spline basis of the given degree over [nelems] elements.
    For a degree of at least 1 the array holds one local shape-function
    set per element.  For degree 0 the library returns an array of a single
    set, the constant function, that stands for every element: [build]
    pairs it with the elements of the grid by broadcasting.  The model is
    meant for [degree >= 0] and [nelems >= 1], the parameters of the
    specification; outside them the library refuses the call. *)
Definition PolyLine_spline (degree nelems : Z) : list StdElem :=
  if degree =? 0 then [PolyLine 0 nelems 0]
  else map (PolyLine degree nelems) (arange nelems).

(** ** The builders *)

Inductive BasisBuilder : Set :=
| Spline (degree : Z) (rmfirst rmlast : bool)
| ModSpline2 (ifaces : list Z) (rmfirst rmlast : bool)
| ProductFunc (func1 func2 : BasisBuilder).

Fixpoint ndims (b : BasisBuilder) : nat :=
  match b with
  | Spline _ _ _ => 1
  | ModSpline2 _ _ _ => 1
  | ProductFunc func1 func2 => ndims func1 + ndims func2
  end%nat.

(** The endpoint removals shared by [Spline.getstdelems] and
    [ModSpline2.getstdelems]. *)
Definition remove_first (stdelems : list StdElem) : result (list StdElem) :=
  let! e := py_getitem stdelems 0 in
  py_setitem stdelems 0 (extract e (drop_first_col (eye (nshapes e)))).

Definition remove_last (stdelems : list StdElem) : result (list StdElem) :=
  let! e := py_getitem stdelems (-1) in
  py_setitem stdelems (-1) (extract e (drop_last_col (eye (nshapes e)))).

Definition remove_ends (rmfirst rmlast : bool) (stdelems : list StdElem)
  : result (list StdElem) :=
  let! stdelems := (if rmfirst then remove_first stdelems else Ok stdelems) in
  if rmlast then remove_last stdelems else Ok stdelems.

(** The sliding windows [slice(max(0,i), min(N,i+width))] for
    [i in numpy.arange(nelems) - rmfirst].  The index [i] is a 64-bit
    integer of numpy; the sum [i + width] is written on [Z], which is what
    the code computes as long as it stays in the 64-bit range (see
    [index_in_range]). *)
Definition windows (N width nelems : Z) (rmfirst : bool) : list slice :=
  map (fun i => Slice (Z.max 0 i) (Z.min N (i + width)))
      (map (fun e => e - Z.b2z rmfirst) (arange nelems)).

(** *** Spline *)

Definition Spline_getdofshape (degree : Z) (rmfirst rmlast : bool)
  (shape : list Z) : result (list Z) :=
  let! nelems := unpack1 shape in
  Ok [nelems + degree - Z.b2z rmfirst - Z.b2z rmlast].

Definition Spline_getslices (degree : Z) (rmfirst rmlast : bool)
  (shape : list Z) : result (list (list slice)) :=
  let! nelems := unpack1 shape in
  let! dofshape := Spline_getdofshape degree rmfirst rmlast [nelems] in
  let! N := unpack1 dofshape in
  Ok [windows N (degree + 1) nelems rmfirst].

Definition Spline_getstdelems (degree : Z) (rmfirst rmlast : bool)
  (shape : list Z) : result (ndarray StdElem) :=
  let! nelems := unpack1 shape in
  let! stdelems := remove_ends rmfirst rmlast (PolyLine_spline degree nelems) in
  Ok (array1 stdelems).

(** *** ModSpline2 *)

Definition normalize_iface (nelems iface : Z) : Z :=
  if iface <? 0 then nelems + iface else iface.

Definition sorted_ifaces (ifaces : list Z) (nelems : Z) : result (list Z) :=
  let ifaces := np_sort (map (normalize_iface nelems) ifaces) in
  let! first := py_getitem ifaces 0 in
  if negb (2 <=? first) then Raise InvalidInterfaceSet
  else if negb (forallb (fun d => 4 <=? d) (np_diff ifaces))
  then Raise InvalidInterfaceSet
  else
    let! last := py_getitem ifaces (-1) in
    if negb (last <=? nelems - 2) then Raise InvalidInterfaceSet
    else Ok ifaces.

Definition ModSpline2_getdofshape (rmfirst rmlast : bool) (shape : list Z)
  : result (list Z) :=
  let! nelems := unpack1 shape in
  Ok [nelems + 2 - Z.b2z rmfirst - Z.b2z rmlast].

(** The body of the loop of [ModSpline2.getslices]. *)
Definition patch_slices (N : Z) (rmfirst : bool) (slices : list slice) (n : Z)
  : result (list slice) :=
  let i := n - Z.b2z rmfirst in
  let! slices := py_setitem slices (n - 2) (Slice (Z.max 0 (i - 2)) (i + 2)) in
  py_setitem slices (n + 1) (Slice i (Z.min N (i + 4))).

Definition ModSpline2_getslices (ifaces : list Z) (rmfirst rmlast : bool)
  (shape : list Z) : result (list (list slice)) :=
  let! nelems := unpack1 shape in
  let! dofshape := ModSpline2_getdofshape rmfirst rmlast [nelems] in
  let! N := unpack1 dofshape in
  let slices := windows N 3 nelems rmfirst in
  let! sorted := sorted_ifaces ifaces nelems in
  let! slices := for_each (patch_slices N rmfirst) slices sorted in
  Ok [slices].

(** The four extraction matrices of an interface. *)
Definition iface_extraction_m2 : list (list Z) := [[1;0;0;0];[0;1;0;0];[0;0;1;1]].
Definition iface_extraction_m1 : list (list Z) := [[1;0;0];[0;1;1];[0;-1;1]].
Definition iface_extraction_p0 : list (list Z) := [[1;1;0];[-1;1;0];[0;0;1]].
Definition iface_extraction_p1 : list (list Z) := [[-1;1;0;0];[0;0;1;0];[0;0;0;1]].

Definition extract_at (stdelems : list StdElem) (k : Z) (m : list (list Z))
  : result (list StdElem) :=
  let! e := py_getitem stdelems k in py_setitem stdelems k (extract e m).

(** The body of the loop of [ModSpline2.getstdelems]. *)
Definition patch_stdelems (stdelems : list StdElem) (n : Z)
  : result (list StdElem) :=
  let! stdelems := extract_at stdelems (n - 2) iface_extraction_m2 in
  let! stdelems := extract_at stdelems (n - 1) iface_extraction_m1 in
  let! stdelems := extract_at stdelems (n + 0) iface_extraction_p0 in
  extract_at stdelems (n + 1) iface_extraction_p1.

Definition ModSpline2_getstdelems (ifaces : list Z) (rmfirst rmlast : bool)
  (shape : list Z) : result (ndarray StdElem) :=
  let! nelems := unpack1 shape in
  let stdelems := PolyLine_spline 2 nelems in
  let! sorted := sorted_ifaces ifaces nelems in
  let! stdelems := for_each patch_stdelems stdelems sorted in
  let! stdelems := remove_ends rmfirst rmlast stdelems in
  Ok (array1 stdelems).

(** *** ProductFunc and the dispatch over the three variants *)

(** [a[(Ellipsis,)+(newaxis,)*k] * b] for an array [b] of [k] axes: every
    element of [a] is multiplied with every element of [b]. *)
Definition outer_product (a b : ndarray StdElem) : ndarray StdElem :=
  NdArray (nd_shape a ++ nd_shape b)
          (flat_map (fun x => map (PolyProduct x) (nd_data b)) (nd_data a)).

Definition assert_len (shape : list Z) (n : nat) : result unit :=
  if Nat.eqb (length shape) n then Ok tt else Raise ShapeMismatch.

Fixpoint getdofshape (b : BasisBuilder) (shape : list Z) : result (list Z) :=
  match b with
  | Spline degree rmfirst rmlast => Spline_getdofshape degree rmfirst rmlast shape
  | ModSpline2 _ rmfirst rmlast => ModSpline2_getdofshape rmfirst rmlast shape
  | ProductFunc func1 func2 =>
      let! _ := assert_len shape (ndims func1 + ndims func2) in
      let! d1 := getdofshape func1 (take (ndims func1) shape) in
      let! d2 := getdofshape func2 (drop (ndims func1) shape) in
      Ok (d1 ++ d2)
  end.

Fixpoint getslices (b : BasisBuilder) (shape : list Z) : result (list (list slice)) :=
  match b with
  | Spline degree rmfirst rmlast => Spline_getslices degree rmfirst rmlast shape
  | ModSpline2 ifaces rmfirst rmlast => ModSpline2_getslices ifaces rmfirst rmlast shape
  | ProductFunc func1 func2 =>
      let! _ := assert_len shape (ndims func1 + ndims func2) in
      let! s1 := getslices func1 (take (ndims func1) shape) in
      let! s2 := getslices func2 (drop (ndims func1) shape) in
      Ok (s1 ++ s2)
  end.

Fixpoint getstdelems (b : BasisBuilder) (shape : list Z) : result (ndarray StdElem) :=
  match b with
  | Spline degree rmfirst rmlast => Spline_getstdelems degree rmfirst rmlast shape
  | ModSpline2 ifaces rmfirst rmlast => ModSpline2_getstdelems ifaces rmfirst rmlast shape
  | ProductFunc func1 func2 =>
      let! _ := assert_len shape (ndims func1 + ndims func2) in
      let! e1 := getstdelems func1 (take (ndims func1) shape) in
      let! e2 := getstdelems func2 (drop (ndims func1) shape) in
      Ok (outer_product e1 e2)
  end.

(** ** The build driver *)

(** A topology is either structured, with a grid of elements of a known
    shape, or not.  An element of the grid is addressed by its multi-index,
    which stands for [elem.transform], the key of the two dictionaries. *)
Inductive Topology : Set :=
| StructuredTopology (structure_shape : list nat)
| UnstructuredTopology (dims : nat).

Definition topo_ndims (topo : Topology) : nat :=
  match topo with
  | StructuredTopology structure_shape => length structure_shape
  | UnstructuredTopology dims => dims
  end.

(** All combinations of one entry per axis, the last axis running fastest:
    the order in which numpy visits the broadcast of [numpy.ix_(...)]. *)
Fixpoint ix_product {A : Type} (axes : list (list A)) : list (list A) :=
  match axes with
  | [] => [[]]
  | axis :: axes' => flat_map (fun x => map (cons x) (ix_product axes')) axis
  end.

(** [topo.structure]: the array of the elements of the grid. *)
Definition structure (structure_shape : list nat) : ndarray (list nat) :=
  NdArray structure_shape (ix_product (map (seq 0) structure_shape)).

Definition count_unknown (shape : list Z) : nat :=
  length (filter (fun n => n = -1) shape).

(** [a.reshape(shape)] for a one-dimensional [a]: a single [-1] is inferred
    from the size, any other negative entry, a second [-1] or a size that
    does not fit raises [ValueError]. *)
Definition np_reshape (a : list Z) (shape : list Z) : result (ndarray Z) :=
  let size := Z.of_nat (length a) in
  if existsb (fun n => n <? -1) shape then Raise ValueError
  else match count_unknown shape with
       | O =>
           if np_product shape =? size
           then Ok (NdArray (map Z.to_nat shape) a)
           else Raise ValueError
       | S O =>
           let known := np_product (filter (fun n => n <> -1) shape) in
           if (known =? 0) || negb (size mod known =? 0) then Raise ValueError
           else Ok (NdArray (map (fun n => Z.to_nat (if n =? -1 then size / known else n))
                                 shape) a)
       | _ => Raise ValueError
       end.

(** The row-major offsets addressed by [a[s]] for a tuple [s] of slices on
    an array of shape [dims]; an axis without a slice is taken whole. *)
Fixpoint block_offsets (dims : list nat) (s : list slice) (base : Z) : list Z :=
  match dims with
  | [] => [base]
  | len :: dims' =>
      flat_map (fun j => block_offsets dims' (tail s) (base * Z.of_nat len + j))
               (match s with
                | [] => seqZ 0 (Z.of_nat len)
                | sl :: _ => slice_range len sl
                end)
  end.

(** [a[s].ravel()]. *)
Definition getitem_ravel (a : ndarray Z) (s : list slice) : result (list Z) :=
  if (length (nd_shape a) <? length s)%nat then Raise IndexError
  else map_result (fun o => match nd_data a !! Z.to_nat o with
                            | Some v => Ok v
                            | None => Raise IndexError
                            end)
                  (block_offsets (nd_shape a) s 0).

(** [numpy.frompyfunc(f, len(slices), 1)] applied to the open mesh
    [numpy.ix_] of the per-axis slice lists: [f] is called on every
    combination of one slice per axis. *)
Definition frompyfunc_ix {A B : Type} (f : list A -> result B) (axes : list (list A))
  : result (ndarray B) :=
  let! data := map_result f (ix_product axes) in
  Ok (NdArray (map length axes) data).

(** [numpy.broadcast(a, b)].  The two shapes are aligned at their last
    axes, a missing leading axis counting as one of length 1; on every axis
    the two lengths must be equal or one of them 1, else [ValueError], and
    the common shape takes the other length.  An array is repeated along
    the axes on which it has length 1.  The result lists the pairs of
    entries in the row-major order of the common shape. *)
Definition pad_shape (n : nat) (shape : list nat) : list nat :=
  replicate (n - length shape) 1%nat ++ shape.

Fixpoint broadcast_shape (sa sb : list nat) : result (list nat) :=
  match sa, sb with
  | a :: sa', b :: sb' =>
      let! rest := broadcast_shape sa' sb' in
      if (a =? b)%nat then Ok (a :: rest)
      else if (a =? 1)%nat then Ok (b :: rest)
      else if (b =? 1)%nat then Ok (a :: rest)
      else Raise ValueError
  | _, _ => Ok []
  end.

(** The row-major data of an array of shape [sa], repeated to the shape
    [shape]: along the first axis the sub-array [j] is taken, or the only
    sub-array when the array has length 1 there. *)
Fixpoint broadcast_to {A : Type} (sa shape : list nat) (data : list A) : list A :=
  match sa, shape with
  | da :: sa', d :: shape' =>
      let size := foldr Nat.mul 1%nat sa' in
      flat_map (fun j => broadcast_to sa' shape'
                           (take size (drop ((if (da =? 1)%nat then 0 else j) * size) data)))
               (seq 0 d)
  | _, _ => data
  end.

Definition np_broadcast {A B : Type} (a : ndarray A) (b : ndarray B)
  : result (list (A * B)) :=
  let n := Nat.max (length (nd_shape a)) (length (nd_shape b)) in
  let sa := pad_shape n (nd_shape a) in
  let sb := pad_shape n (nd_shape b) in
  let! shape := broadcast_shape sa sb in
  Ok (zip (broadcast_to sa shape (nd_data a)) (broadcast_to sb shape (nd_data b))).

(** A dictionary comprehension: later pairs overwrite earlier ones. *)
Definition dict_of {V : Type} (pairs : list (list nat * V)) : gmap (list nat) V :=
  foldl (fun m kv => insert (fst kv) (snd kv) m) empty pairs.

(** The result of [function.function(fmap, nmap, ndofs, ndims)]. *)
Module function.
Record function : Type := mk {
  fmap : gmap (list nat) (list (StdElem * option Z));
  nmap : gmap (list nat) (list Z);
  ndofs : Z;
  ndims : nat
}.
End function.

Definition build (b : BasisBuilder) (topo : Topology) : result function.function :=
  match topo with
  | UnstructuredTopology _ => Raise ShapeMismatch
  | StructuredTopology structure_shape =>
      if negb (Nat.eqb (length structure_shape) (ndims b)) then Raise ShapeMismatch
      else
        let shape := map Z.of_nat structure_shape in
        let! dofshape := getdofshape b shape in
        let! slices := getslices b shape in
        let! stdelems := getstdelems b shape in
        let ndofs := np_product dofshape in
        let! dofs := np_reshape (arange ndofs) dofshape in
        let! idx := frompyfunc_ix (getitem_ravel dofs) slices in
        let! fpairs := np_broadcast (structure structure_shape) stdelems in
        let! npairs := np_broadcast (structure structure_shape) idx in
        Ok (function.mk (dict_of (map (fun ef => (fst ef, [(snd ef, None)])) fpairs))
                     (dict_of npairs)
                     ndofs
                     (length structure_shape))
  end.

(** ** Reading the result of [build] in examples *)

Definition ndofs_of (r : result function.function) : result Z :=
  let! f := r in Ok (function.ndofs f).

Definition nmap_at (r : result function.function) (elem : list nat) : option (list Z) :=
  match r with
  | Ok f => function.nmap f !! elem
  | Raise _ => None
  end.

(** ** Definitions used to state the properties *)

(** The dof shape of a product of three builders, written once: the three
    factors are queried left to right on the prefix, the middle and the
    suffix of the element counts. *)
Definition getdofshape3 (A B C : BasisBuilder) (shape : list Z) : result (list Z) :=
  let! a := getdofshape A (take (ndims A) shape) in
  let! b := getdofshape B (take (ndims B) (drop (ndims A) shape)) in
  let! c := getdofshape C (drop (ndims A + ndims B) shape) in
  Ok (a ++ b ++ c).

(** The rule in the words of the specification: after normalizing negative
    positions to [nelems + position] and sorting ascending, the first
    position is at least 2, consecutive positions differ by at least 4, and
    the last position is at most [nelems - 2]. *)
Definition valid_interfaces (ifaces : list Z) (nelems : Z) : Prop :=
  let positions := np_sort (map (normalize_iface nelems) ifaces) in
  (forall p, head positions = Some p -> 2 <= p) /\
  (forall i p q, positions !! i = Some p -> positions !! S i = Some q -> 4 <= q - p) /\
  (forall p, last positions = Some p -> p <= nelems - 2).

(** The three tests of the assertion of [sorted_ifaces], on a sorted list
    that has a first entry. *)
Definition ifaces_check (positions : list Z) (nelems : Z) : bool :=
  match positions with
  | [] => true
  | first :: _ =>
      (2 <=? first)
      && forallb (fun d => 4 <=? d) (np_diff positions)
      && match last positions with
         | Some p => p <=? nelems - 2
         | None => true
         end
  end.

(** Sorted positions that pass the assertion: each lies between [lo] and
    [hi] and the next one is at least four further. *)
Fixpoint spaced (lo hi : Z) (positions : list Z) : Prop :=
  match positions with
  | [] => True
  | n :: rest => lo <= n <= hi /\ spaced (n + 4) hi rest
  end.

(** The interface whose patch of four elements contains element [e]. *)
Fixpoint owner (positions : list Z) (e : Z) : option Z :=
  match positions with
  | [] => None
  | n :: rest => if (n - 2 <=? e) && (e <=? n + 1) then Some n else owner rest e
  end.

(** An assignment [l[k] = g(l[k])] seen from every index of the list. *)
Definition update_at {A : Type} (k : Z) (g : A -> A) (e : Z) (d : A) : A :=
  if e =? k then g d else d.

(** The effect of one interface on the slice and on the shape functions of
    element [e]. *)
Definition patch_slice_at (N : Z) (rmfirst : bool) (n e : Z) (d : slice) : slice :=
  let i := n - Z.b2z rmfirst in
  update_at (n + 1) (fun _ => Slice i (Z.min N (i + 4))) e
    (update_at (n - 2) (fun _ => Slice (Z.max 0 (i - 2)) (i + 2)) e d).

Definition patch_stdelem_at (n e : Z) (d : StdElem) : StdElem :=
  update_at (n + 1) (fun x => extract x iface_extraction_p1) e
    (update_at (n + 0) (fun x => extract x iface_extraction_p0) e
      (update_at (n - 1) (fun x => extract x iface_extraction_m1) e
        (update_at (n - 2) (fun x => extract x iface_extraction_m2) e d))).

Definition in_patch_range (len : nat) (n : Z) : Prop := 2 <= n <= Z.of_nat len - 2.

(** The slice and the shape functions of element [e] after the loops over
    spaced interfaces: patched by the interface that owns [e], if any. *)
Definition owned_slice (N : Z) (rmfirst : bool) (positions : list Z) (e : Z) (d : slice)
  : slice :=
  match owner positions e with
  | Some n => patch_slice_at N rmfirst n e d
  | None => d
  end.

Definition owned_stdelem (positions : list Z) (e : Z) (d : StdElem) : StdElem :=
  match owner positions e with
  | Some n => patch_stdelem_at n e d
  | None => d
  end.

Definition drop_first_shape (x : StdElem) : StdElem :=
  extract x (drop_first_col (eye (nshapes x))).

Definition drop_last_shape (x : StdElem) : StdElem :=
  extract x (drop_last_col (eye (nshapes x))).

(** The shape functions of element [e] of [len] after [remove_ends]. *)
Definition removed_at (rmfirst rmlast : bool) (len e : Z) (d : StdElem) : StdElem :=
  let d := if rmfirst then update_at 0 drop_first_shape e d else d in
  if rmlast then update_at (len - 1) drop_last_shape e d else d.

(** The one-dimensional builders whose array of standard elements has one
    entry per element: a [Spline] of degree at least 1, and a [ModSpline2]
    whose interface set passes the validity rule, with any removal flags. *)
Inductive accepted1d (nelems : Z) : BasisBuilder -> Prop :=
| accepted_Spline (degree : Z) (rmfirst rmlast : bool) :
    1 <= degree -> accepted1d nelems (Spline degree rmfirst rmlast)
| accepted_ModSpline2 (ifaces : list Z) (rmfirst rmlast : bool) :
    valid_interfaces ifaces nelems ->
    accepted1d nelems (ModSpline2 ifaces rmfirst rmlast).

(** What [getslices] and [getstdelems] return for [nelems] elements: one
    slice and one standard element per element, and for every element the
    slice selects, on the axis of [N] dofs, as many dofs as the standard
    element has shape functions ([stop - start] of them when [N] is not
    negative). *)
Definition widths_match (b : BasisBuilder) (nelems : Z) : Prop :=
  exists N slices stdelems,
    getdofshape b [nelems] = Ok [N] /\
    getslices b [nelems] = Ok [slices] /\
    getstdelems b [nelems] = Ok (array1 stdelems) /\
    length slices = Z.to_nat nelems /\
    length stdelems = Z.to_nat nelems /\
    forall e, (e < Z.to_nat nelems)%nat ->
      exists s el,
        slices !! e = Some s /\ stdelems !! e = Some el /\
        slice_len (Z.to_nat N) s = nshapes el /\
        (0 <= N -> stop s - start s = Z.of_nat (nshapes el)).

Definition width (s : slice) : Z := stop s - start s.

(** The statement of claim C2 for one interface position [n] of a builder:
    the slices of elements [n-2] and [n+1] have width 4, those of elements
    [n-1] and [n] have width 3, and the dofs covered by the four slices
    together form a span of 4 dofs. *)
Definition widened_as_claimed (slices : list slice) (n : Z) : Prop :=
  exists s1 s2 s3 s4,
    slices !! Z.to_nat (n - 2) = Some s1 /\ slices !! Z.to_nat (n - 1) = Some s2 /\
    slices !! Z.to_nat n = Some s3 /\ slices !! Z.to_nat (n + 1) = Some s4 /\
    width s1 = 4 /\ width s2 = 3 /\ width s3 = 3 /\ width s4 = 4 /\
    Z.max (Z.max (stop s1) (stop s2)) (Z.max (stop s3) (stop s4))
    - Z.min (Z.min (start s1) (start s2)) (Z.min (start s3) (start s4)) = 4.

(** The representation assembled by [build] from the three query results
    and the reshaped dof tensor: every element of the grid is paired with
    the entry that broadcasting the array of standard elements to the grid
    gives it, and with its block of the dof tensor. *)
Definition assemble (structure_shape : list nat) (ds : list Z) (sl : list (list slice))
  (arr : ndarray StdElem) (dofs : ndarray Z) : function.function :=
  let elems := ix_product (map (seq 0) structure_shape) in
  function.mk
    (dict_of (map (fun ef => (fst ef, [(snd ef, None)]))
                  (zip elems (broadcast_to (nd_shape arr) structure_shape (nd_data arr)))))
    (dict_of (zip elems (map (fun s => block_offsets (nd_shape dofs) s 0) (ix_product sl))))
    (np_product ds)
    (length structure_shape).

(** The exceptions a computation can raise. *)
Definition raises_only {A : Type} (P : exn -> Prop) (c : result A) : Prop :=
  forall e, c = Raise e -> P e.

Definition not_mismatch (e : exn) : Prop := e <> ShapeMismatch.

Definition is_structured (topo : Topology) : bool :=
  match topo with
  | StructuredTopology _ => true
  | UnstructuredTopology _ => false
  end.

(** The statement of claim C9 for one builder and one topology: a
    ShapeMismatch failure when the topology is not structured or its
    dimensionality differs, and a returned representation otherwise. *)
Definition build_contract_as_claimed (b : BasisBuilder) (topo : Topology) : Prop :=
  (is_structured topo = false \/ topo_ndims topo <> ndims b ->
   build b topo = Raise ShapeMismatch) /\
  (is_structured topo = true /\ topo_ndims topo = ndims b ->
   exists f, build b topo = Ok f).

(** Every dof index of an axis of [N] dofs is selected by the slice of some
    element of that axis. *)
Definition axis_covered (N : Z) (slices : list slice) : Prop :=
  forall j, 0 <= j < N ->
    exists e s, slices !! e = Some s /\ elem_of j (slice_range (Z.to_nat N) s).

(** The degrees of all [Spline] factors are non-negative integers. *)
Fixpoint nonneg_degrees (b : BasisBuilder) : Prop :=
  match b with
  | Spline degree _ _ => 0 <= degree
  | ModSpline2 _ _ _ => True
  | ProductFunc func1 func2 => nonneg_degrees func1 /\ nonneg_degrees func2
  end.

(** ** Definitions used to state further properties *)

(** The degrees of all [Spline] factors are at least 1: every factor then
    has one standard element per element. *)
Fixpoint pos_degrees (b : BasisBuilder) : Prop :=
  match b with
  | Spline degree _ _ => 1 <= degree
  | ModSpline2 _ _ _ => True
  | ProductFunc func1 func2 => pos_degrees func1 /\ pos_degrees func2
  end.

(** The largest 64-bit integer of numpy. *)
Definition int64_max : Z := 2 ^ 63 - 1.

(** The sums formed on the index [i] of [getslices], a 64-bit integer
    taken from [numpy.arange(nelems) - rmfirst], stay in its range:
    [i + degree + 1] is at most [nelems + degree] in [Spline], and
    [i + 3] and [i + 4] are at most [nelems + 2] in [ModSpline2]. *)
Definition index_in_range (b : BasisBuilder) (nelems : Z) : Prop :=
  match b with
  | Spline degree _ _ => nelems + degree <= int64_max
  | ModSpline2 _ _ _ => nelems + 2 <= int64_max
  | ProductFunc _ _ => True
  end.

(** An extraction is well formed when its matrix has one row per shape
    function of the wrapped element and rows of one length: only then can
    the wrapped functions be combined through it. *)
Fixpoint wf_extraction (e : StdElem) : Prop :=
  match e with
  | PolyLine _ _ _ => True
  | ExtractionWrapper stdelem extraction =>
      wf_extraction stdelem /\
      length extraction = nshapes stdelem /\
      Forall (fun row => length row = ncols extraction) extraction
  | PolyProduct std1 std2 => wf_extraction std1 /\ wf_extraction std2
  end.

(** The number of entries of a block [a[s]] of an array of shape [dims]. *)
Fixpoint block_size (dims : list nat) (s : list slice) : nat :=
  match dims with
  | [] => 1%nat
  | len :: dims' =>
      (length (match s with
               | [] => seqZ 0 (Z.of_nat len)
               | sl :: _ => slice_range len sl
               end)
       * block_size dims' (tail s))%nat
  end.

(** The multi-indices of the elements of a grid. *)
Definition grid (structure_shape : list nat) : list (list nat) :=
  nd_data (structure structure_shape).

(** ** Basic facts about the Python sequence operations *)

Ltac to_fmap := change (@map ?A ?B) with (@base.fmap list _ A B) in *.

Lemma rbind_ok {A B : Type} (c : result A) (k : A -> result B) (b : B) :
  rbind c k = Ok b -> exists a, c = Ok a /\ k a = Ok b.
Proof. destruct c as [a|e]; simpl; [eauto | discriminate]. Qed.

Lemma py_index_nonneg {A : Type} (l : list A) (k : Z) :
  0 <= k < Z.of_nat (length l) -> py_index l k = Ok (Z.to_nat k).
Proof.
  intros Hk. unfold py_index.
  replace (0 <=? k) with true by (symmetry; apply Z.leb_le; lia).
  replace (k <? Z.of_nat (length l)) with true by (symmetry; apply Z.ltb_lt; lia).
  reflexivity.
Qed.

Lemma py_index_last {A : Type} (l : list A) :
  l <> [] -> py_index l (-1) = Ok (length l - 1)%nat.
Proof.
  intros Hl. unfold py_index. destruct l as [|x l]; [done|].
  simpl length. rewrite Nat2Z.inj_succ.
  replace (0 <=? -1) with false by reflexivity. simpl andb.
  replace (- Z.succ (Z.of_nat (length l)) <=? -1) with true
    by (symmetry; apply Z.leb_le; lia).
  simpl. f_equal. lia.
Qed.

Lemma py_index_empty {A : Type} (k : Z) : py_index (@nil A) k = Raise IndexError.
Proof.
  unfold py_index. simpl length. change (Z.of_nat 0) with 0. change (- 0) with 0.
  destruct (Z.leb_spec 0 k), (Z.ltb_spec k 0); simpl; try reflexivity; lia.
Qed.

Lemma py_getitem_nonneg {A : Type} (l : list A) (k : Z) (x : A) :
  0 <= k -> l !! Z.to_nat k = Some x -> py_getitem l k = Ok x.
Proof.
  intros Hk Hx. unfold py_getitem.
  rewrite py_index_nonneg; [simpl; by rewrite Hx|].
  apply lookup_lt_Some in Hx. lia.
Qed.

Lemma py_setitem_nonneg {A : Type} (l : list A) (k : Z) (v : A) :
  0 <= k < Z.of_nat (length l) -> py_setitem l k v = Ok (<[Z.to_nat k := v]> l).
Proof. intros Hk. unfold py_setitem. by rewrite py_index_nonneg. Qed.

Lemma py_getitem_empty {A : Type} (k : Z) : py_getitem (@nil A) k = Raise IndexError.
Proof. unfold py_getitem. by rewrite py_index_empty. Qed.

Lemma py_getitem_first {A : Type} (x : A) (l : list A) : py_getitem (x :: l) 0 = Ok x.
Proof. apply py_getitem_nonneg; [lia | reflexivity]. Qed.

Lemma py_getitem_last {A : Type} (l : list A) (x : A) :
  last l = Some x -> py_getitem l (-1) = Ok x.
Proof.
  intros Hx. unfold py_getitem.
  rewrite py_index_last by (intros ->; discriminate). simpl.
  rewrite last_lookup in Hx. replace (length l - 1)%nat with (pred (length l)) by lia.
  by rewrite Hx.
Qed.

Lemma length_arange (n : Z) : length (arange n) = Z.to_nat n.
Proof. apply length_seqZ. Qed.

Lemma length_windows (N width nelems : Z) (rmfirst : bool) :
  length (windows N width nelems rmfirst) = Z.to_nat nelems.
Proof. unfold windows. by rewrite !length_map, length_arange. Qed.

Lemma lookup_windows (N width nelems : Z) (rmfirst : bool) (e : nat) :
  Z.of_nat e < nelems ->
  windows N width nelems rmfirst !! e
  = Some (Slice (Z.max 0 (Z.of_nat e - Z.b2z rmfirst))
                (Z.min N (Z.of_nat e - Z.b2z rmfirst + width))).
Proof.
  intros He. unfold windows, arange.
  to_fmap.
  by rewrite !list_lookup_fmap, lookup_seqZ_lt.
Qed.

Lemma PolyLine_spline_segments (degree nelems : Z) :
  degree <> 0 ->
  PolyLine_spline degree nelems = map (PolyLine degree nelems) (arange nelems).
Proof. intros Hd. unfold PolyLine_spline. by destruct (Z.eqb_spec degree 0). Qed.

Lemma length_PolyLine_spline (degree nelems : Z) :
  degree <> 0 -> length (PolyLine_spline degree nelems) = Z.to_nat nelems.
Proof.
  intros Hd. rewrite PolyLine_spline_segments by done.
  by rewrite length_map, length_arange.
Qed.

Lemma lookup_PolyLine_spline (degree nelems : Z) (e : nat) :
  degree <> 0 -> Z.of_nat e < nelems ->
  PolyLine_spline degree nelems !! e = Some (PolyLine degree nelems (Z.of_nat e)).
Proof.
  intros Hd He. rewrite PolyLine_spline_segments by done. unfold arange.
  to_fmap.
  by rewrite list_lookup_fmap, lookup_seqZ_lt.
Qed.

Lemma PolyLine_spline_nonempty (degree nelems : Z) :
  1 <= nelems -> PolyLine_spline degree nelems <> [].
Proof.
  intros Hn H. apply (f_equal length) in H. unfold PolyLine_spline in H.
  destruct (Z.eqb_spec degree 0); [discriminate|].
  rewrite length_map, length_arange in H. simpl in H. lia.
Qed.

Lemma elem_of_slice_range (len : nat) (s : slice) (j : Z) :
  elem_of j (slice_range len s)
  <-> slice_clamp (Z.of_nat len) (start s) <= j < slice_clamp (Z.of_nat len) (stop s).
Proof. unfold slice_range, slice_indices. rewrite elem_of_seqZ. lia. Qed.

Lemma slice_range_bounds (len : nat) (s : slice) (j : Z) :
  elem_of j (slice_range len s) -> 0 <= j < Z.of_nat len.
Proof.
  rewrite elem_of_slice_range. unfold slice_clamp.
  destruct (Z.ltb_spec (start s) 0), (Z.ltb_spec (stop s) 0); lia.
Qed.

(** A slice whose bounds lie inside the axis selects its half-open range. *)
Lemma slice_range_inside (len : nat) (a b : Z) :
  0 <= a -> 0 <= b <= Z.of_nat len ->
  slice_range len (Slice a b) = seqZ a (b - a).
Proof.
  intros Ha Hb. unfold slice_range, slice_indices, slice_clamp. simpl.
  destruct (Z.ltb_spec a 0), (Z.ltb_spec b 0); try lia.
  destruct (Z.le_gt_cases a b).
  - by rewrite !Z.min_l by lia.
  - rewrite !seqZ_nil; [done|lia|lia].
Qed.

(** ** Dof shapes *)

Lemma Spline_getdofshape_1 (degree nelems : Z) (rmfirst rmlast : bool) :
  getdofshape (Spline degree rmfirst rmlast) [nelems]
  = Ok [nelems + degree - Z.b2z rmfirst - Z.b2z rmlast].
Proof. reflexivity. Qed.

Lemma ModSpline2_getdofshape_1 (ifaces : list Z) (nelems : Z) (rmfirst rmlast : bool) :
  getdofshape (ModSpline2 ifaces rmfirst rmlast) [nelems]
  = Ok [nelems + 2 - Z.b2z rmfirst - Z.b2z rmlast].
Proof. reflexivity. Qed.

Lemma assert_len_ok (shape : list Z) (n : nat) :
  length shape = n -> assert_len shape n = Ok tt.
Proof. intros <-. unfold assert_len. by rewrite Nat.eqb_refl. Qed.

(** Property X15.  For [nelems >= 1] and [degree >= 0] with
    [nelems + degree] in the range of the 64-bit index, [Spline.getslices]
    returns one list of [nelems] slices, and the slice of element [i] is
    [slice(max(0, i - rmfirst), min(N, i - rmfirst + degree + 1))] with [N]
    the dof count returned by [getdofshape]; on the dof axis it selects
    exactly the indices of that half-open range. *)
Theorem Spline_getslices_windows (degree nelems : Z) (rmfirst rmlast : bool) :
  1 <= nelems -> 0 <= degree -> nelems + degree <= int64_max ->
  let N := nelems + degree - Z.b2z rmfirst - Z.b2z rmlast in
  getdofshape (Spline degree rmfirst rmlast) [nelems] = Ok [N] /\
  exists slices,
    getslices (Spline degree rmfirst rmlast) [nelems] = Ok [slices] /\
    length slices = Z.to_nat nelems /\
    forall i, 0 <= i < nelems ->
      let a := Z.max 0 (i - Z.b2z rmfirst) in
      let b := Z.min N (i - Z.b2z rmfirst + degree + 1) in
      slices !! Z.to_nat i = Some (Slice a b) /\
      forall j, elem_of j (slice_range (Z.to_nat N) (Slice a b)) <-> a <= j < b.
Proof.
  intros Hn Hd _ N. split; [reflexivity|].
  exists (windows N (degree + 1) nelems rmfirst).
  split; [reflexivity|]. split; [apply length_windows|].
  intros i Hi a b. split.
  - rewrite lookup_windows by lia. rewrite Z2Nat.id by lia.
    subst a b. do 2 f_equal. lia.
  - intros j. rewrite elem_of_slice_range. unfold slice_clamp. simpl.
    subst a b N. destruct rmfirst, rmlast; simpl Z.b2z;
      repeat match goal with |- context [?x <? 0] => destruct (Z.ltb_spec x 0) end;
      lia.
Qed.

Lemma Spline_getslices_windows_witness :
  exists slices,
    getslices (Spline 1 true false) [4] = Ok [slices] /\
    slices !! 3%nat = Some (Slice 2 4).
Proof.
  destruct (Spline_getslices_windows 1 4 true false ltac:(lia) ltac:(lia)
              ltac:(unfold int64_max; lia))
    as [_ (slices & Hs & _ & Hi)].
  exists slices. split; [exact Hs|].
  destruct (Hi 3 ltac:(lia)) as [H3 _]. exact H3.
Defined.

(** ** The product combinator *)

Lemma getdofshape_left_nested (A B C : BasisBuilder) (shape : list Z) :
  length shape = (ndims A + ndims B + ndims C)%nat ->
  getdofshape (ProductFunc (ProductFunc A B) C) shape = getdofshape3 A B C shape.
Proof.
  intros Hlen. unfold getdofshape3. simpl.
  rewrite assert_len_ok by done. simpl.
  rewrite assert_len_ok by (rewrite length_take; lia). simpl.
  rewrite take_take, Nat.min_l by lia.
  rewrite skipn_firstn_comm.
  replace (ndims A + ndims B - ndims A)%nat with (ndims B) by lia.
  destruct (getdofshape A _) as [a|]; simpl; [|done].
  destruct (getdofshape B _) as [b|]; simpl; [|done].
  destruct (getdofshape C _) as [c|]; simpl; [|done].
  by rewrite <- app_assoc.
Qed.

Lemma getdofshape_right_nested (A B C : BasisBuilder) (shape : list Z) :
  length shape = (ndims A + ndims B + ndims C)%nat ->
  getdofshape (ProductFunc A (ProductFunc B C)) shape = getdofshape3 A B C shape.
Proof.
  intros Hlen. unfold getdofshape3. simpl.
  rewrite assert_len_ok by lia. simpl.
  destruct (getdofshape A _) as [a|]; simpl; [|done].
  rewrite assert_len_ok by (rewrite length_drop; lia). simpl.
  rewrite drop_drop.
  destruct (getdofshape B _) as [b|]; simpl; [|done].
  destruct (getdofshape C _) as [c|]; simpl; done.
Qed.

(** Claim C8.  The dimensionality of a product is the sum of the
    dimensionalities of its factors, and on an element-count tuple of the
    right length both groupings of a triple product return the same dof
    shape: the concatenation of the dof shapes of the three factors on the
    prefix, the middle and the suffix of the tuple. *)
Theorem ProductFunc_dofshape_assoc (A B C : BasisBuilder) (shape : list Z) :
  length shape = (ndims A + ndims B + ndims C)%nat ->
  ndims (ProductFunc A B) = (ndims A + ndims B)%nat /\
  getdofshape (ProductFunc (ProductFunc A B) C) shape
  = getdofshape (ProductFunc A (ProductFunc B C)) shape /\
  getdofshape (ProductFunc (ProductFunc A B) C) shape
  = (let! a := getdofshape A (take (ndims A) shape) in
     let! b := getdofshape B (take (ndims B) (drop (ndims A) shape)) in
     let! c := getdofshape C (drop (ndims A + ndims B) shape) in
     Ok (a ++ b ++ c)).
Proof.
  intros Hlen. split; [reflexivity|].
  rewrite getdofshape_left_nested, getdofshape_right_nested by done.
  split; reflexivity.
Qed.

Lemma ProductFunc_dofshape_assoc_witness :
  getdofshape (ProductFunc (ProductFunc (Spline 1 false false) (ModSpline2 [2] false true))
                           (Spline 3 true false)) [3; 6; 2]
  = Ok [4; 7; 4] /\
  getdofshape (ProductFunc (Spline 1 false false)
                           (ProductFunc (ModSpline2 [2] false true) (Spline 3 true false)))
              [3; 6; 2]
  = Ok [4; 7; 4].
Proof.
  destruct (ProductFunc_dofshape_assoc (Spline 1 false false) (ModSpline2 [2] false true)
              (Spline 3 true false) [3; 6; 2] eq_refl) as (_ & Heq & Hcat).
  split; [exact Hcat | rewrite <- Heq; exact Hcat].
Defined.

(** ** The validity rule of [ModSpline2] *)

Lemma np_sort_nil (l : list Z) : np_sort l = [] <-> l = [].
Proof.
  unfold np_sort. split.
  - intros H. pose proof (merge_sort_Permutation Z.le l) as HP.
    rewrite H in HP. by apply Permutation_nil_l in HP.
  - intros ->. reflexivity.
Qed.

Lemma forallb_np_diff (l : list Z) :
  forallb (fun d => 4 <=? d) (np_diff l) = true
  <-> forall i p q, l !! i = Some p -> l !! S i = Some q -> 4 <= q - p.
Proof.
  induction l as [|a [|b l] IH].
  - split; [intros _ i p q H; discriminate | reflexivity].
  - split; [intros _ i p q _ H; destruct i; discriminate | reflexivity].
  - change (np_diff (a :: b :: l)) with ((b - a) :: np_diff (b :: l)).
    simpl forallb. rewrite andb_true_iff, IH, Z.leb_le. split.
    + intros [Hab Hrest] [|i] p q Hp Hq.
      * injection Hp as <-. injection Hq as <-. exact Hab.
      * exact (Hrest i p q Hp Hq).
    + intros H. split.
      * exact (H 0%nat a b eq_refl eq_refl).
      * intros i p q Hp Hq. exact (H (S i) p q Hp Hq).
Qed.

Lemma ifaces_check_valid (ifaces : list Z) (nelems : Z) :
  ifaces_check (np_sort (map (normalize_iface nelems) ifaces)) nelems = true
  <-> valid_interfaces ifaces nelems.
Proof.
  unfold valid_interfaces, ifaces_check.
  destruct (np_sort (map (normalize_iface nelems) ifaces)) as [|x s] eqn:Hs.
  - split; [|reflexivity]. intros _. repeat split.
    + intros p H; discriminate.
    + intros i p q H; discriminate.
    + intros p H; discriminate.
  - rewrite !andb_true_iff, forallb_np_diff, Z.leb_le.
    destruct (last (x :: s)) as [p|] eqn:Hlast.
    + rewrite Z.leb_le. split.
      * intros [[H1 H2] H3]. repeat split; [by intros ? [= <-] | exact H2 | by intros ? [= <-]].
      * intros (H1 & H2 & H3). repeat split; [by apply H1 | exact H2 | by apply H3].
    + apply last_None in Hlast. discriminate.
Qed.

Lemma sorted_ifaces_cases (ifaces : list Z) (nelems : Z) :
  let positions := np_sort (map (normalize_iface nelems) ifaces) in
  sorted_ifaces ifaces nelems
  = match positions with
    | [] => Raise IndexError
    | _ :: _ => if ifaces_check positions nelems then Ok positions
                else Raise InvalidInterfaceSet
    end.
Proof.
  intros positions. unfold sorted_ifaces. fold positions.
  destruct positions as [|x s] eqn:Hp.
  - by rewrite py_getitem_empty.
  - rewrite py_getitem_first. simpl rbind. unfold ifaces_check.
    destruct (2 <=? x); simpl; [|reflexivity].
    destruct (forallb _ _); simpl; [|reflexivity].
    destruct (last (x :: s)) as [p|] eqn:Hlast.
    + rewrite (py_getitem_last _ _ Hlast). simpl. by destruct (p <=? nelems - 2).
    + apply last_None in Hlast. discriminate.
Qed.

Lemma sorted_ifaces_invalid (ifaces : list Z) (nelems : Z) :
  sorted_ifaces ifaces nelems = Raise InvalidInterfaceSet
  <-> ~ valid_interfaces ifaces nelems.
Proof.
  rewrite <- ifaces_check_valid, sorted_ifaces_cases.
  destruct (np_sort _) as [|x s].
  - split; [discriminate | intros H; by destruct H].
  - destruct (ifaces_check _ _); split; done.
Qed.

Lemma sorted_ifaces_ok (ifaces : list Z) (nelems : Z) :
  ifaces <> [] -> valid_interfaces ifaces nelems ->
  sorted_ifaces ifaces nelems = Ok (np_sort (map (normalize_iface nelems) ifaces)).
Proof.
  intros Hne Hv. rewrite sorted_ifaces_cases.
  apply ifaces_check_valid in Hv. rewrite Hv.
  destruct (np_sort _) as [|x s] eqn:Hs; [|reflexivity].
  apply (proj1 (np_sort_nil _)) in Hs. destruct ifaces; [by destruct Hne | discriminate].
Qed.

Lemma sorted_ifaces_ok_inv (ifaces : list Z) (nelems : Z) (positions : list Z) :
  sorted_ifaces ifaces nelems = Ok positions ->
  ifaces <> [] /\ valid_interfaces ifaces nelems /\
  positions = np_sort (map (normalize_iface nelems) ifaces).
Proof.
  rewrite sorted_ifaces_cases. rewrite <- ifaces_check_valid.
  destruct (np_sort _) as [|x s] eqn:Hs; [discriminate|].
  destruct (ifaces_check _ _); [|discriminate].
  intros [= <-]. repeat split. intros ->. discriminate.
Qed.

(** ** The loops of [ModSpline2] as pointwise updates *)

Lemma spaced_of_checks (hi : Z) (positions : list Z) : forall lo,
  (forall p, head positions = Some p -> lo <= p) ->
  (forall i p q, positions !! i = Some p -> positions !! S i = Some q -> 4 <= q - p) ->
  (forall p, last positions = Some p -> p <= hi) ->
  spaced lo hi positions.
Proof.
  induction positions as [|n rest IH]; intros lo Hhead Hdiff Hlast; [exact I|].
  assert (Hrest : spaced (n + 4) hi rest).
  { apply IH.
    - intros p Hp. destruct rest as [|m rest']; [discriminate|].
      injection Hp as <-. specialize (Hdiff 0%nat n m eq_refl eq_refl). lia.
    - intros i p q Hp Hq. exact (Hdiff (S i) p q Hp Hq).
    - intros p Hp. apply Hlast. destruct rest; [discriminate | exact Hp]. }
  split; [|exact Hrest]. split; [by apply Hhead|].
  destruct rest as [|m rest']; [by apply Hlast|].
  destruct Hrest as [Hm _]. lia.
Qed.

Lemma valid_interfaces_spaced (ifaces : list Z) (nelems : Z) :
  valid_interfaces ifaces nelems ->
  spaced 2 (nelems - 2) (np_sort (map (normalize_iface nelems) ifaces)).
Proof. intros (H1 & H2 & H3). by apply spaced_of_checks. Qed.

Lemma spaced_weaken (lo lo' hi : Z) (positions : list Z) :
  lo' <= lo -> spaced lo hi positions -> spaced lo' hi positions.
Proof. destruct positions as [|n rest]; [done|]. intros Hlo [Hn Hrest]. split; [lia|done]. Qed.

Lemma spaced_Forall (lo hi : Z) (positions : list Z) :
  spaced lo hi positions -> Forall (fun n => lo <= n <= hi) positions.
Proof.
  revert lo. induction positions as [|n rest IH]; intros lo; [constructor|].
  intros [Hn Hrest]. constructor; [exact Hn|].
  apply IH. by apply (spaced_weaken (n + 4)); [lia|].
Qed.

Lemma owner_Some (positions : list Z) (e n : Z) :
  owner positions e = Some n -> elem_of n positions /\ n - 2 <= e <= n + 1.
Proof.
  induction positions as [|m rest IH]; [discriminate|]. simpl.
  destruct (Z.leb_spec (m - 2) e), (Z.leb_spec e (m + 1)); simpl.
  - intros [= <-]. split; [by left | lia].
  - intros Ho. destruct (IH Ho). split; [by right | done].
  - intros Ho. destruct (IH Ho). split; [by right | done].
  - intros Ho. destruct (IH Ho). split; [by right | done].
Qed.

Lemma owner_before (lo hi : Z) (positions : list Z) (e : Z) :
  spaced lo hi positions -> e < lo - 2 -> owner positions e = None.
Proof.
  revert lo. induction positions as [|m rest IH]; intros lo; [done|].
  intros [Hm Hrest] He. simpl.
  destruct (Z.leb_spec (m - 2) e); [lia|]. simpl. apply (IH (m + 4)); [done | lia].
Qed.

(** A loop that updates the entries of a list one position at a time
    computes, at every index, the fold of the updates that touch it. *)
Section Pointwise.
Context {A : Type}.
Variable step : list A -> Z -> result (list A).
Variable f : Z -> Z -> A -> A.
Variable P : nat -> Z -> Prop.
Hypothesis step_pointwise : forall l n,
  P (length l) n -> step l n = Ok (imap (fun e d => f n (Z.of_nat e) d) l).

Lemma for_each_pointwise (ns : list Z) : forall l,
  Forall (P (length l)) ns ->
  for_each step l ns
  = Ok (imap (fun e d => foldl (fun d n => f n (Z.of_nat e) d) d ns) l).
Proof.
  induction ns as [|n ns IH]; intros l Hns.
  - simpl. f_equal. apply list_eq. intros i.
    rewrite list_lookup_imap. by destruct (l !! i).
  - inversion Hns as [|? ? Hn Hns']; subst. simpl.
    rewrite step_pointwise by done. simpl.
    rewrite IH by (by rewrite length_imap). f_equal.
    apply list_eq. intros i. rewrite !list_lookup_imap.
    by destruct (l !! i).
Qed.

(** When the updates are local to the patch of an interface and the
    interfaces are spaced, at most one update touches an index. *)
Hypothesis f_local : forall n e d, e < n - 2 \/ n + 1 < e -> f n e d = d.

Lemma foldl_spaced (ns : list Z) (e : Z) : forall lo hi d,
  spaced lo hi ns ->
  foldl (fun d n => f n e d) d ns
  = match owner ns e with Some n => f n e d | None => d end.
Proof.
  induction ns as [|n ns IH]; intros lo hi d; [done|].
  intros [Hn Hrest]. simpl.
  rewrite (IH (n + 4) hi) by done.
  destruct (Z.leb_spec (n - 2) e), (Z.leb_spec e (n + 1)); simpl.
  - by rewrite (owner_before (n + 4) hi) by (done || lia).
  - rewrite f_local by lia. done.
  - rewrite f_local by lia. done.
  - lia.
Qed.
End Pointwise.

Lemma imap_imap {A : Type} (f g : nat -> A -> A) (l : list A) :
  imap g (imap f l) = imap (fun e d => g e (f e d)) l.
Proof.
  apply list_eq. intros i. rewrite !list_lookup_imap. by destruct (l !! i).
Qed.

Lemma imap_ext_lookup {A : Type} (f g : nat -> A -> A) (l : list A) :
  (forall e d, l !! e = Some d -> f e d = g e d) -> imap f l = imap g l.
Proof.
  intros H. apply list_eq. intros i. rewrite !list_lookup_imap.
  destruct (l !! i) as [d|] eqn:Hd; [|done]. simpl. f_equal. by apply H.
Qed.

Lemma insert_update_at {A : Type} (l : list A) (i : nat) (g : A -> A) (x : A) :
  l !! i = Some x ->
  <[i := g x]> l = imap (fun e d => update_at (Z.of_nat i) g (Z.of_nat e) d) l.
Proof.
  intros Hx. apply list_eq. intros j.
  rewrite list_lookup_imap, list_lookup_insert. unfold update_at.
  destruct (decide (i = j /\ (i < length l)%nat)) as [[-> _]|Hn].
  - rewrite Hx. simpl. by rewrite Z.eqb_refl.
  - destruct (l !! j) as [d|] eqn:Hd; [|done]. simpl.
    destruct (Z.eqb_spec (Z.of_nat j) (Z.of_nat i)) as [Heq|]; [|done].
    apply Nat2Z.inj in Heq. subst j. destruct Hn. split; [done|].
    by apply lookup_lt_Some in Hx.
Qed.

Lemma py_update_nonneg {A : Type} (l : list A) (k : Z) (g : A -> A) :
  0 <= k < Z.of_nat (length l) ->
  (let! x := py_getitem l k in py_setitem l k (g x))
  = Ok (imap (fun e d => update_at k g (Z.of_nat e) d) l).
Proof.
  intros Hk.
  destruct (lookup_lt_is_Some_2 l (Z.to_nat k)) as [x Hx]; [lia|].
  rewrite (py_getitem_nonneg l k x) by (lia || done). simpl.
  rewrite py_setitem_nonneg by done. f_equal.
  rewrite (insert_update_at l _ g x Hx). by rewrite Z2Nat.id by lia.
Qed.

Lemma py_update_last {A : Type} (l : list A) (g : A -> A) :
  l <> [] ->
  (let! x := py_getitem l (-1) in py_setitem l (-1) (g x))
  = Ok (imap (fun e d => update_at (Z.of_nat (length l) - 1) g (Z.of_nat e) d) l).
Proof.
  intros Hl.
  assert (Hlen : (0 < length l)%nat) by (destruct l; [done | simpl; lia]).
  destruct (lookup_lt_is_Some_2 l (length l - 1)) as [x Hx]; [lia|].
  unfold py_getitem, py_setitem. rewrite py_index_last by done. simpl.
  rewrite Hx. simpl. f_equal.
  rewrite (insert_update_at l _ g x Hx).
  by replace (Z.of_nat (length l - 1)) with (Z.of_nat (length l) - 1) by lia.
Qed.

Lemma py_setitem_pointwise {A : Type} (l : list A) (k : Z) (v : A) :
  0 <= k < Z.of_nat (length l) ->
  py_setitem l k v = Ok (imap (fun e d => update_at k (fun _ => v) (Z.of_nat e) d) l).
Proof.
  intros Hk.
  destruct (lookup_lt_is_Some_2 l (Z.to_nat k)) as [x Hx]; [lia|].
  rewrite py_setitem_nonneg by done. f_equal.
  rewrite (insert_update_at l _ (fun _ => v) x Hx). by rewrite Z2Nat.id by lia.
Qed.

Lemma patch_slices_pointwise (N : Z) (rmfirst : bool) (l : list slice) (n : Z) :
  in_patch_range (length l) n ->
  patch_slices N rmfirst l n
  = Ok (imap (fun e d => patch_slice_at N rmfirst n (Z.of_nat e) d) l).
Proof.
  unfold in_patch_range. intros Hn. unfold patch_slices.
  rewrite py_setitem_pointwise by lia. simpl.
  rewrite py_setitem_pointwise by (rewrite length_imap; lia).
  by rewrite imap_imap.
Qed.

Lemma patch_stdelems_pointwise (l : list StdElem) (n : Z) :
  in_patch_range (length l) n ->
  patch_stdelems l n = Ok (imap (fun e d => patch_stdelem_at n (Z.of_nat e) d) l).
Proof.
  unfold in_patch_range. intros Hn. unfold patch_stdelems, extract_at.
  rewrite py_update_nonneg by lia. simpl.
  rewrite py_update_nonneg by (rewrite length_imap; lia). simpl.
  rewrite py_update_nonneg by (rewrite !length_imap; lia). simpl.
  rewrite py_update_nonneg by (rewrite !length_imap; lia).
  by rewrite !imap_imap.
Qed.

Lemma patch_slice_at_local (N : Z) (rmfirst : bool) (n e : Z) (d : slice) :
  e < n - 2 \/ n + 1 < e -> patch_slice_at N rmfirst n e d = d.
Proof.
  intros He. unfold patch_slice_at, update_at.
  destruct (Z.eqb_spec e (n + 1)), (Z.eqb_spec e (n - 2)); (done || lia).
Qed.

Lemma patch_stdelem_at_local (n e : Z) (d : StdElem) :
  e < n - 2 \/ n + 1 < e -> patch_stdelem_at n e d = d.
Proof.
  intros He. unfold patch_stdelem_at, update_at.
  destruct (Z.eqb_spec e (n + 1)), (Z.eqb_spec e (n + 0)),
    (Z.eqb_spec e (n - 1)), (Z.eqb_spec e (n - 2)); (done || lia).
Qed.

Lemma for_each_patch_slices (N : Z) (rmfirst : bool) (positions : list Z) (l : list slice) :
  spaced 2 (Z.of_nat (length l) - 2) positions ->
  for_each (patch_slices N rmfirst) l positions
  = Ok (imap (fun e d => owned_slice N rmfirst positions (Z.of_nat e) d) l).
Proof.
  intros Hsp.
  rewrite (for_each_pointwise _ (patch_slice_at N rmfirst) in_patch_range
             (patch_slices_pointwise N rmfirst))
    by (by apply spaced_Forall).
  f_equal. apply imap_ext_lookup. intros e d _. unfold owned_slice.
  by apply (foldl_spaced (patch_slice_at N rmfirst) (patch_slice_at_local N rmfirst)
              positions (Z.of_nat e) 2 (Z.of_nat (length l) - 2)).
Qed.

Lemma for_each_patch_stdelems (positions : list Z) (l : list StdElem) :
  spaced 2 (Z.of_nat (length l) - 2) positions ->
  for_each patch_stdelems l positions
  = Ok (imap (fun e d => owned_stdelem positions (Z.of_nat e) d) l).
Proof.
  intros Hsp.
  rewrite (for_each_pointwise _ patch_stdelem_at in_patch_range patch_stdelems_pointwise)
    by (by apply spaced_Forall).
  f_equal. apply imap_ext_lookup. intros e d _. unfold owned_stdelem.
  by apply (foldl_spaced patch_stdelem_at patch_stdelem_at_local
              positions (Z.of_nat e) 2 (Z.of_nat (length l) - 2)).
Qed.

(** ** Endpoint removal and the closed form of the one-dimensional queries *)

Lemma imap_id {A : Type} (l : list A) : imap (fun _ d => d) l = l.
Proof. apply list_eq. intros i. rewrite list_lookup_imap. by destruct (l !! i). Qed.

Lemma remove_ends_pointwise (rmfirst rmlast : bool) (l : list StdElem) :
  l <> [] ->
  remove_ends rmfirst rmlast l
  = Ok (imap (fun e d => removed_at rmfirst rmlast (Z.of_nat (length l)) (Z.of_nat e) d) l).
Proof.
  intros Hl.
  assert (Hlen : (0 < length l)%nat) by (destruct l; [done | simpl; lia]).
  assert (Hfirst : remove_first l
                   = Ok (imap (fun e d => update_at 0 drop_first_shape (Z.of_nat e) d) l)).
  { rewrite <- (py_update_nonneg l 0 drop_first_shape) by lia. reflexivity. }
  assert (Hlast : forall l' : list StdElem, l' <> [] ->
            remove_last l'
            = Ok (imap (fun e d => update_at (Z.of_nat (length l') - 1) drop_last_shape
                                     (Z.of_nat e) d) l')).
  { intros l' Hl'. rewrite <- (py_update_last l' drop_last_shape) by done. reflexivity. }
  unfold remove_ends, removed_at.
  destruct rmfirst, rmlast.
  - rewrite Hfirst. simpl. rewrite Hlast.
    + by rewrite imap_imap, length_imap.
    + intros H. apply (f_equal length) in H. rewrite length_imap in H. simpl in H. lia.
  - rewrite Hfirst. reflexivity.
  - simpl. by rewrite Hlast.
  - simpl. by rewrite imap_id.
Qed.

Lemma ncols_drop_first_eye (k : nat) : ncols (drop_first_col (eye k)) = (k - 1)%nat.
Proof.
  destruct k as [|k]; [reflexivity|].
  unfold eye, drop_first_col. simpl seq. simpl.
  rewrite length_drop, length_map, length_seq. lia.
Qed.

Lemma ncols_drop_last_eye (k : nat) : ncols (drop_last_col (eye k)) = (k - 1)%nat.
Proof.
  destruct k as [|k]; [reflexivity|].
  unfold eye, drop_last_col. simpl seq. cbn [map ncols].
  rewrite length_take. cbn [length]. rewrite length_map, length_seq. lia.
Qed.

Lemma nshapes_removed_at (rmfirst rmlast : bool) (len e : Z) (d : StdElem) :
  nshapes (removed_at rmfirst rmlast len e d)
  = (nshapes d - (if rmfirst && (e =? 0)%Z then 1 else 0)
               - (if rmlast && (e =? len - 1)%Z then 1 else 0))%nat.
Proof.
  unfold removed_at, update_at, drop_first_shape, drop_last_shape.
  destruct rmfirst, rmlast, (e =? 0), (e =? len - 1); simpl;
    rewrite ?ncols_drop_last_eye; simpl; rewrite ?ncols_drop_first_eye; lia.
Qed.

Lemma Spline_getstdelems_1 (degree nelems : Z) (rmfirst rmlast : bool) :
  1 <= nelems -> degree <> 0 ->
  getstdelems (Spline degree rmfirst rmlast) [nelems]
  = Ok (array1 (imap (fun e d => removed_at rmfirst rmlast nelems (Z.of_nat e) d)
                     (PolyLine_spline degree nelems))).
Proof.
  intros Hn Hd. simpl. unfold Spline_getstdelems. simpl.
  rewrite remove_ends_pointwise by (by apply PolyLine_spline_nonempty).
  simpl. rewrite length_PolyLine_spline by done. by rewrite Z2Nat.id by lia.
Qed.

(** For degree 0 the array has one entry, which is the first and the last:
    both removals apply to it. *)
Lemma Spline_getstdelems_0 (nelems : Z) (rmfirst rmlast : bool) :
  getstdelems (Spline 0 rmfirst rmlast) [nelems]
  = Ok (array1 [removed_at rmfirst rmlast 1 0 (PolyLine 0 nelems 0)]).
Proof. by destruct rmfirst, rmlast. Qed.

Lemma Spline_getstdelems_returns (degree nelems : Z) (rmfirst rmlast : bool) :
  1 <= nelems ->
  exists arr, getstdelems (Spline degree rmfirst rmlast) [nelems] = Ok arr.
Proof.
  intros Hn. destruct (Z.eq_dec degree 0) as [->|Hd]; eexists.
  - apply Spline_getstdelems_0.
  - by apply Spline_getstdelems_1.
Qed.

Lemma spaced_nonempty_bound (hi : Z) (positions : list Z) :
  positions <> [] -> spaced 2 hi positions -> 2 <= hi.
Proof. destruct positions as [|n rest]; [done|]. intros _ [Hn _]. lia. Qed.

Lemma sorted_ifaces_spaced (ifaces : list Z) (nelems : Z) (positions : list Z) :
  sorted_ifaces ifaces nelems = Ok positions ->
  spaced 2 (nelems - 2) positions /\ 4 <= nelems.
Proof.
  intros H. apply sorted_ifaces_ok_inv in H as (Hne & Hv & ->).
  pose proof (valid_interfaces_spaced _ _ Hv) as Hsp. split; [done|].
  enough (2 <= nelems - 2) by lia.
  apply (spaced_nonempty_bound _ _) in Hsp; [done|].
  intros Hs. apply (proj1 (np_sort_nil _)) in Hs. destruct ifaces; [done | discriminate].
Qed.

Lemma ModSpline2_getslices_1 (ifaces positions : list Z) (nelems : Z)
  (rmfirst rmlast : bool) :
  sorted_ifaces ifaces nelems = Ok positions ->
  let N := nelems + 2 - Z.b2z rmfirst - Z.b2z rmlast in
  getslices (ModSpline2 ifaces rmfirst rmlast) [nelems]
  = Ok [imap (fun e d => owned_slice N rmfirst positions (Z.of_nat e) d)
             (windows N 3 nelems rmfirst)].
Proof.
  intros Hs N. destruct (sorted_ifaces_spaced _ _ _ Hs) as [Hsp Hn].
  simpl. unfold ModSpline2_getslices. simpl. rewrite Hs. simpl.
  fold N. rewrite for_each_patch_slices; [done|].
  rewrite length_windows. by rewrite Z2Nat.id by lia.
Qed.

Lemma ModSpline2_getstdelems_1 (ifaces positions : list Z) (nelems : Z)
  (rmfirst rmlast : bool) :
  sorted_ifaces ifaces nelems = Ok positions ->
  getstdelems (ModSpline2 ifaces rmfirst rmlast) [nelems]
  = Ok (array1 (imap (fun e d => removed_at rmfirst rmlast nelems (Z.of_nat e)
                                   (owned_stdelem positions (Z.of_nat e) d))
                     (PolyLine_spline 2 nelems))).
Proof.
  intros Hs. destruct (sorted_ifaces_spaced _ _ _ Hs) as [Hsp Hn].
  simpl. unfold ModSpline2_getstdelems. simpl. rewrite Hs. simpl.
  rewrite for_each_patch_stdelems
    by (rewrite length_PolyLine_spline by done; by rewrite Z2Nat.id by lia).
  simpl. rewrite remove_ends_pointwise.
  - simpl. rewrite imap_imap, length_imap, length_PolyLine_spline by done.
    by rewrite Z2Nat.id by lia.
  - intros H. apply (f_equal length) in H.
    rewrite length_imap, length_PolyLine_spline in H by done. simpl in H. lia.
Qed.

Lemma ModSpline2_queries_raise (ifaces : list Z) (rmfirst rmlast : bool) (nelems : Z) (e : exn) :
  sorted_ifaces ifaces nelems = Raise e ->
  getslices (ModSpline2 ifaces rmfirst rmlast) [nelems] = Raise e /\
  getstdelems (ModSpline2 ifaces rmfirst rmlast) [nelems] = Raise e.
Proof.
  intros H. simpl. unfold ModSpline2_getslices, ModSpline2_getstdelems. simpl.
  by rewrite H.
Qed.

(** ** Slice widths and shape-function counts *)

Lemma slice_len_clamp (len : nat) (s : slice) :
  slice_len len s
  = Z.to_nat (slice_clamp (Z.of_nat len) (stop s) - slice_clamp (Z.of_nat len) (start s)).
Proof. unfold slice_len, slice_range, slice_indices. by rewrite length_seqZ. Qed.

Ltac split_cases :=
  repeat match goal with
         | |- context [Z.ltb ?x ?y] => destruct (Z.ltb_spec x y)
         | |- context [Z.eqb ?x ?y] => destruct (Z.eqb_spec x y)
         | b : bool |- _ => destruct b
         end.

Lemma Spline_width (degree nelems : Z) (rmfirst rmlast : bool) (e : nat) :
  1 <= nelems -> 0 <= degree -> Z.of_nat e < nelems ->
  let N := nelems + degree - Z.b2z rmfirst - Z.b2z rmlast in
  let s := Slice (Z.max 0 (Z.of_nat e - Z.b2z rmfirst))
                 (Z.min N (Z.of_nat e - Z.b2z rmfirst + (degree + 1))) in
  let el := removed_at rmfirst rmlast nelems (Z.of_nat e)
                       (PolyLine degree nelems (Z.of_nat e)) in
  slice_len (Z.to_nat N) s = nshapes el /\
  (0 <= N -> stop s - start s = Z.of_nat (nshapes el)).
Proof.
  intros Hn Hd He N s el. subst el.
  rewrite nshapes_removed_at, slice_len_clamp. subst s N.
  unfold slice_clamp. cbn [start stop nshapes].
  split_cases; cbn [Z.b2z andb] in *; split; lia.
Qed.

Lemma ModSpline2_width (positions : list Z) (nelems : Z) (rmfirst rmlast : bool) (e : nat) :
  spaced 2 (nelems - 2) positions -> 4 <= nelems -> Z.of_nat e < nelems ->
  let N := nelems + 2 - Z.b2z rmfirst - Z.b2z rmlast in
  let s := owned_slice N rmfirst positions (Z.of_nat e)
             (Slice (Z.max 0 (Z.of_nat e - Z.b2z rmfirst))
                    (Z.min N (Z.of_nat e - Z.b2z rmfirst + 3))) in
  let el := removed_at rmfirst rmlast nelems (Z.of_nat e)
              (owned_stdelem positions (Z.of_nat e) (PolyLine 2 nelems (Z.of_nat e))) in
  slice_len (Z.to_nat N) s = nshapes el /\
  stop s - start s = Z.of_nat (nshapes el).
Proof.
  intros Hsp Hn He N s el. subst el.
  rewrite nshapes_removed_at, slice_len_clamp. subst s N.
  unfold owned_slice, owned_stdelem.
  destruct (owner positions (Z.of_nat e)) as [n|] eqn:Ho.
  - apply owner_Some in Ho as [Hin Hne].
    pose proof (spaced_Forall _ _ _ Hsp) as Hall.
    rewrite Forall_forall in Hall. specialize (Hall n Hin).
    unfold patch_slice_at, patch_stdelem_at, update_at, slice_clamp.
    destruct (Z.eqb_spec (Z.of_nat e) (n + 1)), (Z.eqb_spec (Z.of_nat e) (n + 0)),
      (Z.eqb_spec (Z.of_nat e) (n - 1)), (Z.eqb_spec (Z.of_nat e) (n - 2));
      try lia; cbn [start stop nshapes extract ncols iface_extraction_m2
                    iface_extraction_m1 iface_extraction_p0 iface_extraction_p1 length];
      split_cases; cbn [Z.b2z andb] in *; split; lia.
  - unfold slice_clamp. cbn [start stop nshapes].
    split_cases; cbn [Z.b2z andb] in *; split; lia.
Qed.

(** Claim C1, the code at [Spline(0, rmfirst=True)] on three elements.
    The dof count is 2 and [getslices] gives the elements the slices
    [slice(0,0)], [slice(0,1)] and [slice(1,2)].  [getstdelems] returns the
    one standard element of degree 0, which stands for every element, with
    its only shape function removed.  [build] pairs it with all three
    elements: element 1 has the dof 0 in [nmap], a slice selecting one dof,
    and a standard element without any shape function in [fmap]. *)
Theorem Spline0_removal_mismatch :
  let b := Spline 0 true false in
  let x := drop_first_shape (PolyLine 0 3 0) in
  getdofshape b [3] = Ok [2] /\
  getslices b [3] = Ok [[Slice 0 0; Slice 0 1; Slice 1 2]] /\
  getstdelems b [3] = Ok (array1 [x]) /\
  nshapes x = 0%nat /\
  slice_len 2 (Slice 0 1) = 1%nat /\
  exists f,
    build b (StructuredTopology [3%nat]) = Ok f /\
    function.fmap f !! [1%nat] = Some [(x, None)] /\
    function.nmap f !! [1%nat] = Some [0].
Proof.
  intros b x. subst b x.
  split; [reflexivity|]. split; [reflexivity|]. split; [reflexivity|].
  split; [reflexivity|]. split; [reflexivity|].
  eexists. split; [reflexivity|]. split; vm_compute; reflexivity.
Qed.

(** Property X17.  For a one-dimensional builder (a [Spline] of degree at
    least 1, or a [ModSpline2] with a valid interface set, with any removal
    flags) and [nelems >= 1], with the sums on the index of [getslices] in
    the 64-bit range: [getslices] and [getstdelems] return one entry per
    element, and for every element the number of dofs its slice selects on
    the dof axis equals the number of shape functions of its standard
    element.  The one exception returns nothing to compare: for a
    [ModSpline2] without any interface both queries raise [IndexError]. *)
Theorem slice_width_eq_nshapes (b : BasisBuilder) (nelems : Z) :
  1 <= nelems -> accepted1d nelems b -> index_in_range b nelems ->
  widths_match b nelems \/
  (exists rmfirst rmlast,
     b = ModSpline2 [] rmfirst rmlast /\
     getslices b [nelems] = Raise IndexError /\
     getstdelems b [nelems] = Raise IndexError).
Proof.
  intros Hn [degree rmfirst rmlast Hd | ifaces rmfirst rmlast Hv] _.
  - left. eexists _, _, _. split; [apply Spline_getdofshape_1|].
    split; [reflexivity|]. split; [apply Spline_getstdelems_1; lia|].
    split; [apply length_windows|].
    split; [rewrite length_imap, length_PolyLine_spline by lia; done|].
    intros e He. eexists _, _.
    split; [apply lookup_windows; lia|].
    split; [rewrite list_lookup_imap, lookup_PolyLine_spline by lia; reflexivity|].
    apply Spline_width; lia.
  - destruct ifaces as [|x ifaces].
    { right. exists rmfirst, rmlast. split; [reflexivity|].
      apply ModSpline2_queries_raise. reflexivity. }
    left.
    pose proof (sorted_ifaces_ok (x :: ifaces) nelems ltac:(discriminate) Hv) as Hs.
    destruct (sorted_ifaces_spaced _ _ _ Hs) as [Hsp Hn4].
    eexists _, _, _. split; [apply ModSpline2_getdofshape_1|].
    split; [by apply ModSpline2_getslices_1|].
    split; [by apply ModSpline2_getstdelems_1|].
    split; [by rewrite length_imap, length_windows|].
    split; [rewrite length_imap, length_PolyLine_spline by done; done|].
    intros e He. eexists _, _.
    split; [rewrite list_lookup_imap, lookup_windows by lia; reflexivity|].
    split; [rewrite list_lookup_imap, lookup_PolyLine_spline by lia; reflexivity|].
    pose proof (ModSpline2_width _ nelems rmfirst rmlast e Hsp Hn4 ltac:(lia)) as [H1 H2].
    split; [exact H1 | intros _; exact H2].
Qed.

Lemma valid_interfaces_2_m3 : valid_interfaces [2; -3] 9.
Proof. apply ifaces_check_valid. reflexivity. Qed.

Lemma slice_width_eq_nshapes_witness :
  widths_match (ModSpline2 [2; -3] true true) 9 \/
  (exists rmfirst rmlast,
     ModSpline2 [2; -3] true true = ModSpline2 [] rmfirst rmlast /\
     getslices (ModSpline2 [2; -3] true true) [9] = Raise IndexError /\
     getstdelems (ModSpline2 [2; -3] true true) [9] = Raise IndexError).
Proof.
  apply (slice_width_eq_nshapes (ModSpline2 [2; -3] true true) 9).
  - lia.
  - apply accepted_ModSpline2. apply ifaces_check_valid. reflexivity.
  - unfold index_in_range, int64_max. lia.
Defined.

(** ** The slices around an interface *)

Lemma owner_member (positions : list Z) (n e : Z) : forall lo hi,
  spaced lo hi positions -> elem_of n positions -> n - 2 <= e <= n + 1 ->
  owner positions e = Some n.
Proof.
  induction positions as [|m rest IH]; intros lo hi Hsp Hin He.
  - by apply elem_of_nil in Hin.
  - destruct Hsp as [Hm Hrest]. simpl. apply elem_of_cons in Hin as [->|Hin].
    + destruct (Z.leb_spec (m - 2) e), (Z.leb_spec e (m + 1)); (done || lia).
    + pose proof (spaced_Forall _ _ _ Hrest) as Hall.
      rewrite Forall_forall in Hall. specialize (Hall n Hin).
      destruct (Z.leb_spec (m - 2) e), (Z.leb_spec e (m + 1)); simpl;
        try lia; by apply (IH (m + 4) hi).
Qed.

(** Claim C2 fails as stated.  With [rmfirst] and an interface at position
    2 the slice of element 0 is [slice(0, 3)], of width 3; and without any
    removal the four slices around the interface are [0:4], [1:4], [2:5]
    and [2:6], which together cover the six dofs 0..5. *)
Lemma widened_as_claimed_counterexample :
  (exists slices,
     getslices (ModSpline2 [2] true false) [6] = Ok [slices] /\
     slices !! 0%nat = Some (Slice 0 3) /\
     ~ widened_as_claimed slices 2) /\
  (exists slices,
     getslices (ModSpline2 [2] false false) [6] = Ok [slices] /\
     slices !! 0%nat = Some (Slice 0 4) /\ slices !! 1%nat = Some (Slice 1 4) /\
     slices !! 2%nat = Some (Slice 2 5) /\ slices !! 3%nat = Some (Slice 2 6) /\
     ~ widened_as_claimed slices 2).
Proof.
  split.
  - eexists. split; [reflexivity|]. split; [reflexivity|].
    intros (s1 & s2 & s3 & s4 & H1 & _ & _ & _ & Hw & _).
    injection H1 as <-. discriminate Hw.
  - eexists. split; [reflexivity|]. repeat (split; [reflexivity|]).
    intros (s1 & s2 & s3 & s4 & H1 & H2 & H3 & H4 & _ & _ & _ & _ & Hspan).
    injection H1 as <-. injection H2 as <-. injection H3 as <-. injection H4 as <-.
    discriminate Hspan.
Qed.

(** Claim C2, amended.  For a non-empty valid interface set and any
    removal flags, [getslices] returns one slice per element; around every
    interface position [n], with [i = n - rmfirst] and [N] the dof count,
    element [n-2] has [slice(max(0,i-2), i+2)], elements [n-1] and [n] keep
    their standard windows [slice(i-1, i+2)] and [slice(i, i+3)] of width
    3, and element [n+1] has [slice(i, min(N,i+4))].  The two outer slices
    have width 4, except that the one of element [n-2] has width 3 when
    [rmfirst] is set and [n = 2], and the one of element [n+1] has width 3
    when [rmlast] is set and [n = nelems - 2].  The slices of elements
    [n-2] and [n-1] together cover the first, those of elements [n] and
    [n+1] the second outer slice, and the two spans share the dofs [i] and
    [i+1].  Every element that is not the element [n-2] or [n+1] of an
    interface has the standard window. *)
Theorem ModSpline2_interface_slices (ifaces : list Z) (rmfirst rmlast : bool) (nelems : Z) :
  ifaces <> [] -> valid_interfaces ifaces nelems ->
  let N := nelems + 2 - Z.b2z rmfirst - Z.b2z rmlast in
  let positions := np_sort (map (normalize_iface nelems) ifaces) in
  exists slices,
    getslices (ModSpline2 ifaces rmfirst rmlast) [nelems] = Ok [slices] /\
    length slices = Z.to_nat nelems /\
    (forall n, elem_of n positions ->
       let i := n - Z.b2z rmfirst in
       let s1 := Slice (Z.max 0 (i - 2)) (i + 2) in
       let s4 := Slice i (Z.min N (i + 4)) in
       2 <= n <= nelems - 2 /\
       slices !! Z.to_nat (n - 2) = Some s1 /\
       slices !! Z.to_nat (n - 1) = Some (Slice (i - 1) (i + 2)) /\
       slices !! Z.to_nat n = Some (Slice i (i + 3)) /\
       slices !! Z.to_nat (n + 1) = Some s4 /\
       width s1 = (if rmfirst && (n =? 2) then 3 else 4) /\
       width s4 = (if rmlast && (n =? nelems - 2) then 3 else 4) /\
       start s1 <= i - 1 /\ i + 3 <= stop s4 /\
       start s4 = i /\ stop s1 = i + 2) /\
    (forall e, 0 <= e < nelems ->
       (forall n, elem_of n positions -> e <> n - 2 /\ e <> n + 1) ->
       slices !! Z.to_nat e
       = Some (Slice (Z.max 0 (e - Z.b2z rmfirst)) (Z.min N (e - Z.b2z rmfirst + 3)))).
Proof.
  intros Hne Hv N positions.
  pose proof (sorted_ifaces_ok _ _ Hne Hv) as Hs. fold positions in Hs.
  destruct (sorted_ifaces_spaced _ _ _ Hs) as [Hsp Hn4].
  pose proof (spaced_Forall _ _ _ Hsp) as Hall. rewrite Forall_forall in Hall.
  eexists. split; [by apply ModSpline2_getslices_1|]. fold N.
  split; [by rewrite length_imap, length_windows|]. split.
  - intros n Hin i s1 s4. specialize (Hall n Hin).
    assert (Hlook : forall e, n - 2 <= e <= n + 1 ->
              imap (fun e d => owned_slice N rmfirst positions (Z.of_nat e) d)
                   (windows N 3 nelems rmfirst) !! Z.to_nat e
              = Some (patch_slice_at N rmfirst n e
                        (Slice (Z.max 0 (e - Z.b2z rmfirst))
                               (Z.min N (e - Z.b2z rmfirst + 3))))).
    { intros e He. rewrite list_lookup_imap, lookup_windows by lia. simpl.
      unfold owned_slice. rewrite !Z2Nat.id by lia.
      by rewrite (owner_member positions n e 2 (nelems - 2)). }
    split; [lia|].
    rewrite !Hlook by lia. subst s1 s4 i N.
    unfold patch_slice_at, update_at, width. cbn [start stop].
    destruct (Z.eqb_spec n 2), (Z.eqb_spec n (nelems - 2));
      destruct rmfirst, rmlast; cbn [Z.b2z andb];
      repeat match goal with
             | |- context [Z.eqb ?x ?y] => destruct (Z.eqb_spec x y); try lia
             end;
      repeat split; try (do 2 f_equal; lia); lia.
  - intros e He Hfree. rewrite list_lookup_imap, lookup_windows by lia. simpl.
    rewrite !Z2Nat.id by lia. f_equal. unfold owned_slice.
    destruct (owner positions e) as [n|] eqn:Ho; [|done].
    apply owner_Some in Ho as [Hin Hne']. destruct (Hfree n Hin).
    unfold patch_slice_at, update_at.
    destruct (Z.eqb_spec e (n + 1)), (Z.eqb_spec e (n - 2)); (done || lia).
Qed.

Lemma ModSpline2_interface_slices_witness :
  exists slices,
    getslices (ModSpline2 [2; -3] false true) [9] = Ok [slices] /\
    slices !! 7%nat = Some (Slice 6 10).
Proof.
  destruct (ModSpline2_interface_slices [2; -3] false true 9
              ltac:(discriminate) valid_interfaces_2_m3)
    as (slices & Hs & _ & Hpos & _).
  exists slices. split; [exact Hs|].
  destruct (Hpos 6) as (_ & _ & _ & _ & H4 & _).
  - apply list_elem_of_In. vm_compute. tauto.
  - exact H4.
Defined.

(** ** Shapes of the query results *)

Lemma length_flat_map_const {A B : Type} (f : A -> list B) (l : list A) (k : nat) :
  (forall x, length (f x) = k) -> length (flat_map f l) = (length l * k)%nat.
Proof.
  intros H. induction l as [|x l IH]; [reflexivity|].
  simpl. rewrite length_app, H, IH. lia.
Qed.

Lemma length_ix_product {A : Type} (axes : list (list A)) :
  length (ix_product axes) = foldr Nat.mul 1%nat (map length axes).
Proof.
  induction axes as [|axis axes IH]; [reflexivity|]. simpl.
  rewrite (length_flat_map_const _ _ (length (ix_product axes)))
    by (intros; apply length_map).
  by rewrite IH.
Qed.

Lemma unpack1_ok (shape : list Z) (nelems : Z) :
  unpack1 shape = Ok nelems -> shape = [nelems].
Proof. destruct shape as [|n [|m shape]]; simpl; congruence. Qed.

Lemma py_setitem_length {A : Type} (l l' : list A) (k : Z) (v : A) :
  py_setitem l k v = Ok l' -> length l' = length l.
Proof.
  unfold py_setitem. intros H. apply rbind_ok in H as (i & _ & [= <-]).
  apply length_insert.
Qed.

Lemma for_each_length {A : Type} (step : list A -> Z -> result (list A)) :
  (forall l n l', step l n = Ok l' -> length l' = length l) ->
  forall ns l l', for_each step l ns = Ok l' -> length l' = length l.
Proof.
  intros Hstep. induction ns as [|n ns IH]; intros l l'; simpl.
  - by intros [= <-].
  - intros H. apply rbind_ok in H as (l1 & H1 & H2).
    rewrite (IH _ _ H2). by apply (Hstep l n).
Qed.

Lemma patch_slices_length (N : Z) (rmfirst : bool) (l : list slice) (n : Z) (l' : list slice) :
  patch_slices N rmfirst l n = Ok l' -> length l' = length l.
Proof.
  unfold patch_slices. intros H. apply rbind_ok in H as (l1 & H1 & H2).
  apply py_setitem_length in H1, H2. congruence.
Qed.

Lemma extract_at_length (l : list StdElem) (k : Z) (m : list (list Z)) (l' : list StdElem) :
  extract_at l k m = Ok l' -> length l' = length l.
Proof.
  unfold extract_at. intros H. apply rbind_ok in H as (x & _ & H).
  by apply py_setitem_length in H.
Qed.

Lemma patch_stdelems_length (l : list StdElem) (n : Z) (l' : list StdElem) :
  patch_stdelems l n = Ok l' -> length l' = length l.
Proof.
  unfold patch_stdelems. intros H.
  apply rbind_ok in H as (l1 & H1 & H). apply rbind_ok in H as (l2 & H2 & H).
  apply rbind_ok in H as (l3 & H3 & H4).
  apply extract_at_length in H1, H2, H3, H4. congruence.
Qed.

Lemma remove_ends_length (rmfirst rmlast : bool) (l l' : list StdElem) :
  remove_ends rmfirst rmlast l = Ok l' -> length l' = length l.
Proof.
  unfold remove_ends. intros H. apply rbind_ok in H as (l1 & H1 & H2).
  assert (length l1 = length l) as <-.
  { destruct rmfirst; [|by injection H1 as <-].
    unfold remove_first in H1. apply rbind_ok in H1 as (x & _ & H1).
    by apply py_setitem_length in H1. }
  destruct rmlast; [|by injection H2 as <-].
  unfold remove_last in H2. apply rbind_ok in H2 as (x & _ & H2).
  by apply py_setitem_length in H2.
Qed.

Lemma assert_len_inv (shape : list Z) (n : nat) (u : unit) :
  assert_len shape n = Ok u -> length shape = n.
Proof.
  unfold assert_len. destruct (Nat.eqb_spec (length shape) n); [done | discriminate].
Qed.

Lemma getdofshape_length (b : BasisBuilder) : forall shape ds,
  getdofshape b shape = Ok ds -> length shape = ndims b /\ length ds = ndims b.
Proof.
  induction b as [degree rf rl | ifaces rf rl | b1 IH1 b2 IH2]; intros shape ds; simpl.
  - unfold Spline_getdofshape. intros H. apply rbind_ok in H as (n & Hn & [= <-]).
    apply unpack1_ok in Hn as ->. done.
  - unfold ModSpline2_getdofshape. intros H. apply rbind_ok in H as (n & Hn & [= <-]).
    apply unpack1_ok in Hn as ->. done.
  - intros H. apply rbind_ok in H as (u & Hu & H). apply assert_len_inv in Hu.
    apply rbind_ok in H as (d1 & H1 & H). apply rbind_ok in H as (d2 & H2 & [= <-]).
    apply IH1 in H1 as [_ H1]. apply IH2 in H2 as [_ H2].
    split; [done|]. rewrite length_app. lia.
Qed.

Lemma getslices_shape (b : BasisBuilder) : forall shape sl,
  getslices b shape = Ok sl ->
  length shape = ndims b /\ map length sl = map Z.to_nat shape.
Proof.
  induction b as [degree rf rl | ifaces rf rl | b1 IH1 b2 IH2]; intros shape sl; simpl.
  - unfold Spline_getslices. intros H. apply rbind_ok in H as (n & Hn & H).
    apply unpack1_ok in Hn as ->. simpl in H. injection H as <-.
    simpl. by rewrite length_windows.
  - unfold ModSpline2_getslices. intros H. apply rbind_ok in H as (n & Hn & H).
    apply unpack1_ok in Hn as ->. simpl in H.
    apply rbind_ok in H as (positions & _ & H).
    apply rbind_ok in H as (l & Hl & [= <-]).
    apply (for_each_length _ (patch_slices_length _ _)) in Hl.
    simpl. by rewrite Hl, length_windows.
  - intros H. apply rbind_ok in H as (u & Hu & H). apply assert_len_inv in Hu.
    apply rbind_ok in H as (s1 & H1 & H). apply rbind_ok in H as (s2 & H2 & [= <-]).
    apply IH1 in H1 as [_ H1]. apply IH2 in H2 as [_ H2].
    split; [done|]. rewrite map_app, H1, H2, <- map_app. by rewrite take_drop.
Qed.

(** Every axis of the array of standard elements has the element count of
    the axis or, for a [Spline] of degree 0, length 1. *)
Lemma getstdelems_shape (b : BasisBuilder) : forall shape arr,
  getstdelems b shape = Ok arr ->
  length shape = ndims b /\
  Forall2 (fun a n => a = Z.to_nat n \/ a = 1%nat) (nd_shape arr) shape.
Proof.
  induction b as [degree rf rl | ifaces rf rl | b1 IH1 b2 IH2]; intros shape arr; simpl.
  - unfold Spline_getstdelems. intros H. apply rbind_ok in H as (n & Hn & H).
    apply unpack1_ok in Hn as ->. apply rbind_ok in H as (l & Hl & [= <-]).
    apply remove_ends_length in Hl. simpl. split; [done|].
    constructor; [|constructor]. rewrite Hl.
    destruct (Z.eq_dec degree 0) as [->|Hd]; [by right|].
    left. by apply length_PolyLine_spline.
  - unfold ModSpline2_getstdelems. intros H. apply rbind_ok in H as (n & Hn & H).
    apply unpack1_ok in Hn as ->.
    apply rbind_ok in H as (positions & _ & H).
    apply rbind_ok in H as (l1 & Hl1 & H). apply rbind_ok in H as (l & Hl & [= <-]).
    apply (for_each_length _ patch_stdelems_length) in Hl1.
    apply remove_ends_length in Hl. simpl. split; [done|].
    constructor; [|constructor]. left.
    by rewrite Hl, Hl1, length_PolyLine_spline.
  - intros H. apply rbind_ok in H as (u & Hu & H). apply assert_len_inv in Hu.
    apply rbind_ok in H as (e1 & H1 & H). apply rbind_ok in H as (e2 & H2 & [= <-]).
    apply IH1 in H1 as [_ H1]. apply IH2 in H2 as [_ H2].
    split; [done|]. simpl. rewrite <- (take_drop (ndims b1) shape).
    by apply Forall2_app.
Qed.

(** With degrees of at least 1 the array has the shape of the grid. *)
Lemma getstdelems_shape_pos (b : BasisBuilder) : forall shape arr,
  pos_degrees b -> getstdelems b shape = Ok arr -> nd_shape arr = map Z.to_nat shape.
Proof.
  induction b as [degree rf rl | ifaces rf rl | b1 IH1 b2 IH2];
    intros shape arr Hpos; simpl.
  - unfold Spline_getstdelems. intros H. apply rbind_ok in H as (n & Hn & H).
    apply unpack1_ok in Hn as ->. apply rbind_ok in H as (l & Hl & [= <-]).
    apply remove_ends_length in Hl. simpl in *.
    rewrite Hl, length_PolyLine_spline by lia. done.
  - unfold ModSpline2_getstdelems. intros H. apply rbind_ok in H as (n & Hn & H).
    apply unpack1_ok in Hn as ->.
    apply rbind_ok in H as (positions & _ & H).
    apply rbind_ok in H as (l1 & Hl1 & H). apply rbind_ok in H as (l & Hl & [= <-]).
    apply (for_each_length _ patch_stdelems_length) in Hl1.
    apply remove_ends_length in Hl. simpl.
    by rewrite Hl, Hl1, length_PolyLine_spline.
  - destruct Hpos as [Hp1 Hp2].
    intros H. apply rbind_ok in H as (u & Hu & H).
    apply rbind_ok in H as (e1 & H1 & H). apply rbind_ok in H as (e2 & H2 & [= <-]).
    apply (IH1 _ _ Hp1) in H1. apply (IH2 _ _ Hp2) in H2.
    simpl. rewrite H1, H2, <- map_app. by rewrite take_drop.
Qed.

Lemma getstdelems_size (b : BasisBuilder) : forall shape arr,
  getstdelems b shape = Ok arr ->
  length (nd_data arr) = foldr Nat.mul 1%nat (nd_shape arr).
Proof.
  induction b as [degree rf rl | ifaces rf rl | b1 IH1 b2 IH2]; intros shape arr; simpl.
  - unfold Spline_getstdelems. intros H. apply rbind_ok in H as (n & _ & H).
    apply rbind_ok in H as (l & _ & [= <-]). simpl. lia.
  - unfold ModSpline2_getstdelems. intros H. apply rbind_ok in H as (n & _ & H).
    apply rbind_ok in H as (positions & _ & H).
    apply rbind_ok in H as (l1 & _ & H). apply rbind_ok in H as (l & _ & [= <-]).
    simpl. lia.
  - intros H. apply rbind_ok in H as (u & _ & H).
    apply rbind_ok in H as (e1 & H1 & H). apply rbind_ok in H as (e2 & H2 & [= <-]).
    apply IH1 in H1. apply IH2 in H2. simpl.
    rewrite (length_flat_map_const _ _ (length (nd_data e2))) by (intros; apply length_map).
    rewrite H1, H2. clear. induction (nd_shape e1) as [|n l IH]; simpl; [lia|].
    rewrite <- IH. lia.
Qed.

(** ** The dof tensor and the blocks selected from it *)

Lemma map_result_ok {A B : Type} (f : A -> result B) (g : A -> B) (l : list A) :
  (forall x, In x l -> f x = Ok (g x)) -> map_result f l = Ok (map g l).
Proof.
  induction l as [|x l IH]; intros H; [reflexivity|]. simpl.
  rewrite (H x) by (by left). simpl. rewrite IH by (intros y Hy; apply H; by right).
  reflexivity.
Qed.

Lemma np_product_nonneg (l : list Z) : Forall (fun n => 0 <= n) l -> 0 <= np_product l.
Proof. induction 1; simpl; [lia | nia]. Qed.

Lemma np_product_of_nat (dims : list nat) : 0 <= np_product (map Z.of_nat dims).
Proof. apply np_product_nonneg. apply Forall_forall. intros x Hx.
  apply list_elem_of_In, in_map_iff in Hx as (n & <- & _). lia. Qed.

Lemma block_offsets_bound (dims : list nat) : forall s base o,
  0 <= base -> In o (block_offsets dims s base) ->
  base * np_product (map Z.of_nat dims) <= o
  < (base + 1) * np_product (map Z.of_nat dims).
Proof.
  induction dims as [|len dims IH]; intros s base o Hbase Ho.
  - simpl in *. destruct Ho as [<-|[]]. lia.
  - simpl in Ho. apply in_flat_map in Ho as (j & Hj & Ho).
    assert (Hjb : 0 <= j < Z.of_nat len).
    { destruct s as [|sl s].
      - apply list_elem_of_In, elem_of_seqZ in Hj. lia.
      - by apply list_elem_of_In, slice_range_bounds in Hj. }
    apply IH in Ho; [|nia].
    pose proof (np_product_of_nat dims) as HP. simpl. nia.
Qed.

Lemma lookup_arange (n o : Z) : 0 <= o < n -> arange n !! Z.to_nat o = Some o.
Proof.
  intros Ho. unfold arange. rewrite lookup_seqZ_lt by lia. f_equal. lia.
Qed.

Lemma getitem_ravel_arange (dofs : ndarray Z) (s : list slice) (n : Z) :
  nd_data dofs = arange n ->
  np_product (map Z.of_nat (nd_shape dofs)) = Z.of_nat (length (arange n)) ->
  (length s <= length (nd_shape dofs))%nat ->
  getitem_ravel dofs s = Ok (block_offsets (nd_shape dofs) s 0).
Proof.
  intros Hdata Hsize Hlen. unfold getitem_ravel.
  destruct (Nat.ltb_spec (length (nd_shape dofs)) (length s)); [lia|].
  rewrite (map_result_ok _ (fun o => o)); [by rewrite map_id|].
  intros o Ho. apply block_offsets_bound in Ho; [|lia].
  rewrite Hdata, lookup_arange; [done|].
  rewrite length_arange in Hsize. lia.
Qed.

Lemma ix_product_length {A : Type} (axes : list (list A)) : forall x,
  In x (ix_product axes) -> length x = length axes.
Proof.
  induction axes as [|axis axes IH]; intros x Hx; simpl in *.
  - by destruct Hx as [<-|[]].
  - apply in_flat_map in Hx as (y & _ & Hx). apply in_map_iff in Hx as (z & <- & Hz).
    simpl. f_equal. by apply IH.
Qed.

(** The shape produced by a successful reshape of [arange(product(shape))]. *)
Lemma np_product_subst (q : Z) (ds : list Z) :
  np_product (map (fun n => if n =? -1 then q else n) ds)
  = q ^ Z.of_nat (count_unknown ds) * np_product (filter (fun n => n <> -1) ds).
Proof.
  unfold count_unknown. induction ds as [|d ds IH]; [reflexivity|].
  cbn [map np_product foldr]. fold (np_product (map (fun n => if n =? -1 then q else n) ds)).
  rewrite IH, !filter_cons.
  destruct (Z.eqb_spec d (-1)) as [->|Hd].
  - rewrite decide_True by done. rewrite decide_False by (intros Hx; by apply Hx).
    cbn [length]. rewrite Nat2Z.inj_succ, Z.pow_succ_r by lia. lia.
  - rewrite decide_False by done. rewrite decide_True by done.
    cbn [np_product foldr]. fold (np_product (filter (fun n => n <> -1) ds)). lia.
Qed.

Lemma np_product_to_nat (ds : list Z) :
  Forall (fun n => 0 <= n) ds -> map Z.of_nat (map Z.to_nat ds) = ds.
Proof.
  induction 1 as [|d ds Hd _ IH]; [reflexivity|]. simpl. rewrite IH. f_equal. lia.
Qed.

Lemma count_unknown_0 (ds : list Z) :
  count_unknown ds = 0%nat -> Forall (fun n => n <> -1) ds.
Proof.
  unfold count_unknown. induction ds as [|d ds IH]; [constructor|].
  rewrite filter_cons. destruct (decide (d = -1)); [discriminate|].
  intros H. constructor; auto.
Qed.

Lemma existsb_lt_false (ds : list Z) :
  existsb (fun n => n <? -1) ds = false -> Forall (fun n => -1 <= n) ds.
Proof.
  induction ds as [|d ds IH]; [constructor|]. simpl.
  destruct (Z.ltb_spec d (-1)); [discriminate|]. simpl. intros Hds. constructor; auto.
Qed.

Lemma filter_known_nonneg (ds : list Z) :
  Forall (fun n => -1 <= n) ds -> Forall (fun n => 0 <= n) (filter (fun n => n <> -1) ds).
Proof.
  induction 1 as [|d ds Hd _ IH]; [constructor|]. rewrite filter_cons.
  destruct (decide (d <> -1)); [constructor; [lia | done] | done].
Qed.

Lemma np_reshape_inv (a : list Z) (ds : list Z) (dofs : ndarray Z) :
  np_reshape a ds = Ok dofs ->
  nd_data dofs = a /\ length (nd_shape dofs) = length ds /\
  np_product (map Z.of_nat (nd_shape dofs)) = Z.of_nat (length a).
Proof.
  unfold np_reshape. destruct (existsb _ ds) eqn:Hneg; [discriminate|].
  apply existsb_lt_false in Hneg.
  destruct (count_unknown ds) as [|[|k]] eqn:Hcount; [| |discriminate].
  - destruct (Z.eqb_spec (np_product ds) (Z.of_nat (length a))) as [Heq|]; [|discriminate].
    intros [= <-]. simpl. split; [done|]. split; [by rewrite length_map|].
    rewrite np_product_to_nat; [done|].
    apply count_unknown_0 in Hcount.
    rewrite Forall_forall in *. intros x Hx. specialize (Hneg x Hx). specialize (Hcount x Hx). lia.
  - set (known := np_product (filter (fun n => n <> -1) ds)).
    destruct (Z.eqb_spec known 0) as [|Hk]; [discriminate|]. simpl.
    destruct (Z.eqb_spec (Z.of_nat (length a) mod known) 0) as [Hmod|]; [|discriminate].
    simpl. intros [= <-]. simpl. split; [done|]. split; [by rewrite length_map|].
    assert (Hkpos : 0 < known).
    { pose proof (np_product_nonneg _ (filter_known_nonneg _ Hneg)) as Hnn.
      fold known in Hnn. lia. }
    set (q := Z.of_nat (length a) / known).
    assert (Hq : 0 <= q) by (apply Z.div_pos; lia).
    assert (Hmap : map Z.of_nat (map (fun n => Z.to_nat (if n =? -1 then q else n)) ds)
                   = map (fun n => if n =? -1 then q else n) ds).
    { rewrite map_map. apply map_ext_in. intros x Hx.
      rewrite Forall_forall in Hneg. apply list_elem_of_In in Hx. specialize (Hneg x Hx).
      destruct (Z.eqb_spec x (-1)); lia. }
    rewrite Hmap, np_product_subst, Hcount. fold known.
    change (Z.of_nat 1) with 1. rewrite Z.pow_1_r. subst q.
    rewrite Z.mul_comm. symmetry. apply Z.div_exact; lia.
Qed.

(** ** When [build] returns *)

Lemma map_to_nat_of_nat (l : list nat) : map Z.to_nat (map Z.of_nat l) = l.
Proof. induction l as [|x l IH]; [reflexivity|]. simpl. rewrite IH. f_equal. lia. Qed.

(** *** Broadcasting *)

Lemma flat_map_ext_In {A B : Type} (f g : A -> list B) (l : list A) :
  (forall x, In x l -> f x = g x) -> flat_map f l = flat_map g l.
Proof.
  induction l as [|x l IH]; intros H; [reflexivity|]. simpl.
  rewrite (H x) by (by left). rewrite IH by (intros y Hy; apply H; by right).
  reflexivity.
Qed.

Lemma length_flat_map_In {A B : Type} (f : A -> list B) (l : list A) (k : nat) :
  (forall x, In x l -> length (f x) = k) -> length (flat_map f l) = (length l * k)%nat.
Proof.
  induction l as [|x l IH]; intros H; [reflexivity|]. simpl.
  rewrite length_app, (H x) by (by left).
  rewrite IH by (intros y Hy; apply H; by right). lia.
Qed.

(** An array of [d] rows of [size] entries is the concatenation of its
    rows. *)
Lemma rows_concat {A : Type} (size : nat) : forall (d : nat) (data : list A),
  length data = (d * size)%nat ->
  flat_map (fun j => take size (drop (j * size) data)) (seq 0 d) = data.
Proof.
  induction d as [|d IH]; intros data Hlen.
  - simpl. symmetry. by apply nil_length_inv.
  - cbn [seq flat_map]. rewrite <- seq_shift.
    assert (Hshift : forall l : list nat,
              flat_map (fun j => take size (drop (j * size) data)) (map S l)
              = flat_map (fun j => take size (drop (j * size) (drop size data))) l).
    { induction l as [|j l IHl]; [reflexivity|]. simpl. rewrite IHl.
      by rewrite drop_drop. }
    rewrite Hshift, IH by (rewrite length_drop; lia).
    simpl. rewrite drop_0. apply take_drop.
Qed.

Lemma length_row {A : Type} (size d j : nat) (data : list A) :
  length data = (d * size)%nat -> (j < d)%nat ->
  length (take size (drop (j * size) data)) = size.
Proof. intros Hlen Hj. rewrite length_take, length_drop. nia. Qed.

(** Broadcasting an array to its own shape leaves it as it is. *)
Lemma broadcast_to_same {A : Type} (shape : list nat) : forall data : list A,
  length data = foldr Nat.mul 1%nat shape -> broadcast_to shape shape data = data.
Proof.
  induction shape as [|d shape IH]; intros data Hlen; [reflexivity|].
  cbn [broadcast_to]. simpl in Hlen.
  transitivity (flat_map (fun j => take (foldr Nat.mul 1%nat shape)
                                      (drop (j * foldr Nat.mul 1%nat shape) data))
                         (seq 0 d)); [|by apply rows_concat].
  apply flat_map_ext_In. intros j Hj. apply in_seq in Hj.
  assert (Hrow : ((if (d =? 1)%nat then 0 else j) * foldr Nat.mul 1 shape
                  = j * foldr Nat.mul 1 shape)%nat).
  { destruct (Nat.eqb_spec d 1); [|done]. f_equal. lia. }
  rewrite Hrow. apply IH. apply (length_row _ d); [done | lia].
Qed.

(** Broadcasting fills the shape it is given. *)
Lemma length_broadcast_to {A : Type} (sa : list nat) : forall shape (data : list A),
  Forall2 (fun a n => a = n \/ a = 1%nat) sa shape ->
  length data = foldr Nat.mul 1%nat sa ->
  length (broadcast_to sa shape data) = foldr Nat.mul 1%nat shape.
Proof.
  induction sa as [|da sa IH]; intros shape data Hc Hlen.
  - inversion Hc; subst. exact Hlen.
  - inversion Hc as [|? d ? shape' Hd Hrest]; subst. cbn [broadcast_to foldr].
    rewrite (length_flat_map_In _ _ (foldr Nat.mul 1%nat shape')), length_seq; [done|].
    intros j Hj. apply in_seq in Hj. apply IH; [done|].
    simpl in Hlen. destruct (Nat.eqb_spec da 1) as [->|Hne].
    + apply (length_row _ 1); [done | lia].
    + destruct Hd as [->|Hd1]; [|done]. apply (length_row _ d); [done | lia].
Qed.

Lemma broadcast_shape_onto (sb : list nat) : forall sa,
  Forall2 (fun b a => b = a \/ b = 1%nat) sb sa -> broadcast_shape sa sb = Ok sa.
Proof.
  induction sb as [|b sb IH]; intros sa Hc; inversion Hc as [|? a ? sa' Hb Hrest]; subst.
  - reflexivity.
  - simpl. rewrite (IH _ Hrest). simpl.
    destruct (Nat.eqb_spec a b); [done|].
    destruct Hb as [-> | ->]; [done|].
    destruct (Nat.eqb_spec a 1); [lia|]. reflexivity.
Qed.

(** An array [b] each of whose axes has the length of the same axis of [a]
    or length 1 is broadcast to the shape of [a]. *)
Lemma np_broadcast_onto {A B : Type} (a : ndarray A) (b : ndarray B) :
  length (nd_data a) = foldr Nat.mul 1%nat (nd_shape a) ->
  Forall2 (fun x n => x = n \/ x = 1%nat) (nd_shape b) (nd_shape a) ->
  np_broadcast a b
  = Ok (zip (nd_data a) (broadcast_to (nd_shape b) (nd_shape a) (nd_data b))).
Proof.
  intros Hlen Hc. unfold np_broadcast, pad_shape.
  rewrite (Forall2_length _ _ _ Hc), Nat.max_id, Nat.sub_diag. simpl.
  rewrite (broadcast_shape_onto _ _ Hc). simpl.
  by rewrite broadcast_to_same.
Qed.

Lemma np_broadcast_same {A B : Type} (a : ndarray A) (b : ndarray B) :
  nd_shape a = nd_shape b ->
  length (nd_data a) = foldr Nat.mul 1%nat (nd_shape a) ->
  length (nd_data b) = foldr Nat.mul 1%nat (nd_shape b) ->
  np_broadcast a b = Ok (zip (nd_data a) (nd_data b)).
Proof.
  intros Hs Ha Hb. rewrite np_broadcast_onto; [|done|].
  - rewrite <- Hs in *. by rewrite broadcast_to_same.
  - rewrite Hs. clear. induction (nd_shape b); constructor; auto.
Qed.

Lemma length_structure (structure_shape : list nat) :
  length (nd_data (structure structure_shape)) = foldr Nat.mul 1%nat structure_shape.
Proof.
  simpl. rewrite length_ix_product. f_equal.
  rewrite map_map. induction structure_shape as [|n l IH]; [reflexivity|].
  simpl. by rewrite length_seq, IH.
Qed.

Lemma stdelems_broadcastable (b : BasisBuilder) (structure_shape : list nat)
  (arr : ndarray StdElem) :
  getstdelems b (map Z.of_nat structure_shape) = Ok arr ->
  Forall2 (fun x n => x = n \/ x = 1%nat) (nd_shape arr) structure_shape.
Proof.
  intros Harr. apply getstdelems_shape in Harr as [_ Harr].
  to_fmap. apply Forall2_fmap_r in Harr.
  eapply Forall2_impl; [exact Harr|]. simpl. intros x n. by rewrite Nat2Z.id.
Qed.

Lemma build_structured (b : BasisBuilder) (structure_shape : list nat)
  (ds : list Z) (sl : list (list slice)) (arr : ndarray StdElem) (dofs : ndarray Z) :
  length structure_shape = ndims b ->
  getdofshape b (map Z.of_nat structure_shape) = Ok ds ->
  getslices b (map Z.of_nat structure_shape) = Ok sl ->
  getstdelems b (map Z.of_nat structure_shape) = Ok arr ->
  np_reshape (arange (np_product ds)) ds = Ok dofs ->
  build b (StructuredTopology structure_shape)
  = Ok (assemble structure_shape ds sl arr dofs).
Proof.
  intros Hlen Hds Hsl Harr Hdofs. unfold build.
  destruct (Nat.eqb_spec (length structure_shape) (ndims b)); [|done].
  simpl. rewrite Hds, Hsl, Harr. simpl.
  rewrite Hdofs. simpl.
  destruct (np_reshape_inv _ _ _ Hdofs) as (Hdata & Hdims & Hsize).
  apply getdofshape_length in Hds as [_ Hds].
  apply getslices_shape in Hsl as [_ Hsl].
  apply stdelems_broadcastable in Harr.
  rewrite map_to_nat_of_nat in Hsl.
  unfold frompyfunc_ix.
  rewrite (map_result_ok _ (fun s => block_offsets (nd_shape dofs) s 0)).
  - simpl. rewrite np_broadcast_onto by (done || apply length_structure).
    simpl. rewrite np_broadcast_same; [reflexivity | by simpl | apply length_structure|].
    simpl. by rewrite length_map, length_ix_product.
  - intros s Hs. apply (getitem_ravel_arange dofs s (np_product ds)); [done..|].
    apply ix_product_length in Hs. rewrite Hs, Hdims, Hds.
    apply (f_equal length) in Hsl. rewrite !length_map in Hsl. lia.
Qed.

(** [build] returns exactly when the dimensionality check passes, the
    three queries return and the dof tensor can be formed. *)
Lemma build_ok_inv (b : BasisBuilder) (topo : Topology) (f : function.function) :
  build b topo = Ok f ->
  exists structure_shape ds sl arr dofs,
    topo = StructuredTopology structure_shape /\
    length structure_shape = ndims b /\
    getdofshape b (map Z.of_nat structure_shape) = Ok ds /\
    getslices b (map Z.of_nat structure_shape) = Ok sl /\
    getstdelems b (map Z.of_nat structure_shape) = Ok arr /\
    np_reshape (arange (np_product ds)) ds = Ok dofs /\
    f = assemble structure_shape ds sl arr dofs.
Proof.
  destruct topo as [structure_shape|dims]; [|discriminate]. intros H.
  assert (Hlen : length structure_shape = ndims b).
  { unfold build in H. destruct (Nat.eqb_spec (length structure_shape) (ndims b)); [done|discriminate]. }
  pose proof H as H'. unfold build in H'.
  destruct (Nat.eqb_spec (length structure_shape) (ndims b)); [|done]. simpl in H'.
  apply rbind_ok in H' as (ds & Hds & H'). apply rbind_ok in H' as (sl & Hsl & H').
  apply rbind_ok in H' as (arr & Harr & H'). apply rbind_ok in H' as (dofs & Hdofs & _).
  exists structure_shape, ds, sl, arr, dofs. repeat (split; [done|]).
  rewrite (build_structured b structure_shape ds sl arr dofs) in H by done.
  by injection H as <-.
Qed.

Lemma np_reshape_1d (N : Z) :
  -1 <= N -> exists dofs, np_reshape (arange (np_product [N])) [N] = Ok dofs.
Proof.
  intros HN. unfold np_reshape, count_unknown. cbn [existsb orb np_product foldr].
  destruct (Z.ltb_spec N (-1)); [lia|]. rewrite filter_cons, filter_nil.
  rewrite length_arange. destruct (decide (N = -1)) as [->|Hne].
  - cbn [length]. rewrite filter_cons, filter_nil.
    rewrite decide_False by (intros Hx; by apply Hx). eexists. reflexivity.
  - cbn [length]. rewrite Z.mul_1_r.
    destruct (Z.eqb_spec N (Z.of_nat (Z.to_nat N))); [eexists; reflexivity | lia].
Qed.

Lemma Spline_build_returns (degree : Z) (rmfirst rmlast : bool) (nelems : nat) :
  (1 <= nelems)%nat -> 0 <= degree ->
  exists f, build (Spline degree rmfirst rmlast) (StructuredTopology [nelems]) = Ok f /\
            function.ndofs f = Z.of_nat nelems + degree - Z.b2z rmfirst - Z.b2z rmlast.
Proof.
  intros Hn Hd.
  destruct (np_reshape_1d (Z.of_nat nelems + degree - Z.b2z rmfirst - Z.b2z rmlast))
    as [dofs Hdofs]; [destruct rmfirst, rmlast; simpl; lia|].
  destruct (Spline_getstdelems_returns degree (Z.of_nat nelems) rmfirst rmlast)
    as [arr Harr]; [lia|].
  eexists. split.
  - eapply build_structured;
      [reflexivity | apply Spline_getdofshape_1 | reflexivity
      | exact Harr | exact Hdofs].
  - simpl. lia.
Qed.

Lemma ModSpline2_build_returns (ifaces positions : list Z) (rmfirst rmlast : bool)
  (nelems : nat) :
  sorted_ifaces ifaces (Z.of_nat nelems) = Ok positions ->
  exists f, build (ModSpline2 ifaces rmfirst rmlast) (StructuredTopology [nelems]) = Ok f /\
            function.ndofs f = Z.of_nat nelems + 2 - Z.b2z rmfirst - Z.b2z rmlast.
Proof.
  intros Hs. destruct (sorted_ifaces_spaced _ _ _ Hs) as [_ Hn4].
  destruct (np_reshape_1d (Z.of_nat nelems + 2 - Z.b2z rmfirst - Z.b2z rmlast))
    as [dofs Hdofs]; [destruct rmfirst, rmlast; simpl; lia|].
  eexists. split.
  - eapply build_structured;
      [reflexivity | apply ModSpline2_getdofshape_1
      | by apply ModSpline2_getslices_1 | by apply ModSpline2_getstdelems_1
      | exact Hdofs].
  - simpl. lia.
Qed.

(** ** Dof counts *)

(** Claim C5.  For [nelems >= 1] and [degree >= 0] the dof shape of
    [Spline(degree, rmfirst, rmlast)] is
    [nelems + degree - rmfirst - rmlast], [build] on a one-dimensional
    structured domain of [nelems] elements returns, and its [ndofs] is that
    number; without removal it is [nelems + degree]. *)
Theorem Spline_build_ndofs (degree : Z) (rmfirst rmlast : bool) (nelems : nat) :
  (1 <= nelems)%nat -> 0 <= degree ->
  let N := Z.of_nat nelems + degree - Z.b2z rmfirst - Z.b2z rmlast in
  getdofshape (Spline degree rmfirst rmlast) [Z.of_nat nelems] = Ok [N] /\
  (exists f, build (Spline degree rmfirst rmlast) (StructuredTopology [nelems]) = Ok f /\
             function.ndofs f = N) /\
  (exists f, build (Spline degree false false) (StructuredTopology [nelems]) = Ok f /\
             function.ndofs f = Z.of_nat nelems + degree).
Proof.
  intros Hn Hd N.
  split; [reflexivity|]. split; [by apply Spline_build_returns|].
  destruct (Spline_build_returns degree false false nelems Hn Hd) as (f & Hf & Hnd).
  exists f. split; [done|]. simpl in Hnd. lia.
Qed.

Lemma Spline_build_ndofs_witness :
  exists f, build (Spline 1 false false) (StructuredTopology [4%nat]) = Ok f /\
            function.ndofs f = 5.
Proof.
  destruct (Spline_build_ndofs 1 false false 4 ltac:(lia) ltac:(lia))
    as (_ & _ & f & Hf & Hnd).
  exists f. split; [exact Hf | exact Hnd].
Defined.

(** Claim C3, the code at the interface set with no position, on six
    elements.  The set passes the validity rule and [getdofshape] answers
    with the dof count [6 + 2], but [sorted_ifaces] reads the first entry
    of the empty sorted array inside its assertion and raises
    [IndexError]; so does [build], which yields no dof count. *)
Theorem ModSpline2_no_interface_build :
  valid_interfaces [] 6 /\
  getdofshape (ModSpline2 [] false false) [6] = Ok [8] /\
  sorted_ifaces [] 6 = Raise IndexError /\
  build (ModSpline2 [] false false) (StructuredTopology [6%nat]) = Raise IndexError.
Proof. split; [apply ifaces_check_valid|]; repeat split; reflexivity. Qed.

(** Property X16.  The dof shape of [ModSpline2] is
    [nelems + 2 - rmfirst - rmlast]; for every valid interface set with at
    least one position, [build] on a one-dimensional structured domain of
    [nelems] elements returns, and its [ndofs] is that number, whatever
    the number of interfaces; without removal it is [nelems + 2]. *)
Theorem ModSpline2_build_ndofs (ifaces : list Z) (rmfirst rmlast : bool) (nelems : nat) :
  ifaces <> [] -> valid_interfaces ifaces (Z.of_nat nelems) ->
  let N := Z.of_nat nelems + 2 - Z.b2z rmfirst - Z.b2z rmlast in
  getdofshape (ModSpline2 ifaces rmfirst rmlast) [Z.of_nat nelems] = Ok [N] /\
  (exists f, build (ModSpline2 ifaces rmfirst rmlast) (StructuredTopology [nelems]) = Ok f /\
             function.ndofs f = N) /\
  (exists f, build (ModSpline2 ifaces false false) (StructuredTopology [nelems]) = Ok f /\
             function.ndofs f = Z.of_nat nelems + 2).
Proof.
  intros Hne Hv N.
  pose proof (sorted_ifaces_ok _ _ Hne Hv) as Hs.
  split; [reflexivity|]. split; [by apply (ModSpline2_build_returns _ _ _ _ _ Hs)|].
  destruct (ModSpline2_build_returns _ _ false false _ Hs) as (f & Hf & Hnd).
  exists f. split; [done|]. simpl in Hnd. lia.
Qed.

Lemma ModSpline2_build_ndofs_witness :
  exists f, build (ModSpline2 [2; -3] false true) (StructuredTopology [9%nat]) = Ok f /\
            function.ndofs f = 10.
Proof.
  destruct (ModSpline2_build_ndofs [2; -3] false true 9
              ltac:(discriminate) valid_interfaces_2_m3)
    as (_ & (f & Hf & Hnd) & _).
  exists f. split; [exact Hf | exact Hnd].
Defined.

(** ** Failures of [ModSpline2] *)

Lemma ModSpline2_build_raise (ifaces : list Z) (rmfirst rmlast : bool) (nelems : nat) (e : exn) :
  sorted_ifaces ifaces (Z.of_nat nelems) = Raise e ->
  build (ModSpline2 ifaces rmfirst rmlast) (StructuredTopology [nelems]) = Raise e.
Proof.
  intros H. unfold build. simpl.
  unfold ModSpline2_getslices. simpl. by rewrite H.
Qed.

Lemma ModSpline2_raise_cases (ifaces : list Z) (nelems : Z) :
  (exists positions, sorted_ifaces ifaces nelems = Ok positions /\
                     ifaces <> [] /\ valid_interfaces ifaces nelems) \/
  (sorted_ifaces ifaces nelems = Raise IndexError /\
   ifaces = [] /\ valid_interfaces ifaces nelems) \/
  (sorted_ifaces ifaces nelems = Raise InvalidInterfaceSet /\
   ~ valid_interfaces ifaces nelems).
Proof.
  destruct ifaces as [|x ifaces].
  - right. left. split; [reflexivity|]. split; [reflexivity|].
    apply ifaces_check_valid. reflexivity.
  - destruct (ifaces_check (np_sort (map (normalize_iface nelems) (x :: ifaces))) nelems)
      eqn:Hc.
    + apply ifaces_check_valid in Hc. left. eexists.
      split; [by apply sorted_ifaces_ok|]. split; done.
    + right. right.
      assert (Hnv : ~ valid_interfaces (x :: ifaces) nelems).
      { intros Hv. apply ifaces_check_valid in Hv. congruence. }
      split; [by apply sorted_ifaces_invalid | done].
Qed.

(** Claim C4.  For every interface set, all removal flags and every
    element count, each of the queries that read the interfaces,
    [getslices] and [getstdelems], and with them [build] (on a
    one-dimensional structured domain), raises [InvalidInterfaceSet] if and
    only if the positions, normalized and sorted, violate the rule
    "first at least 2, consecutive ones at least 4 apart, last at most
    [nelems - 2]".  ([getdofshape] does not read the interfaces and
    returns for every interface set.) *)
Theorem ModSpline2_invalid_iff (ifaces : list Z) (rmfirst rmlast : bool) :
  (forall nelems : Z,
     getdofshape (ModSpline2 ifaces rmfirst rmlast) [nelems]
     = Ok [nelems + 2 - Z.b2z rmfirst - Z.b2z rmlast]) /\
  (forall nelems : Z,
     (getslices (ModSpline2 ifaces rmfirst rmlast) [nelems] = Raise InvalidInterfaceSet
      <-> ~ valid_interfaces ifaces nelems) /\
     (getstdelems (ModSpline2 ifaces rmfirst rmlast) [nelems] = Raise InvalidInterfaceSet
      <-> ~ valid_interfaces ifaces nelems)) /\
  (forall nelems : nat,
     build (ModSpline2 ifaces rmfirst rmlast) (StructuredTopology [nelems])
     = Raise InvalidInterfaceSet
     <-> ~ valid_interfaces ifaces (Z.of_nat nelems)).
Proof.
  split; [reflexivity|]. split.
  - intros nelems.
    destruct (ModSpline2_raise_cases ifaces nelems)
      as [(positions & Hs & Hne & Hv) | [(Hs & _ & Hv) | (Hs & Hnv)]].
    + rewrite (ModSpline2_getslices_1 _ _ _ rmfirst rmlast Hs).
      rewrite (ModSpline2_getstdelems_1 _ _ _ rmfirst rmlast Hs).
      split; split; (discriminate || done).
    + destruct (ModSpline2_queries_raise _ rmfirst rmlast _ _ Hs) as [-> ->].
      split; split; (discriminate || done).
    + destruct (ModSpline2_queries_raise _ rmfirst rmlast _ _ Hs) as [-> ->].
      split; split; done.
  - intros nelems.
    destruct (ModSpline2_raise_cases ifaces (Z.of_nat nelems))
      as [(positions & Hs & Hne & Hv) | [(Hs & _ & Hv) | (Hs & Hnv)]].
    + destruct (ModSpline2_build_returns _ _ rmfirst rmlast _ Hs) as (f & -> & _).
      split; (discriminate || done).
    + rewrite (ModSpline2_build_raise _ rmfirst rmlast _ _ Hs).
      split; (discriminate || done).
    + rewrite (ModSpline2_build_raise _ rmfirst rmlast _ _ Hs). split; done.
Qed.

(** Claim C10.  With an empty interface sequence, [getslices] and
    [getstdelems] of [ModSpline2] raise for every argument and [build]
    raises for every topology, never with [InvalidInterfaceSet]: on an
    element-count tuple [(nelems,)], and in [build] on a one-dimensional
    structured domain, the exception is the [IndexError] of reading the
    first entry of the empty sorted list, although the empty set
    satisfies the validity rule. *)
Theorem ModSpline2_empty_ifaces (rmfirst rmlast : bool) :
  (forall nelems : Z,
     valid_interfaces [] nelems /\
     sorted_ifaces [] nelems = Raise IndexError /\
     getslices (ModSpline2 [] rmfirst rmlast) [nelems] = Raise IndexError /\
     getstdelems (ModSpline2 [] rmfirst rmlast) [nelems] = Raise IndexError) /\
  (forall shape : list Z,
     exists e1 e2,
       getslices (ModSpline2 [] rmfirst rmlast) shape = Raise e1 /\
       getstdelems (ModSpline2 [] rmfirst rmlast) shape = Raise e2 /\
       e1 <> InvalidInterfaceSet /\ e2 <> InvalidInterfaceSet) /\
  (forall nelems : nat,
     build (ModSpline2 [] rmfirst rmlast) (StructuredTopology [nelems]) = Raise IndexError) /\
  (forall topo : Topology,
     exists e, build (ModSpline2 [] rmfirst rmlast) topo = Raise e /\
               e <> InvalidInterfaceSet).
Proof.
  assert (Hshape : forall shape : list Z,
            (exists nelems, shape = [nelems]) \/
            (getslices (ModSpline2 [] rmfirst rmlast) shape = Raise ValueError /\
             getstdelems (ModSpline2 [] rmfirst rmlast) shape = Raise ValueError)).
  { intros [|n [|m shape]]; [right; split; reflexivity | left; by exists n
                            | right; split; reflexivity]. }
  split; [|split; [|split]].
  - intros nelems. split; [apply ifaces_check_valid; reflexivity|].
    split; [reflexivity|].
    apply ModSpline2_queries_raise. reflexivity.
  - intros shape. destruct (Hshape shape) as [[nelems ->] | [H1 H2]].
    + exists IndexError, IndexError.
      destruct (ModSpline2_queries_raise [] rmfirst rmlast nelems IndexError eq_refl)
        as [-> ->]. repeat split; discriminate.
    + exists ValueError, ValueError. rewrite H1, H2. repeat split; discriminate.
  - intros nelems. apply ModSpline2_build_raise. reflexivity.
  - intros [[|n [|m shape]] | dims].
    + exists ShapeMismatch. split; [reflexivity | discriminate].
    + exists IndexError. split; [|discriminate].
      apply ModSpline2_build_raise. reflexivity.
    + exists ShapeMismatch. split; [reflexivity | discriminate].
    + exists ShapeMismatch. split; [reflexivity | discriminate].
Qed.

(** ** The contract of [build] *)

Lemma raises_only_Ok {A : Type} (P : exn -> Prop) (a : A) : raises_only P (Ok a).
Proof. intros e H. discriminate. Qed.

Lemma raises_only_Raise {A : Type} (P : exn -> Prop) (e : exn) :
  P e -> raises_only P (@Raise A e).
Proof. intros He e' [= <-]. exact He. Qed.

Lemma raises_only_bind {A B : Type} (P : exn -> Prop) (c : result A) (k : A -> result B) :
  raises_only P c -> (forall a, raises_only P (k a)) -> raises_only P (rbind c k).
Proof.
  intros Hc Hk e. destruct c as [a|e']; simpl.
  - apply Hk.
  - intros [= <-]. by apply Hc.
Qed.

Lemma raises_only_for_each {A B : Type} (P : exn -> Prop) (f : A -> B -> result A) :
  (forall acc x, raises_only P (f acc x)) ->
  forall xs acc, raises_only P (for_each f acc xs).
Proof.
  intros Hf. induction xs as [|x xs IH]; intros acc; simpl.
  - apply raises_only_Ok.
  - apply raises_only_bind; [apply Hf | apply IH].
Qed.

Lemma raises_only_map_result {A B : Type} (P : exn -> Prop) (f : A -> result B) :
  (forall x, raises_only P (f x)) -> forall xs, raises_only P (map_result f xs).
Proof.
  intros Hf. induction xs as [|x xs IH]; simpl.
  - apply raises_only_Ok.
  - apply raises_only_bind; [apply Hf|]. intros y.
    apply raises_only_bind; [apply IH|]. intros ys. apply raises_only_Ok.
Qed.

Lemma py_index_raises {A : Type} (l : list A) (k : Z) :
  raises_only not_mismatch (py_index l k).
Proof.
  unfold py_index.
  destruct (_ && _); [apply raises_only_Ok|].
  destruct (_ && _); [apply raises_only_Ok | by apply raises_only_Raise].
Qed.

Lemma py_getitem_raises {A : Type} (l : list A) (k : Z) :
  raises_only not_mismatch (py_getitem l k).
Proof.
  unfold py_getitem. apply raises_only_bind; [apply py_index_raises|].
  intros i. destruct (l !! i); [apply raises_only_Ok | by apply raises_only_Raise].
Qed.

Lemma py_setitem_raises {A : Type} (l : list A) (k : Z) (v : A) :
  raises_only not_mismatch (py_setitem l k v).
Proof.
  unfold py_setitem. apply raises_only_bind; [apply py_index_raises|].
  intros i. apply raises_only_Ok.
Qed.

Lemma unpack1_raises (shape : list Z) : raises_only not_mismatch (unpack1 shape).
Proof.
  destruct shape as [|n [|m shape]]; simpl;
    (apply raises_only_Ok || by apply raises_only_Raise).
Qed.

Lemma sorted_ifaces_raises (ifaces : list Z) (nelems : Z) :
  raises_only not_mismatch (sorted_ifaces ifaces nelems).
Proof.
  unfold sorted_ifaces. apply raises_only_bind; [apply py_getitem_raises|].
  intros first. destruct (negb _); [by apply raises_only_Raise|].
  destruct (negb _); [by apply raises_only_Raise|].
  apply raises_only_bind; [apply py_getitem_raises|].
  intros last. destruct (negb _); [by apply raises_only_Raise | apply raises_only_Ok].
Qed.

Lemma remove_ends_raises (rmfirst rmlast : bool) (l : list StdElem) :
  raises_only not_mismatch (remove_ends rmfirst rmlast l).
Proof.
  unfold remove_ends, remove_first, remove_last.
  apply raises_only_bind.
  - destruct rmfirst; [|apply raises_only_Ok].
    apply raises_only_bind; [apply py_getitem_raises | intros; apply py_setitem_raises].
  - intros l'. destruct rmlast; [|apply raises_only_Ok].
    apply raises_only_bind; [apply py_getitem_raises | intros; apply py_setitem_raises].
Qed.

Lemma patch_slices_raises (N : Z) (rmfirst : bool) (l : list slice) (n : Z) :
  raises_only not_mismatch (patch_slices N rmfirst l n).
Proof.
  unfold patch_slices.
  apply raises_only_bind; [apply py_setitem_raises | intros; apply py_setitem_raises].
Qed.

Lemma extract_at_raises (l : list StdElem) (k : Z) (m : list (list Z)) :
  raises_only not_mismatch (extract_at l k m).
Proof.
  unfold extract_at.
  apply raises_only_bind; [apply py_getitem_raises | intros; apply py_setitem_raises].
Qed.

Lemma patch_stdelems_raises (l : list StdElem) (n : Z) :
  raises_only not_mismatch (patch_stdelems l n).
Proof.
  unfold patch_stdelems.
  repeat (apply raises_only_bind; [apply extract_at_raises | intros]).
  apply extract_at_raises.
Qed.

Lemma queries_raise_no_mismatch (b : BasisBuilder) : forall shape,
  length shape = ndims b ->
  raises_only not_mismatch (getdofshape b shape) /\
  raises_only not_mismatch (getslices b shape) /\
  raises_only not_mismatch (getstdelems b shape).
Proof.
  induction b as [degree rf rl | ifaces rf rl | b1 IH1 b2 IH2]; intros shape Hlen; simpl.
  - unfold Spline_getdofshape, Spline_getslices, Spline_getstdelems, Spline_getdofshape.
    repeat split.
    + apply raises_only_bind; [apply unpack1_raises | intros; apply raises_only_Ok].
    + apply raises_only_bind; [apply unpack1_raises | intros].
      apply raises_only_bind;
        [apply raises_only_bind; [apply unpack1_raises | intros; apply raises_only_Ok]|].
      intros. apply raises_only_bind; [apply unpack1_raises | intros; apply raises_only_Ok].
    + apply raises_only_bind; [apply unpack1_raises | intros].
      apply raises_only_bind; [apply remove_ends_raises | intros; apply raises_only_Ok].
  - unfold ModSpline2_getdofshape, ModSpline2_getslices, ModSpline2_getstdelems,
      ModSpline2_getdofshape.
    repeat split.
    + apply raises_only_bind; [apply unpack1_raises | intros; apply raises_only_Ok].
    + apply raises_only_bind; [apply unpack1_raises | intros].
      apply raises_only_bind;
        [apply raises_only_bind; [apply unpack1_raises | intros; apply raises_only_Ok]|].
      intros. apply raises_only_bind; [apply unpack1_raises | intros].
      apply raises_only_bind; [apply sorted_ifaces_raises | intros].
      apply raises_only_bind; [|intros; apply raises_only_Ok].
      apply raises_only_for_each. intros. apply patch_slices_raises.
    + apply raises_only_bind; [apply unpack1_raises | intros].
      apply raises_only_bind; [apply sorted_ifaces_raises | intros].
      apply raises_only_bind.
      * apply raises_only_for_each. intros. apply patch_stdelems_raises.
      * intros. apply raises_only_bind; [apply remove_ends_raises | intros; apply raises_only_Ok].
  - rewrite assert_len_ok by (simpl in Hlen; lia). simpl.
    destruct (IH1 (take (ndims b1) shape)) as (H1a & H1b & H1c);
      [rewrite length_take; simpl in Hlen; lia|].
    destruct (IH2 (drop (ndims b1) shape)) as (H2a & H2b & H2c);
      [rewrite length_drop; simpl in Hlen; lia|].
    repeat split;
      (apply raises_only_bind; [done | intros];
       apply raises_only_bind; [done | intros; apply raises_only_Ok]).
Qed.

Lemma np_reshape_raises (a ds : list Z) : raises_only not_mismatch (np_reshape a ds).
Proof.
  unfold np_reshape. destruct (existsb _ _); [by apply raises_only_Raise|].
  destruct (count_unknown ds) as [|[|k]].
  - destruct (_ =? _); [apply raises_only_Ok | by apply raises_only_Raise].
  - destruct (_ || _); [by apply raises_only_Raise | apply raises_only_Ok].
  - by apply raises_only_Raise.
Qed.

Lemma getitem_ravel_raises (dofs : ndarray Z) (s : list slice) :
  raises_only not_mismatch (getitem_ravel dofs s).
Proof.
  unfold getitem_ravel. destruct (_ <? _)%nat; [by apply raises_only_Raise|].
  apply raises_only_map_result. intros o.
  destruct (_ !! _); [apply raises_only_Ok | by apply raises_only_Raise].
Qed.

Lemma np_broadcast_raises {A B : Type} (a : ndarray A) (b : ndarray B) :
  raises_only not_mismatch (np_broadcast a b).
Proof.
  unfold np_broadcast. apply raises_only_bind; [|intros; apply raises_only_Ok].
  generalize (pad_shape (Nat.max (length (nd_shape a)) (length (nd_shape b))) (nd_shape b)).
  induction (pad_shape _ (nd_shape a)) as [|x sa IH]; intros [|y sb];
    try apply raises_only_Ok.
  simpl. apply raises_only_bind; [apply IH | intros rest].
  destruct (x =? y)%nat; [apply raises_only_Ok|].
  destruct (x =? 1)%nat; [apply raises_only_Ok|].
  destruct (y =? 1)%nat; [apply raises_only_Ok | by apply raises_only_Raise].
Qed.

Lemma build_checked_raises (b : BasisBuilder) (structure_shape : list nat) :
  length structure_shape = ndims b ->
  raises_only not_mismatch (build b (StructuredTopology structure_shape)).
Proof.
  intros Hlen. unfold build.
  destruct (Nat.eqb_spec (length structure_shape) (ndims b)); [|done]. simpl.
  destruct (queries_raise_no_mismatch b (map Z.of_nat structure_shape)) as (H1 & H2 & H3);
    [by rewrite length_map|].
  apply raises_only_bind; [done | intros ds].
  apply raises_only_bind; [done | intros sl].
  apply raises_only_bind; [done | intros arr].
  apply raises_only_bind; [apply np_reshape_raises | intros dofs].
  apply raises_only_bind.
  - unfold frompyfunc_ix. apply raises_only_bind; [|intros; apply raises_only_Ok].
    apply raises_only_map_result. intros s. apply getitem_ravel_raises.
  - intros idx. apply raises_only_bind; [apply np_broadcast_raises | intros].
    apply raises_only_bind; [apply np_broadcast_raises | intros]. apply raises_only_Ok.
Qed.

(** Claim C9 fails as stated: a structured domain of matching
    dimensionality does not make [build] return.  With the interface set
    [[1]] on six elements the check of [build] passes and [getslices]
    raises [InvalidInterfaceSet]. *)
Lemma build_contract_counterexample :
  is_structured (StructuredTopology [6%nat]) = true /\
  topo_ndims (StructuredTopology [6%nat]) = ndims (ModSpline2 [1] false false) /\
  build (ModSpline2 [1] false false) (StructuredTopology [6%nat]) = Raise InvalidInterfaceSet /\
  ~ build_contract_as_claimed (ModSpline2 [1] false false) (StructuredTopology [6%nat]).
Proof.
  split; [reflexivity|]. split; [reflexivity|]. split; [reflexivity|].
  intros [_ H]. destruct H as [f Hf]; [split; reflexivity|]. discriminate Hf.
Qed.

(** Claim C9, amended.  [build] raises [ShapeMismatch] whenever the
    topology is not structured or its dimensionality differs from the
    builder's [ndims].  When it is structured and the dimensionalities
    agree, [build] does not raise [ShapeMismatch]; it returns a
    representation exactly when the three queries return and the dof
    tensor can be formed, and that representation is the one assembled from
    them. *)
Theorem build_contract (b : BasisBuilder) (topo : Topology) :
  (is_structured topo = false \/ topo_ndims topo <> ndims b ->
   build b topo = Raise ShapeMismatch) /\
  (is_structured topo = true /\ topo_ndims topo = ndims b ->
   build b topo <> Raise ShapeMismatch /\
   forall f,
     build b topo = Ok f <->
     exists structure_shape ds sl arr dofs,
       topo = StructuredTopology structure_shape /\
       getdofshape b (map Z.of_nat structure_shape) = Ok ds /\
       getslices b (map Z.of_nat structure_shape) = Ok sl /\
       getstdelems b (map Z.of_nat structure_shape) = Ok arr /\
       np_reshape (arange (np_product ds)) ds = Ok dofs /\
       f = assemble structure_shape ds sl arr dofs).
Proof.
  split.
  - destruct topo as [structure_shape | dims]; [|reflexivity].
    intros [H | H]; [discriminate|]. simpl in H. unfold build.
    by destruct (Nat.eqb_spec (length structure_shape) (ndims b)).
  - destruct topo as [structure_shape | dims]; [|intros [H _]; discriminate].
    intros [_ Hlen]. simpl in Hlen. split.
    + intros H. by apply (build_checked_raises b structure_shape Hlen) in H.
    + intros f. split.
      * intros H. apply build_ok_inv in H
          as (structure_shape' & ds & sl & arr & dofs & Ht & _ & H1 & H2 & H3 & H4 & Hf).
        by exists structure_shape', ds, sl, arr, dofs.
      * intros (structure_shape' & ds & sl & arr & dofs & Ht & H1 & H2 & H3 & H4 & ->).
        injection Ht as <-. by apply build_structured.
Qed.

(** ** Coverage of the dof space *)

Lemma elem_of_slice_range_inside (len : nat) (s : slice) (j : Z) :
  0 <= start s -> stop s <= Z.of_nat len -> start s <= j < stop s ->
  elem_of j (slice_range len s).
Proof.
  intros Ha Hb Hj. apply elem_of_slice_range. unfold slice_clamp.
  destruct (Z.ltb_spec (start s) 0), (Z.ltb_spec (stop s) 0); lia.
Qed.

Lemma window_contains (N degree nelems j : Z) (rmfirst rmlast : bool) :
  1 <= nelems -> 0 <= degree ->
  N = nelems + degree - Z.b2z rmfirst - Z.b2z rmlast ->
  0 <= j < N ->
  let e := Z.min (j + Z.b2z rmfirst) (nelems - 1) in
  0 <= e < nelems /\
  Z.max 0 (e - Z.b2z rmfirst) <= j < Z.min N (e - Z.b2z rmfirst + (degree + 1)).
Proof.
  intros Hn Hd -> Hj e. subst e.
  destruct rmfirst, rmlast; cbn [Z.b2z] in *; lia.
Qed.

Lemma windows_covered (degree nelems : Z) (rmfirst rmlast : bool) :
  1 <= nelems -> 0 <= degree ->
  let N := nelems + degree - Z.b2z rmfirst - Z.b2z rmlast in
  axis_covered N (windows N (degree + 1) nelems rmfirst).
Proof.
  intros Hn Hd N j Hj.
  destruct (window_contains N degree nelems j rmfirst rmlast Hn Hd eq_refl Hj) as [He Hin].
  set (e := Z.min (j + Z.b2z rmfirst) (nelems - 1)) in *.
  exists (Z.to_nat e). eexists. split; [apply lookup_windows; lia|].
  rewrite Z2Nat.id by lia.
  apply elem_of_slice_range_inside; cbn [start stop]; lia.
Qed.

Lemma owned_slice_widens (positions : list Z) (nelems e : Z) (rmfirst rmlast : bool) :
  spaced 2 (nelems - 2) positions -> 0 <= e < nelems ->
  let N := nelems + 2 - Z.b2z rmfirst - Z.b2z rmlast in
  let w := Slice (Z.max 0 (e - Z.b2z rmfirst)) (Z.min N (e - Z.b2z rmfirst + 3)) in
  let s := owned_slice N rmfirst positions e w in
  0 <= start s /\ start s <= start w /\ stop w <= stop s /\ stop s <= N.
Proof.
  intros Hsp He N w s. subst s. unfold owned_slice.
  destruct (owner positions e) as [n|] eqn:Ho.
  - apply owner_Some in Ho as [Hin Hne].
    pose proof (spaced_Forall _ _ _ Hsp) as Hall.
    rewrite Forall_forall in Hall. specialize (Hall n Hin).
    unfold patch_slice_at, update_at. subst w N.
    destruct (Z.eqb_spec e (n + 1)), (Z.eqb_spec e (n - 2));
      cbn [start stop]; destruct rmfirst, rmlast; cbn [Z.b2z]; lia.
  - subst w N. cbn [start stop]. destruct rmfirst, rmlast; cbn [Z.b2z]; lia.
Qed.

Lemma ModSpline2_covered (positions : list Z) (nelems : Z) (rmfirst rmlast : bool) :
  spaced 2 (nelems - 2) positions -> 4 <= nelems ->
  let N := nelems + 2 - Z.b2z rmfirst - Z.b2z rmlast in
  axis_covered N (imap (fun e d => owned_slice N rmfirst positions (Z.of_nat e) d)
                       (windows N 3 nelems rmfirst)).
Proof.
  intros Hsp Hn N j Hj.
  destruct (window_contains N 2 nelems j rmfirst rmlast ltac:(lia) ltac:(lia) eq_refl Hj)
    as [He Hin].
  set (e := Z.min (j + Z.b2z rmfirst) (nelems - 1)) in *.
  exists (Z.to_nat e). eexists. split.
  - rewrite list_lookup_imap, lookup_windows by lia. simpl. reflexivity.
  - rewrite Z2Nat.id by lia.
    destruct (owned_slice_widens positions nelems e rmfirst rmlast Hsp He)
      as (H1 & H2 & H3 & H4).
    fold N in H1, H2, H3, H4. cbn [start stop] in H2, H3.
    apply elem_of_slice_range_inside; change (2 + 1) with 3 in Hin; lia.
Qed.

Lemma getslices_covered (b : BasisBuilder) : forall shape ds sl,
  nonneg_degrees b -> Forall (fun n => 1 <= n) shape ->
  getdofshape b shape = Ok ds -> getslices b shape = Ok sl ->
  Forall2 axis_covered ds sl.
Proof.
  induction b as [degree rf rl | ifaces rf rl | b1 IH1 b2 IH2];
    intros shape ds sl Hwf Hshape Hds Hsl.
  - pose proof (getdofshape_length _ _ _ Hds) as [Hlen _].
    destruct shape as [|nelems [|? ?]]; try discriminate.
    inversion Hshape as [|? ? Hn _]; subst.
    simpl in Hds, Hsl. injection Hds as <-. injection Hsl as <-.
    constructor; [|constructor]. by apply windows_covered.
  - pose proof (getdofshape_length _ _ _ Hds) as [Hlen _].
    destruct shape as [|nelems [|? ?]]; try discriminate.
    simpl in Hds. injection Hds as <-.
    destruct (sorted_ifaces ifaces nelems) as [positions|e] eqn:Hs.
    + rewrite (ModSpline2_getslices_1 _ _ _ rf rl Hs) in Hsl. injection Hsl as <-.
      destruct (sorted_ifaces_spaced _ _ _ Hs) as [Hsp Hn4].
      constructor; [|constructor]. by apply ModSpline2_covered.
    + destruct (ModSpline2_queries_raise _ rf rl _ _ Hs) as [Hr _]. congruence.
  - destruct Hwf as [Hwf1 Hwf2]. simpl in Hds, Hsl.
    apply rbind_ok in Hds as (u & Hu & Hds). apply rbind_ok in Hds as (d1 & Hd1 & Hds).
    apply rbind_ok in Hds as (d2 & Hd2 & [= <-]).
    apply rbind_ok in Hsl as (u' & _ & Hsl). apply rbind_ok in Hsl as (s1 & Hs1 & Hsl).
    apply rbind_ok in Hsl as (s2 & Hs2 & [= <-]).
    apply Forall2_app.
    + apply (IH1 (take (ndims b1) shape)); [done | by apply Forall_take | done | done].
    + apply (IH2 (drop (ndims b1) shape)); [done | by apply Forall_drop | done | done].
Qed.

Lemma np_product_positive (l : list Z) :
  Forall (fun n => 0 <= n) l -> 0 < np_product l -> Forall (fun n => 1 <= n) l.
Proof.
  induction 1 as [|d l Hd Hl IH]; [constructor|]. simpl. intros Hp.
  pose proof (np_product_nonneg l Hl) as Hnn.
  constructor; [nia|]. apply IH. nia.
Qed.

Lemma np_product_ge_1 (l : list Z) : Forall (fun n => 1 <= n) l -> 1 <= np_product l.
Proof. induction 1; simpl; [lia | nia]. Qed.

Lemma map_subst_unknown (ds : list Z) :
  map (fun n => if n =? -1 then -1 else n) ds = ds.
Proof.
  induction ds as [|d ds IH]; [reflexivity|]. simpl. rewrite IH.
  by destruct (Z.eqb_spec d (-1)) as [->|].
Qed.

(** A dof tensor with at least one dof has the dof shape itself as shape,
    and every axis has at least one dof. *)
Lemma np_reshape_positive (ds : list Z) (dofs : ndarray Z) :
  np_reshape (arange (np_product ds)) ds = Ok dofs -> 0 < np_product ds ->
  nd_shape dofs = map Z.to_nat ds /\ Forall (fun n => 1 <= n) ds.
Proof.
  unfold np_reshape. destruct (existsb _ ds) eqn:Hneg; [discriminate|].
  apply existsb_lt_false in Hneg. intros H Hpos.
  destruct (count_unknown ds) as [|[|k]] eqn:Hcount; [| |discriminate].
  - destruct (_ =? _); [|discriminate]. injection H as <-. split; [reflexivity|].
    apply np_product_positive; [|done].
    apply count_unknown_0 in Hcount.
    rewrite Forall_forall in *. intros x Hx.
    specialize (Hneg x Hx). specialize (Hcount x Hx). lia.
  - exfalso.
    pose proof (np_product_subst (-1) ds) as Hsub.
    rewrite map_subst_unknown, Hcount in Hsub.
    pose proof (np_product_nonneg _ (filter_known_nonneg _ Hneg)) as Hnn.
    change ((-1) ^ Z.of_nat 1) with (-1) in Hsub. lia.
Qed.

Lemma block_offsets_cover (ds : list Z) (sl : list (list slice)) :
  Forall2 axis_covered ds sl -> Forall (fun n => 1 <= n) ds ->
  forall base o,
    base * np_product ds <= o < (base + 1) * np_product ds ->
    exists s, In s (ix_product sl) /\ In o (block_offsets (map Z.to_nat ds) s base).
Proof.
  induction 1 as [|N axis ds' sl' Hcov _ IH]; intros Hpos base o Ho.
  - exists []. simpl in *. split; [by left|]. left. lia.
  - inversion Hpos as [|? ? HN Hpos']; subst.
    pose proof (np_product_ge_1 ds' Hpos') as HP.
    cbn [np_product foldr] in Ho. fold (np_product ds') in Ho.
    set (P := np_product ds') in *.
    set (q := o / P).
    assert (Hq : q * P <= o < (q + 1) * P).
    { subst q. pose proof (Z.mul_div_le o P ltac:(lia)).
      pose proof (Z.mul_succ_div_gt o P ltac:(lia)). lia. }
    assert (Hj : 0 <= q - base * N < N) by nia.
    destruct (Hcov _ Hj) as (e & s0 & He & Hin).
    destruct (IH Hpos' q o Hq) as (s' & Hs' & Ho').
    exists (s0 :: s'). split.
    + simpl. apply in_flat_map. exists s0. split.
      * apply list_elem_of_In, list_elem_of_lookup. by exists e.
      * by apply in_map.
    + simpl. apply in_flat_map. exists (q - base * N). split.
      * by apply list_elem_of_In.
      * replace (base * Z.of_nat (Z.to_nat N) + (q - base * N)) with q by lia. done.
Qed.

(** ** Keys of the dictionaries *)

Lemma NoDup_ix_product {A : Type} (axes : list (list A)) :
  Forall NoDup axes -> NoDup (ix_product axes).
Proof.
  induction 1 as [|axis axes Haxis _ IH]; simpl.
  - apply NoDup_singleton.
  - induction Haxis as [|x axis Hx _ IHaxis]; simpl; [constructor|].
    apply NoDup_app. split; [|split].
    + assert (Hinj : Inj (=) (=) (@cons A x)) by (intros ? ? [= ->]; done).
      by apply (NoDup_fmap_2 (cons x)).
    + intros y Hy Hy'. apply list_elem_of_In in Hy, Hy'.
      apply in_map_iff in Hy as (z & <- & _).
      apply in_flat_map in Hy' as (x' & Hx' & Hy').
      apply in_map_iff in Hy' as (z' & [= <- _] & _).
      apply Hx. by apply list_elem_of_In.
    + exact IHaxis.
Qed.

Lemma foldl_insert_notin {V : Type} (pairs : list (list nat * V)) (k : list nat) :
  forall m : gmap (list nat) V,
    ~ In k (map fst pairs) ->
    foldl (fun m kv => insert (fst kv) (snd kv) m) m pairs !! k = m !! k.
Proof.
  induction pairs as [|[k' v'] pairs IH]; intros m Hk; [reflexivity|].
  simpl in *. rewrite IH by tauto. apply lookup_insert_ne. intros ->. tauto.
Qed.

Lemma dict_of_lookup {V : Type} (pairs : list (list nat * V)) (k : list nat) (v : V) :
  NoDup (map fst pairs) -> In (k, v) pairs -> dict_of pairs !! k = Some v.
Proof.
  unfold dict_of. generalize (empty : gmap (list nat) V).
  induction pairs as [|[k' v'] pairs IH]; intros m Hnd Hin; [destruct Hin|].
  simpl in *. apply NoDup_cons in Hnd as [Hk' Hnd].
  destruct Hin as [[= -> ->] | Hin].
  - rewrite foldl_insert_notin by (by rewrite <- list_elem_of_In).
    apply lookup_insert_eq.
  - by apply IH.
Qed.

Lemma zip_member {A B : Type} (l : list A) (k : list B) (y : B) :
  length l = length k -> In y k -> exists x, In (x, y) (zip l k).
Proof.
  intros Hlen Hy. apply list_elem_of_In, list_elem_of_lookup in Hy as [i Hi].
  destruct (lookup_lt_is_Some_2 l i) as [x Hx].
  { rewrite Hlen. by apply lookup_lt_Some in Hi. }
  exists x. apply list_elem_of_In, list_elem_of_lookup. exists i.
  apply lookup_zip_with_Some. by exists x, y.
Qed.

Lemma assemble_nmap_lookup (structure_shape : list nat) (ds : list Z)
  (sl : list (list slice)) (arr : ndarray StdElem) (dofs : ndarray Z) (s : list slice) :
  map length sl = structure_shape -> In s (ix_product sl) ->
  exists elem,
    function.nmap (assemble structure_shape ds sl arr dofs) !! elem
    = Some (block_offsets (nd_shape dofs) s 0).
Proof.
  intros Hsl Hs. unfold assemble. cbn [function.nmap].
  set (elems := ix_product (map (seq 0) structure_shape)).
  set (blocks := map (fun s => block_offsets (nd_shape dofs) s 0) (ix_product sl)).
  assert (Hlen : length elems = length blocks).
  { subst elems blocks. rewrite length_map, !length_ix_product, Hsl. f_equal.
    rewrite map_map. clear. induction structure_shape as [|n l IH]; [reflexivity|].
    simpl. by rewrite length_seq, IH. }
  destruct (zip_member elems blocks (block_offsets (nd_shape dofs) s 0) Hlen) as [elem Hin].
  { subst blocks. by apply (in_map (fun s => block_offsets (nd_shape dofs) s 0)). }
  exists elem. apply dict_of_lookup; [|done].
  to_fmap. rewrite fst_zip by lia. subst elems.
  apply NoDup_ix_product. apply Forall_forall. intros axis Haxis.
  apply list_elem_of_In, in_map_iff in Haxis as (n & <- & _). apply NoDup_seq.
Qed.

(** Claim C7.  For a builder whose [Spline] factors have non-negative
    degree, on a structured domain with at least one element per axis: when
    [build] returns, every dof index from 0 to [ndofs - 1] occurs in the
    dof-index array that [nmap] holds for some element. *)
Theorem every_dof_covered (b : BasisBuilder) (structure_shape : list nat)
  (f : function.function) :
  nonneg_degrees b ->
  Forall (fun n => (1 <= n)%nat) structure_shape ->
  build b (StructuredTopology structure_shape) = Ok f ->
  forall d, 0 <= d < function.ndofs f ->
    exists elem dofs, function.nmap f !! elem = Some dofs /\ In d dofs.
Proof.
  intros Hwf Hshape Hbuild d Hd.
  apply build_ok_inv in Hbuild
    as (shape' & ds & sl & arr & dofs & [= <-] & Hlen & Hds & Hsl & Harr & Hdofs & ->).
  cbn [assemble function.ndofs] in Hd.
  destruct (np_reshape_positive ds dofs Hdofs ltac:(lia)) as [Hdims Hpos].
  assert (Hcov : Forall2 axis_covered ds sl).
  { apply (getslices_covered b (map Z.of_nat structure_shape)); [done| |done|done].
    apply Forall_forall. intros x Hx.
    apply list_elem_of_In, in_map_iff in Hx as (n & <- & Hn).
    rewrite Forall_forall in Hshape. apply list_elem_of_In in Hn.
    specialize (Hshape n Hn). simpl in Hshape. lia. }
  destruct (block_offsets_cover ds sl Hcov Hpos 0 d ltac:(lia)) as (s & Hs & Hin).
  apply getslices_shape in Hsl as [_ Hsl]. rewrite map_to_nat_of_nat in Hsl.
  destruct (assemble_nmap_lookup structure_shape ds sl arr dofs s Hsl Hs) as [elem Helem].
  exists elem, (block_offsets (nd_shape dofs) s 0). split; [done|].
  by rewrite Hdims.
Qed.

Lemma every_dof_covered_witness :
  exists f elem dofs,
    build (ProductFunc (Spline 1 true false) (ModSpline2 [2] false false))
          (StructuredTopology [4%nat; 4%nat]) = Ok f /\
    function.nmap f !! elem = Some dofs /\ In 23 dofs.
Proof.
  destruct (build (ProductFunc (Spline 1 true false) (ModSpline2 [2] false false))
                  (StructuredTopology [4%nat; 4%nat])) as [f|e] eqn:Hb;
    [|vm_compute in Hb; discriminate].
  assert (Hnd : function.ndofs f = 24)
    by (vm_compute in Hb; injection Hb as <-; reflexivity).
  assert (Hwf : nonneg_degrees (ProductFunc (Spline 1 true false) (ModSpline2 [2] false false)))
    by (simpl; split; [lia | exact I]).
  assert (Hshape : Forall (fun n => (1 <= n)%nat) [4%nat; 4%nat])
    by (repeat constructor; lia).
  destruct (every_dof_covered _ _ f Hwf Hshape Hb 23 ltac:(lia))
    as (elem & dofs & Helem & Hin).
  exists f, elem, dofs. split; [reflexivity|]. split; [exact Helem | exact Hin].
Defined.

Lemma build_shapes_agree (b : BasisBuilder) (structure_shape : list nat)
  (sl : list (list slice)) (arr : ndarray StdElem) :
  getslices b (map Z.of_nat structure_shape) = Ok sl ->
  getstdelems b (map Z.of_nat structure_shape) = Ok arr ->
  map length sl = nd_shape (structure structure_shape) /\
  Forall2 (fun x n => x = n \/ x = 1%nat) (nd_shape arr) (nd_shape (structure structure_shape)).
Proof.
  intros Hsl Harr.
  apply getslices_shape in Hsl as [_ Hsl]. apply stdelems_broadcastable in Harr.
  rewrite map_to_nat_of_nat in Hsl. by split.
Qed.

(** ** The examples of the specification and of the source *)

Example Spline1_on_4_elements :
  let r := build (Spline 1 false false) (StructuredTopology [4%nat]) in
  ndofs_of r = Ok 5 /\ nmap_at r [0%nat] = Some [0; 1] /\ nmap_at r [3%nat] = Some [3; 4].
Proof. vm_compute. repeat split. Qed.

Example ModSpline2_interface_positions :
  ndofs_of (build (ModSpline2 [2] false false) (StructuredTopology [6%nat])) = Ok 8 /\
  build (ModSpline2 [1] false false) (StructuredTopology [6%nat]) = Raise InvalidInterfaceSet.
Proof. vm_compute. repeat split. Qed.

Example Spline1_squared_on_3x3 :
  getdofshape (ProductFunc (Spline 1 false false) (Spline 1 false false)) [3; 3] = Ok [4; 4] /\
  ndofs_of (build (ProductFunc (Spline 1 false false) (Spline 1 false false))
                  (StructuredTopology [3%nat; 3%nat])) = Ok 16.
Proof. vm_compute. repeat split. Qed.

Example source_example_1D :
  let r := build (ModSpline2 [2; -3] false true) (StructuredTopology [9%nat]) in
  ndofs_of r = Ok 10 /\
  nmap_at r [0%nat] = Some [0; 1; 2; 3] /\ nmap_at r [3%nat] = Some [2; 3; 4; 5] /\
  nmap_at r [8%nat] = Some [8; 9].
Proof. vm_compute. repeat split. Qed.

Example source_example_2D :
  let r := build (ProductFunc (Spline 1 true false) (ModSpline2 [2] false false))
                 (StructuredTopology [4%nat; 4%nat]) in
  ndofs_of r = Ok 24 /\
  nmap_at r [0%nat; 0%nat] = Some [0; 1; 2; 3] /\
  nmap_at r [3%nat; 3%nat] = Some [14; 15; 16; 17; 20; 21; 22; 23].
Proof. vm_compute. repeat split. Qed.

(** The corner in which a dof count is negative: degree 0, one element,
    both ends removed.  The slice is [slice(0, -1)], the dof axis is empty
    and the standard element has no shape function left. *)
Example Spline0_both_removed :
  getdofshape (Spline 0 true true) [1] = Ok [-1] /\
  getslices (Spline 0 true true) [1] = Ok [[Slice 0 (-1)]] /\
  ndofs_of (build (Spline 0 true true) (StructuredTopology [1%nat])) = Ok (-1) /\
  nmap_at (build (Spline 0 true true) (StructuredTopology [1%nat])) [0%nat] = Some [].
Proof. vm_compute. repeat split. Qed.

(** * Further properties of the builders *)

(** ** Shapes and errors of the queries *)

(** Property X1.  Whenever the three queries of a builder return on a tuple
    of element counts, the tuple has [ndims] entries, the dof shape has
    [ndims] entries, there is one list of slices per axis with one slice
    per element of that axis, and the array of standard elements has one
    axis per dimension, each as long as the element count of the axis or
    of length 1 (a [Spline] of degree 0 returns a single standard element,
    which [build] broadcasts), and holds as many entries as its shape
    says.  When all degrees are at least 1 the array has the shape of the
    grid. *)
Theorem query_results_shapes (b : BasisBuilder) (shape ds : list Z)
  (sl : list (list slice)) (arr : ndarray StdElem) :
  getdofshape b shape = Ok ds ->
  getslices b shape = Ok sl ->
  getstdelems b shape = Ok arr ->
  length shape = ndims b /\ length ds = ndims b /\ length sl = ndims b /\
  map length sl = map Z.to_nat shape /\
  Forall2 (fun a n => a = Z.to_nat n \/ a = 1%nat) (nd_shape arr) shape /\
  length (nd_data arr) = foldr Nat.mul 1%nat (nd_shape arr) /\
  (pos_degrees b -> nd_shape arr = map Z.to_nat shape).
Proof.
  intros Hds Hsl Harr.
  destruct (getdofshape_length _ _ _ Hds) as [Hlen Hdl].
  destruct (getslices_shape _ _ _ Hsl) as [_ Hs].
  destruct (getstdelems_shape _ _ _ Harr) as [_ Ha].
  split; [done|]. split; [done|]. split.
  { apply (f_equal length) in Hs. rewrite !length_map in Hs. lia. }
  split; [done|]. split; [done|]. split.
  - by apply (getstdelems_size b shape).
  - intros Hpos. by apply (getstdelems_shape_pos b).
Qed.

Lemma query_results_shapes_witness :
  exists ds sl arr,
    getdofshape (ProductFunc (Spline 1 true false) (ModSpline2 [2] false false)) [4; 5] = Ok ds /\
    getslices (ProductFunc (Spline 1 true false) (ModSpline2 [2] false false)) [4; 5] = Ok sl /\
    getstdelems (ProductFunc (Spline 1 true false) (ModSpline2 [2] false false)) [4; 5] = Ok arr /\
    map length sl = [4%nat; 5%nat] /\ nd_shape arr = [4%nat; 5%nat].
Proof.
  eexists _, _, _.
  split; [reflexivity|]. split; [reflexivity|]. split; [reflexivity|].
  destruct (query_results_shapes
              (ProductFunc (Spline 1 true false) (ModSpline2 [2] false false)) [4; 5]
              _ _ _ eq_refl eq_refl eq_refl) as (_ & _ & _ & H1 & _ & _ & H2).
  split; [exact H1 | apply H2; simpl; split; [lia | exact I]].
Defined.

(** Property X2.  A tuple of element counts of the wrong length is
    rejected by every query: a product raises the assertion on
    [len(shape)], a one-dimensional builder the [ValueError] of unpacking
    [(nelems,)], in [ModSpline2] before the interfaces are looked at. *)
Theorem wrong_length_shape_raises (shape : list Z) :
  (forall func1 func2,
     length shape <> ndims (ProductFunc func1 func2) ->
     getdofshape (ProductFunc func1 func2) shape = Raise ShapeMismatch /\
     getslices (ProductFunc func1 func2) shape = Raise ShapeMismatch /\
     getstdelems (ProductFunc func1 func2) shape = Raise ShapeMismatch) /\
  (forall degree rmfirst rmlast,
     length shape <> 1%nat ->
     getdofshape (Spline degree rmfirst rmlast) shape = Raise ValueError /\
     getslices (Spline degree rmfirst rmlast) shape = Raise ValueError /\
     getstdelems (Spline degree rmfirst rmlast) shape = Raise ValueError) /\
  (forall ifaces rmfirst rmlast,
     length shape <> 1%nat ->
     getdofshape (ModSpline2 ifaces rmfirst rmlast) shape = Raise ValueError /\
     getslices (ModSpline2 ifaces rmfirst rmlast) shape = Raise ValueError /\
     getstdelems (ModSpline2 ifaces rmfirst rmlast) shape = Raise ValueError).
Proof.
  assert (Hun : length shape <> 1%nat -> unpack1 shape = Raise ValueError).
  { destruct shape as [|n [|m shape]]; simpl; (done || lia). }
  split; [|split].
  - intros func1 func2 Hlen. simpl in *.
    assert (Ha : assert_len shape (ndims func1 + ndims func2) = Raise ShapeMismatch).
    { unfold assert_len. by destruct (Nat.eqb_spec (length shape) (ndims func1 + ndims func2)). }
    by rewrite Ha.
  - intros degree rmfirst rmlast Hlen. simpl.
    unfold Spline_getdofshape, Spline_getslices, Spline_getstdelems.
    by rewrite (Hun Hlen).
  - intros ifaces rmfirst rmlast Hlen. simpl.
    unfold ModSpline2_getdofshape, ModSpline2_getslices, ModSpline2_getstdelems.
    by rewrite (Hun Hlen).
Qed.

(** ** The interface positions *)

Lemma np_sort_Permutation (l1 l2 : list Z) :
  Permutation l1 l2 -> np_sort l1 = np_sort l2.
Proof.
  intros HP. unfold np_sort.
  apply (Sorted_unique Z.le); [apply Sorted_merge_sort; apply _ ..|].
  by rewrite !merge_sort_Permutation.
Qed.

(** Property X3.  A [ModSpline2] depends on its interfaces only through
    the collection of their normalized positions: listing them in another
    order, or giving a position from the end as [-k] instead of
    [nelems - k], changes neither the slices, nor the standard elements,
    nor the result of [build], nor the exception raised. *)
Theorem ModSpline2_ifaces_order (ifaces ifaces' : list Z) (rmfirst rmlast : bool)
  (nelems : nat) :
  Permutation (map (normalize_iface (Z.of_nat nelems)) ifaces)
              (map (normalize_iface (Z.of_nat nelems)) ifaces') ->
  sorted_ifaces ifaces (Z.of_nat nelems) = sorted_ifaces ifaces' (Z.of_nat nelems) /\
  getslices (ModSpline2 ifaces rmfirst rmlast) [Z.of_nat nelems]
  = getslices (ModSpline2 ifaces' rmfirst rmlast) [Z.of_nat nelems] /\
  getstdelems (ModSpline2 ifaces rmfirst rmlast) [Z.of_nat nelems]
  = getstdelems (ModSpline2 ifaces' rmfirst rmlast) [Z.of_nat nelems] /\
  build (ModSpline2 ifaces rmfirst rmlast) (StructuredTopology [nelems])
  = build (ModSpline2 ifaces' rmfirst rmlast) (StructuredTopology [nelems]).
Proof.
  intros HP.
  assert (Hs : sorted_ifaces ifaces (Z.of_nat nelems) = sorted_ifaces ifaces' (Z.of_nat nelems)).
  { unfold sorted_ifaces. by rewrite (np_sort_Permutation _ _ HP). }
  split; [exact Hs|].
  unfold build. simpl.
  unfold ModSpline2_getslices, ModSpline2_getstdelems. simpl. by rewrite Hs.
Qed.

Lemma ModSpline2_ifaces_order_witness :
  build (ModSpline2 [2; -3] false true) (StructuredTopology [9%nat])
  = build (ModSpline2 [6; 2] false true) (StructuredTopology [9%nat]).
Proof.
  refine (proj2 (proj2 (proj2 (ModSpline2_ifaces_order [2; -3] [6; 2] false true 9 _)))).
  simpl. apply perm_swap.
Defined.

Lemma spaced_count (hi : Z) (positions : list Z) : forall lo,
  spaced lo hi positions -> positions <> [] ->
  lo + 4 * Z.of_nat (length positions) <= hi + 4.
Proof.
  induction positions as [|n rest IH]; intros lo Hsp Hne; [done|].
  destruct Hsp as [Hn Hrest]. destruct rest as [|m rest'].
  - simpl. lia.
  - specialize (IH (n + 4) Hrest ltac:(discriminate)).
    change (length (n :: m :: rest')) with (S (length (m :: rest'))).
    rewrite Nat2Z.inj_succ. lia.
Qed.

Lemma spaced_apart (hi : Z) (positions : list Z) : forall lo,
  spaced lo hi positions -> StronglySorted (fun p q => p + 4 <= q) positions.
Proof.
  induction positions as [|n rest IH]; intros lo Hsp; [constructor|].
  destruct Hsp as [Hn Hrest]. constructor; [by apply (IH (n + 4))|].
  apply (spaced_Forall (n + 4) hi) in Hrest.
  eapply Forall_impl; [exact Hrest|]. simpl. intros q Hq. lia.
Qed.

(** Property X4.  When [sorted_ifaces] returns, its result is a
    rearrangement of the normalized positions in which every position lies
    between 2 and [nelems - 2] and any two positions are at least 4 apart
    (so none is repeated); hence at most [nelems / 4] interfaces fit on
    [nelems] elements, and at least 4 elements are needed. *)
Theorem sorted_ifaces_result (ifaces positions : list Z) (nelems : Z) :
  sorted_ifaces ifaces nelems = Ok positions ->
  Permutation positions (map (normalize_iface nelems) ifaces) /\
  StronglySorted (fun p q => p + 4 <= q) positions /\
  Forall (fun p => 2 <= p <= nelems - 2) positions /\
  1 <= Z.of_nat (length ifaces) /\ 4 * Z.of_nat (length ifaces) <= nelems.
Proof.
  intros Hs. destruct (sorted_ifaces_spaced _ _ _ Hs) as [Hsp Hn].
  apply sorted_ifaces_ok_inv in Hs as (Hne & _ & ->).
  pose proof (merge_sort_Permutation Z.le (map (normalize_iface nelems) ifaces)) as HP.
  fold (np_sort (map (normalize_iface nelems) ifaces)) in HP.
  split; [exact HP|]. split; [by apply (spaced_apart (nelems - 2) _ 2)|].
  split; [by apply spaced_Forall|].
  assert (Hlen : length (np_sort (map (normalize_iface nelems) ifaces)) = length ifaces).
  { by rewrite (Permutation_length HP), length_map. }
  split; [destruct ifaces; [done | simpl; lia]|].
  pose proof (spaced_count _ _ 2 Hsp) as Hc. rewrite Hlen in Hc.
  assert (np_sort (map (normalize_iface nelems) ifaces) <> []).
  { intros H0. apply (f_equal length) in H0. rewrite Hlen in H0.
    destruct ifaces; [done | discriminate]. }
  specialize (Hc ltac:(done)). lia.
Qed.

Lemma sorted_ifaces_result_witness :
  Permutation [2; 6] (map (normalize_iface 9) [-3; 2]) /\
  4 * Z.of_nat (length [-3; 2]) <= 9.
Proof.
  destruct (sorted_ifaces_result [-3; 2] [2; 6] 9 eq_refl) as (H1 & _ & _ & _ & H2).
  split; [exact H1 | exact H2].
Defined.

(** ** The standard elements *)

Lemma length_eye (k : nat) : length (eye k) = k.
Proof. unfold eye. by rewrite length_map, length_seq. Qed.

Lemma eye_rows (k : nat) : Forall (fun row => length row = k) (eye k).
Proof.
  unfold eye. apply Forall_forall. intros row Hrow.
  apply list_elem_of_In, in_map_iff in Hrow as (i & <- & _).
  by rewrite length_map, length_seq.
Qed.

Lemma Forall_rows_ncols (m : list (list Z)) (c : nat) :
  Forall (fun row => length row = c) m -> Forall (fun row => length row = ncols m) m.
Proof.
  intros H. destruct m as [|r m]; [constructor|].
  inversion H as [|? ? Hr _]; subst. exact H.
Qed.

Lemma wf_drop_first_shape (x : StdElem) :
  wf_extraction x -> wf_extraction (drop_first_shape x).
Proof.
  intros Hx. simpl. split; [done|]. unfold drop_first_col.
  split; [by rewrite length_map, length_eye|].
  apply (Forall_rows_ncols _ (nshapes x - 1)%nat).
  apply Forall_forall. intros row Hrow.
  apply list_elem_of_In, in_map_iff in Hrow as (r & <- & Hr).
  pose proof (eye_rows (nshapes x)) as Hall. rewrite Forall_forall in Hall.
  apply list_elem_of_In in Hr. rewrite length_drop, (Hall r Hr). done.
Qed.

Lemma wf_drop_last_shape (x : StdElem) :
  wf_extraction x -> wf_extraction (drop_last_shape x).
Proof.
  intros Hx. simpl. split; [done|]. unfold drop_last_col.
  split; [by rewrite length_map, length_eye|].
  apply (Forall_rows_ncols _ (nshapes x - 1)%nat).
  apply Forall_forall. intros row Hrow.
  apply list_elem_of_In, in_map_iff in Hrow as (r & <- & Hr).
  pose proof (eye_rows (nshapes x)) as Hall. rewrite Forall_forall in Hall.
  apply list_elem_of_In in Hr. rewrite length_take, (Hall r Hr). lia.
Qed.

Lemma py_getitem_elem_of {A : Type} (l : list A) (k : Z) (x : A) :
  py_getitem l k = Ok x -> In x l.
Proof.
  unfold py_getitem. intros H. apply rbind_ok in H as (i & _ & H).
  destruct (l !! i) as [y|] eqn:Hy; [|discriminate]. injection H as <-.
  apply list_elem_of_In, list_elem_of_lookup. by exists i.
Qed.

Lemma py_setitem_Forall {A : Type} (P : A -> Prop) (l l' : list A) (k : Z) (v : A) :
  Forall P l -> P v -> py_setitem l k v = Ok l' -> Forall P l'.
Proof.
  intros Hl Hv H. unfold py_setitem in H. apply rbind_ok in H as (i & _ & [= <-]).
  by apply Forall_insert.
Qed.

Lemma remove_ends_wf (rmfirst rmlast : bool) (l l' : list StdElem) :
  Forall wf_extraction l -> remove_ends rmfirst rmlast l = Ok l' ->
  Forall wf_extraction l'.
Proof.
  intros Hl H. unfold remove_ends in H. apply rbind_ok in H as (l1 & H1 & H2).
  assert (Hl1 : Forall wf_extraction l1).
  { destruct rmfirst; [|by injection H1 as <-].
    apply rbind_ok in H1 as (x & Hx & H1).
    apply (py_setitem_Forall _ _ _ _ _ Hl) in H1; [done|].
    apply wf_drop_first_shape. apply py_getitem_elem_of in Hx.
    rewrite Forall_forall in Hl. by apply Hl, list_elem_of_In. }
  destruct rmlast; [|by injection H2 as <-].
  apply rbind_ok in H2 as (x & Hx & H2).
  apply (py_setitem_Forall _ _ _ _ _ Hl1) in H2; [done|].
  apply wf_drop_last_shape. apply py_getitem_elem_of in Hx.
  rewrite Forall_forall in Hl1. by apply Hl1, list_elem_of_In.
Qed.

Lemma wf_owned_stdelem (positions : list Z) (nelems e : Z) :
  wf_extraction (owned_stdelem positions e (PolyLine 2 nelems e)).
Proof.
  unfold owned_stdelem. destruct (owner positions e) as [n|]; [|exact I].
  unfold patch_stdelem_at, update_at.
  destruct (Z.eqb_spec e (n + 1)), (Z.eqb_spec e (n + 0)),
    (Z.eqb_spec e (n - 1)), (Z.eqb_spec e (n - 2)); try lia; simpl;
    repeat split; repeat constructor.
Qed.

(** Property X5.  Every standard element a builder returns is well formed:
    each extraction matrix applied by [getstdelems] (the four interface
    matrices and the two endpoint removals, also where an interface patch
    reaches the removed end) has exactly one row per shape function of the
    element it is applied to. *)
Theorem stdelems_well_formed (b : BasisBuilder) (shape : list Z) (arr : ndarray StdElem) :
  getstdelems b shape = Ok arr -> Forall wf_extraction (nd_data arr).
Proof.
  revert shape arr.
  induction b as [degree rf rl | ifaces rf rl | b1 IH1 b2 IH2]; intros shape arr; simpl.
  - unfold Spline_getstdelems. intros H. apply rbind_ok in H as (n & _ & H).
    apply rbind_ok in H as (l & Hl & [= <-]). simpl.
    apply (remove_ends_wf rf rl (PolyLine_spline degree n)); [|done].
    unfold PolyLine_spline. destruct (degree =? 0); [by repeat constructor|].
    apply Forall_forall. intros x Hx.
    by apply list_elem_of_In, in_map_iff in Hx as (i & <- & _).
  - intros H. pose proof H as H'. unfold ModSpline2_getstdelems in H'.
    apply rbind_ok in H' as (n & Hn & H'). apply unpack1_ok in Hn as ->.
    apply rbind_ok in H' as (positions & Hs & _).
    change (getstdelems (ModSpline2 ifaces rf rl) [n] = Ok arr) in H.
    rewrite (ModSpline2_getstdelems_1 _ _ _ rf rl Hs) in H. injection H as <-.
    simpl. apply Forall_forall. intros x Hx.
    apply list_elem_of_lookup in Hx as [i Hi].
    rewrite list_lookup_imap in Hi.
    destruct (PolyLine_spline 2 n !! i) as [d|] eqn:Hd; [|discriminate].
    injection Hi as <-.
    assert (Hdi : d = PolyLine 2 n (Z.of_nat i)).
    { pose proof (lookup_lt_Some _ _ _ Hd) as Hlt.
      rewrite length_PolyLine_spline in Hlt by done.
      rewrite lookup_PolyLine_spline in Hd by lia. by injection Hd as <-. }
    subst d. pose proof (wf_owned_stdelem positions n (Z.of_nat i)) as Hwf.
    unfold removed_at, update_at.
    destruct rf, rl, (Z.of_nat i =? 0), (Z.of_nat i =? n - 1);
      auto using wf_drop_first_shape, wf_drop_last_shape.
  - intros H. apply rbind_ok in H as (u & _ & H).
    apply rbind_ok in H as (e1 & H1 & H). apply rbind_ok in H as (e2 & H2 & [= <-]).
    apply IH1 in H1. apply IH2 in H2. simpl.
    apply Forall_forall. intros x Hx.
    apply list_elem_of_In, in_flat_map in Hx as (x1 & Hx1 & Hx).
    apply in_map_iff in Hx as (x2 & <- & Hx2).
    rewrite Forall_forall in H1, H2. simpl.
    split; [apply H1 | apply H2]; by apply list_elem_of_In.
Qed.

Lemma stdelems_well_formed_witness :
  exists arr,
    getstdelems (ModSpline2 [2] true true) [4] = Ok arr /\
    Forall wf_extraction (nd_data arr).
Proof.
  eexists. split; [reflexivity|].
  exact (stdelems_well_formed (ModSpline2 [2] true true) [4] _ eq_refl).
Defined.

(** Property X6.  [Spline.getstdelems] on at least one element.  For a
    degree of at least 1 it returns one standard element per element:
    segment [e] of the spline, with its first shape function dropped if
    [rmfirst] is set and [e] is the first element, and then its last one
    dropped if [rmlast] is set and [e] is the last element (a single
    element loses both), so that it keeps [degree + 1] shape functions
    less the removals.  For degree 0 the array holds the one standard
    element that stands for every element, and both removals apply to it:
    with a removal flag no element keeps a shape function. *)
Theorem Spline_getstdelems_removal (degree nelems : Z) (rmfirst rmlast : bool) :
  1 <= nelems ->
  (1 <= degree ->
   exists stdelems,
     getstdelems (Spline degree rmfirst rmlast) [nelems] = Ok (array1 stdelems) /\
     length stdelems = Z.to_nat nelems /\
     forall e, 0 <= e < nelems ->
       let x := PolyLine degree nelems e in
       let x1 := if rmfirst && (e =? 0) then drop_first_shape x else x in
       let x2 := if rmlast && (e =? nelems - 1) then drop_last_shape x1 else x1 in
       stdelems !! Z.to_nat e = Some x2 /\
       nshapes x2 = (Z.to_nat (degree + 1)
                     - (if rmfirst && (e =? 0)%Z then 1 else 0)
                     - (if rmlast && (e =? nelems - 1)%Z then 1 else 0))%nat) /\
  (degree = 0 ->
   let x := PolyLine 0 nelems 0 in
   let x1 := if rmfirst then drop_first_shape x else x in
   let x2 := if rmlast then drop_last_shape x1 else x1 in
   getstdelems (Spline degree rmfirst rmlast) [nelems] = Ok (array1 [x2]) /\
   nshapes x2 = (if rmfirst || rmlast then 0 else 1)%nat).
Proof.
  intros Hn. split.
  - intros Hd. eexists. split; [apply Spline_getstdelems_1; lia|].
    split; [rewrite length_imap, length_PolyLine_spline by lia; done|].
    intros e He x x1 x2.
    assert (Hx2 : x2 = removed_at rmfirst rmlast nelems e x).
    { subst x2 x1. unfold removed_at, update_at.
      by destruct rmfirst, rmlast, (e =? 0), (e =? nelems - 1). }
    split.
    + rewrite list_lookup_imap, lookup_PolyLine_spline by lia. simpl.
      rewrite Z2Nat.id by lia. by rewrite Hx2.
    + rewrite Hx2, nshapes_removed_at. reflexivity.
  - intros -> x x1 x2. subst x2 x1 x. rewrite Spline_getstdelems_0.
    by destruct rmfirst, rmlast.
Qed.

Lemma Spline_getstdelems_removal_witness :
  exists stdelems,
    getstdelems (Spline 2 true false) [3] = Ok (array1 stdelems) /\
    stdelems !! 0%nat = Some (drop_first_shape (PolyLine 2 3 0)).
Proof.
  destruct (Spline_getstdelems_removal 2 3 true false ltac:(lia)) as [H _].
  destruct (H ltac:(lia)) as (stdelems & Hs & _ & He).
  exists stdelems. split; [exact Hs|].
  destruct (He 0 ltac:(lia)) as [H0 _]. exact H0.
Defined.

(** Property X7.  For a non-empty valid interface set,
    [ModSpline2.getstdelems] returns one standard element per element.
    Around every interface position [n] the quadratic segments of elements
    [n-2], [n-1], [n] and [n+1] are each extracted exactly once, through
    the 3x4, 3x3, 3x3 and 3x4 matrix of the source in this order; only the
    outer two can also lose a shape function to an endpoint removal
    (element [n-2] when [rmfirst] is set and [n = 2], element [n+1] when
    [rmlast] is set and [n = nelems - 2]).  Every element outside all
    patches is the plain segment, less the endpoint removals. *)
Theorem ModSpline2_interface_stdelems (ifaces : list Z) (rmfirst rmlast : bool) (nelems : Z) :
  ifaces <> [] -> valid_interfaces ifaces nelems ->
  let positions := np_sort (map (normalize_iface nelems) ifaces) in
  exists stdelems,
    getstdelems (ModSpline2 ifaces rmfirst rmlast) [nelems] = Ok (array1 stdelems) /\
    length stdelems = Z.to_nat nelems /\
    (forall n, elem_of n positions ->
       let x1 := extract (PolyLine 2 nelems (n - 2)) iface_extraction_m2 in
       let x4 := extract (PolyLine 2 nelems (n + 1)) iface_extraction_p1 in
       stdelems !! Z.to_nat (n - 2)
       = Some (if rmfirst && (n =? 2) then drop_first_shape x1 else x1) /\
       stdelems !! Z.to_nat (n - 1)
       = Some (extract (PolyLine 2 nelems (n - 1)) iface_extraction_m1) /\
       stdelems !! Z.to_nat n
       = Some (extract (PolyLine 2 nelems n) iface_extraction_p0) /\
       stdelems !! Z.to_nat (n + 1)
       = Some (if rmlast && (n =? nelems - 2) then drop_last_shape x4 else x4)) /\
    (forall e, 0 <= e < nelems ->
       (forall n, elem_of n positions -> e < n - 2 \/ n + 1 < e) ->
       let x := PolyLine 2 nelems e in
       stdelems !! Z.to_nat e
       = Some (if rmfirst && (e =? 0) then drop_first_shape x
               else if rmlast && (e =? nelems - 1) then drop_last_shape x else x)).
Proof.
  intros Hne Hv positions.
  pose proof (sorted_ifaces_ok _ _ Hne Hv) as Hs. fold positions in Hs.
  destruct (sorted_ifaces_spaced _ _ _ Hs) as [Hsp Hn4].
  pose proof (spaced_Forall _ _ _ Hsp) as Hall. rewrite Forall_forall in Hall.
  eexists. split; [by apply ModSpline2_getstdelems_1|].
  split; [by rewrite length_imap, length_PolyLine_spline|].
  assert (Hlook : forall e, 0 <= e < nelems ->
            imap (fun e d => removed_at rmfirst rmlast nelems (Z.of_nat e)
                               (owned_stdelem positions (Z.of_nat e) d))
                 (PolyLine_spline 2 nelems) !! Z.to_nat e
            = Some (removed_at rmfirst rmlast nelems e
                      (owned_stdelem positions e (PolyLine 2 nelems e)))).
  { intros e He. rewrite list_lookup_imap, lookup_PolyLine_spline by lia. simpl.
    by rewrite !Z2Nat.id by lia. }
  split.
  - intros n Hin x1 x4. specialize (Hall n Hin).
    rewrite !Hlook by lia. unfold owned_stdelem.
    rewrite !(owner_member positions n _ 2 (nelems - 2)) by (done || lia).
    subst x1 x4. unfold removed_at, patch_stdelem_at, update_at.
    repeat match goal with
           | |- context [Z.eqb ?x ?y] => destruct (Z.eqb_spec x y); try lia
           end;
      destruct rmfirst, rmlast; simpl; repeat split; reflexivity.
  - intros e He Hfree x. rewrite Hlook by lia. f_equal. unfold owned_stdelem.
    destruct (owner positions e) as [n|] eqn:Ho.
    { apply owner_Some in Ho as [Hin Hne']. destruct (Hfree n Hin); lia. }
    subst x. unfold removed_at, update_at.
    destruct (Z.eqb_spec e 0), (Z.eqb_spec e (nelems - 1)); try lia;
      by destruct rmfirst, rmlast.
Qed.

Lemma ModSpline2_interface_stdelems_witness :
  exists stdelems,
    getstdelems (ModSpline2 [2] true false) [6] = Ok (array1 stdelems) /\
    stdelems !! 0%nat
    = Some (drop_first_shape (extract (PolyLine 2 6 0) iface_extraction_m2)).
Proof.
  destruct (ModSpline2_interface_stdelems [2] true false 6 ltac:(discriminate)
              ltac:(apply ifaces_check_valid; reflexivity))
    as (stdelems & Hs & _ & Hpos & _).
  exists stdelems. split; [exact Hs|].
  destruct (Hpos 2) as (H1 & _).
  - apply list_elem_of_In. vm_compute. tauto.
  - exact H1.
Defined.

(** ** The two dictionaries of the representation *)

Lemma foldl_insert_inv {V : Type} (pairs : list (list nat * V)) (k : list nat) (v : V) :
  forall m : gmap (list nat) V,
    foldl (fun m kv => insert (fst kv) (snd kv) m) m pairs !! k = Some v ->
    In (k, v) pairs \/ m !! k = Some v.
Proof.
  induction pairs as [|[k' v'] pairs IH]; intros m H; [by right|].
  simpl in H. apply IH in H as [H | H]; [left; by right|].
  destruct (decide (k' = k)) as [->|Hne].
  - rewrite lookup_insert_eq in H. injection H as ->. left. by left.
  - rewrite lookup_insert_ne in H by done. by right.
Qed.

Lemma dict_of_lookup_inv {V : Type} (pairs : list (list nat * V)) (k : list nat) (v : V) :
  dict_of pairs !! k = Some v -> In (k, v) pairs.
Proof.
  intros H. apply foldl_insert_inv in H as [H | H]; [done|].
  by rewrite lookup_empty in H.
Qed.

Lemma foldl_insert_is_Some {V : Type} (pairs : list (list nat * V)) (k : list nat) :
  forall m : gmap (list nat) V,
    In k (map fst pairs) \/ is_Some (m !! k) ->
    is_Some (foldl (fun m kv => insert (fst kv) (snd kv) m) m pairs !! k).
Proof.
  induction pairs as [|[k' v'] pairs IH]; intros m H.
  - destruct H as [[] | H]. exact H.
  - simpl. apply IH. simpl in H. destruct H as [[-> | H] | H].
    + right. rewrite lookup_insert_eq. by eexists.
    + by left.
    + right. destruct (decide (k' = k)) as [->|Hne].
      * rewrite lookup_insert_eq. by eexists.
      * by rewrite lookup_insert_ne.
Qed.

Lemma dict_of_is_Some {V : Type} (pairs : list (list nat * V)) (k : list nat) :
  is_Some (dict_of pairs !! k) <-> In k (map fst pairs).
Proof.
  split.
  - intros [v Hv]. apply dict_of_lookup_inv in Hv.
    apply in_map_iff. by exists (k, v).
  - intros H. apply foldl_insert_is_Some. by left.
Qed.

Lemma in_ix_product {A : Type} (axes : list (list A)) : forall x,
  In x (ix_product axes) <-> Forall2 (fun xi axis => In xi axis) x axes.
Proof.
  induction axes as [|axis axes IH]; intros x; simpl.
  - split.
    + intros [<- | []]. constructor.
    + intros H. inversion H. by left.
  - rewrite in_flat_map. split.
    + intros (y & Hy & Hx). apply in_map_iff in Hx as (z & <- & Hz).
      constructor; [done | by apply IH].
    + intros H. inversion H as [|y axis' z axes' Hy Hz]; subst.
      exists y. split; [done|]. apply in_map. by apply IH.
Qed.

Lemma in_grid (structure_shape : list nat) (elem : list nat) :
  In elem (grid structure_shape) <-> Forall2 lt elem structure_shape.
Proof.
  unfold grid, structure. simpl. rewrite in_ix_product. to_fmap.
  rewrite Forall2_fmap_r. split; intros H; (eapply Forall2_impl; [exact H|]);
    simpl; intros e n; rewrite in_seq; lia.
Qed.

Lemma length_grid (structure_shape : list nat) :
  length (grid structure_shape) = foldr Nat.mul 1%nat structure_shape.
Proof.
  unfold grid, structure. simpl. rewrite length_ix_product. f_equal.
  rewrite map_map. induction structure_shape as [|n l IH]; [reflexivity|].
  simpl. by rewrite length_seq, IH.
Qed.

Lemma NoDup_grid (structure_shape : list nat) : NoDup (grid structure_shape).
Proof.
  unfold grid, structure. simpl. apply NoDup_ix_product.
  apply Forall_forall. intros axis Haxis.
  apply list_elem_of_In, in_map_iff in Haxis as (n & <- & _). apply NoDup_seq.
Qed.

Lemma map_zip_snd {A B C : Type} (g : B -> C) (l : list A) (k : list B) :
  map (fun ab => (fst ab, g (snd ab))) (zip l k) = zip l (map g k).
Proof.
  revert k. induction l as [|x l IH]; intros [|y k]; simpl; try reflexivity.
  by rewrite IH.
Qed.

Lemma map_fst_zip {A B : Type} (l : list A) (k : list B) :
  length l = length k -> map fst (zip l k) = l.
Proof. intros H. to_fmap. apply fst_zip. lia. Qed.

(** The data of the representation assembled by [build]: both dictionaries
    pair the grid elements, in order, with the standard elements broadcast
    to the grid and with the blocks of dof indices. *)
Lemma assemble_pairs (structure_shape : list nat) (ds : list Z)
  (sl : list (list slice)) (arr : ndarray StdElem) (dofs : ndarray Z) :
  map length sl = structure_shape ->
  Forall2 (fun x n => x = n \/ x = 1%nat) (nd_shape arr) structure_shape ->
  length (nd_data arr) = foldr Nat.mul 1%nat (nd_shape arr) ->
  let f := assemble structure_shape ds sl arr dofs in
  let funcs := broadcast_to (nd_shape arr) structure_shape (nd_data arr) in
  let blocks := map (fun s => block_offsets (nd_shape dofs) s 0) (ix_product sl) in
  function.fmap f = dict_of (zip (grid structure_shape)
                                 (map (fun el => [(el, None)]) funcs)) /\
  function.nmap f = dict_of (zip (grid structure_shape) blocks) /\
  length funcs = length (grid structure_shape) /\
  length blocks = length (grid structure_shape).
Proof.
  intros Hsl Hc Harr f funcs blocks. subst f funcs blocks. unfold assemble.
  cbn [function.fmap function.nmap].
  split; [apply (f_equal dict_of), (map_zip_snd (fun el => [(el, None)]))|].
  split; [reflexivity|].
  rewrite length_grid. split; [by apply length_broadcast_to|].
  by rewrite length_map, length_ix_product, Hsl.
Qed.

Lemma build_pairs (b : BasisBuilder) (structure_shape : list nat) (f : function.function) :
  build b (StructuredTopology structure_shape) = Ok f ->
  exists ds sl arr dofs,
    getdofshape b (map Z.of_nat structure_shape) = Ok ds /\
    getslices b (map Z.of_nat structure_shape) = Ok sl /\
    getstdelems b (map Z.of_nat structure_shape) = Ok arr /\
    np_reshape (arange (np_product ds)) ds = Ok dofs /\
    function.ndofs f = np_product ds /\
    function.ndims f = length structure_shape /\
    function.fmap f
    = dict_of (zip (grid structure_shape)
                   (map (fun el => [(el, None)])
                        (broadcast_to (nd_shape arr) structure_shape (nd_data arr)))) /\
    function.nmap f
    = dict_of (zip (grid structure_shape)
                   (map (fun s => block_offsets (nd_shape dofs) s 0) (ix_product sl))) /\
    length (broadcast_to (nd_shape arr) structure_shape (nd_data arr))
    = length (grid structure_shape) /\
    length (ix_product sl) = length (grid structure_shape).
Proof.
  intros H. apply build_ok_inv in H
    as (shape' & ds & sl & arr & dofs & [= <-] & Hlen & Hds & Hsl & Harr & Hdofs & ->).
  exists ds, sl, arr, dofs. repeat (split; [done|]).
  pose proof (getslices_shape _ _ _ Hsl) as [_ Hs].
  pose proof (stdelems_broadcastable _ _ _ Harr) as Ha.
  pose proof (getstdelems_size _ _ _ Harr) as Hsize.
  rewrite map_to_nat_of_nat in Hs.
  destruct (assemble_pairs structure_shape ds sl arr dofs Hs Ha Hsize) as (H1 & H2 & H3 & H4).
  rewrite length_map in H4. done.
Qed.

(** Property X8.  When [build] returns, [fmap] and [nmap] have an entry for
    every element of the grid and for nothing else: their keys are exactly
    the multi-indices below the element counts of the domain.  The
    representation records the dimensionality of the domain. *)
Theorem build_keys (b : BasisBuilder) (structure_shape : list nat) (f : function.function) :
  build b (StructuredTopology structure_shape) = Ok f ->
  function.ndims f = ndims b /\
  forall elem,
    (is_Some (function.fmap f !! elem) <-> Forall2 lt elem structure_shape) /\
    (is_Some (function.nmap f !! elem) <-> Forall2 lt elem structure_shape).
Proof.
  intros H. pose proof (build_ok_inv _ _ _ H) as (s & _ & _ & _ & _ & [= <-] & Hlen & _).
  apply build_pairs in H
    as (ds & sl & arr & dofs & _ & _ & _ & _ & _ & Hnd & Hf & Hn & Hla & Hlb).
  split; [congruence|]. intros elem.
  rewrite Hf, Hn, !dict_of_is_Some, !map_fst_zip, in_grid by (by rewrite ?length_map).
  done.
Qed.

Lemma build_keys_witness :
  exists f,
    build (ProductFunc (Spline 1 true false) (ModSpline2 [2] false false))
          (StructuredTopology [4%nat; 4%nat]) = Ok f /\
    is_Some (function.nmap f !! [3%nat; 0%nat]) /\
    ~ is_Some (function.nmap f !! [4%nat; 0%nat]).
Proof.
  destruct (build (ProductFunc (Spline 1 true false) (ModSpline2 [2] false false))
                  (StructuredTopology [4%nat; 4%nat])) as [f|e] eqn:Hb;
    [|vm_compute in Hb; discriminate].
  exists f. split; [reflexivity|].
  destruct (build_keys _ _ f Hb) as [_ Hkeys].
  split.
  - apply (Hkeys [3%nat; 0%nat]). repeat constructor.
  - intros Hs. apply (Hkeys [4%nat; 0%nat]) in Hs.
    inversion Hs as [|? ? ? ? Hlt _]; subst. lia.
Defined.

(** ** The dof indices of an element *)

Lemma length_block_offsets (dims : list nat) : forall s base,
  length (block_offsets dims s base) = block_size dims s.
Proof.
  induction dims as [|len dims IH]; intros s base; [reflexivity|]. simpl.
  apply length_flat_map_const. intros j. apply IH.
Qed.

Lemma block_size_app (dims1 dims2 : list nat) : forall s1 s2,
  length s1 = length dims1 ->
  block_size (dims1 ++ dims2) (s1 ++ s2)
  = (block_size dims1 s1 * block_size dims2 s2)%nat.
Proof.
  induction dims1 as [|len dims1 IH]; intros s1 s2 Hlen.
  - destruct s1; [simpl; lia | discriminate].
  - destruct s1 as [|sl s1]; [discriminate|]. simpl in *.
    rewrite IH by lia. lia.
Qed.

Lemma flat_map_map {A B C : Type} (f : A -> B) (g : B -> list C) (l : list A) :
  flat_map g (map f l) = flat_map (fun x => g (f x)) l.
Proof. induction l as [|x l IH]; [reflexivity|]. simpl. by rewrite IH. Qed.

Lemma map_flat_map {A B C : Type} (f : B -> C) (g : A -> list B) (l : list A) :
  map f (flat_map g l) = flat_map (fun x => map f (g x)) l.
Proof. induction l as [|x l IH]; [reflexivity|]. simpl. by rewrite map_app, IH. Qed.

Lemma flat_map_flat_map {A B C : Type} (f : A -> list B) (g : B -> list C) (l : list A) :
  flat_map g (flat_map f l) = flat_map (fun x => flat_map g (f x)) l.
Proof. induction l as [|x l IH]; [reflexivity|]. simpl. by rewrite flat_map_app, IH. Qed.

Lemma ix_product_app {A : Type} (a b : list (list A)) :
  ix_product (a ++ b) = flat_map (fun x => map (app x) (ix_product b)) (ix_product a).
Proof.
  induction a as [|axis a IH]; simpl.
  - by rewrite map_id, app_nil_r.
  - rewrite IH, flat_map_flat_map. apply flat_map_ext. intros x.
    rewrite map_flat_map, flat_map_map. apply flat_map_ext. intros t.
    by rewrite map_map.
Qed.

Lemma ix_product_single {A : Type} (l : list A) :
  ix_product [l] = map (fun x => [x]) l.
Proof. simpl. induction l as [|x l IH]; [reflexivity|]. simpl. by rewrite IH. Qed.

Lemma Forall2_flat_map {A B C D : Type} (R1 : A -> B -> Prop) (R : C -> D -> Prop)
  (f : A -> list C) (g : B -> list D) (l : list A) (k : list B) :
  Forall2 R1 l k -> (forall x y, R1 x y -> Forall2 R (f x) (g y)) ->
  Forall2 R (flat_map f l) (flat_map g k).
Proof.
  intros H Hfg. induction H as [|x y l k Hxy _ IH]; simpl; [constructor|].
  apply Forall2_app; [by apply Hfg | exact IH].
Qed.

(** The dof tensor has the dof shape as its shape, a dof count of -1
    standing for an axis without dofs. *)
Lemma np_reshape_shape (ds : list Z) (dofs : ndarray Z) :
  np_reshape (arange (np_product ds)) ds = Ok dofs -> nd_shape dofs = map Z.to_nat ds.
Proof.
  unfold np_reshape. destruct (existsb _ ds) eqn:Hneg; [discriminate|].
  apply existsb_lt_false in Hneg.
  destruct (count_unknown ds) as [|[|k]] eqn:Hcount; [| |discriminate].
  - destruct (_ =? _); [|discriminate]. by intros [= <-].
  - destruct (_ || _); [discriminate|]. intros [= <-]. simpl.
    pose proof (np_product_subst (-1) ds) as Hsub.
    rewrite map_subst_unknown, Hcount in Hsub.
    pose proof (np_product_nonneg _ (filter_known_nonneg _ Hneg)) as Hnn.
    change ((-1) ^ Z.of_nat 1) with (-1) in Hsub.
    assert (Hsize : Z.of_nat (length (arange (np_product ds))) = 0)
      by (rewrite length_arange; lia).
    rewrite Hsize. apply map_ext. intros n.
    destruct (Z.eqb_spec n (-1)) as [->|]; done.
Qed.

Lemma counts_agree_1d (N nelems : Z) (slices : list slice) (stdelems : list StdElem) :
  length slices = Z.to_nat nelems -> length stdelems = Z.to_nat nelems ->
  (forall e s el, slices !! e = Some s -> stdelems !! e = Some el ->
                  slice_len (Z.to_nat N) s = nshapes el) ->
  Forall2 (fun el s => length s = length [N] /\
                       nshapes el = block_size (map Z.to_nat [N]) s)
          stdelems (ix_product [slices]).
Proof.
  intros Hls Hle Hw. rewrite ix_product_single. to_fmap. apply Forall2_fmap_r.
  apply Forall2_same_length_lookup_2; [congruence|].
  intros e el s Hel Hs. split; [reflexivity|]. simpl.
  rewrite <- (Hw e s el Hs Hel). unfold slice_len. lia.
Qed.

Lemma counts_agree (b : BasisBuilder) : forall shape ds sl arr,
  pos_degrees b -> Forall (fun n => 1 <= n) shape ->
  getdofshape b shape = Ok ds -> getslices b shape = Ok sl ->
  getstdelems b shape = Ok arr ->
  Forall2 (fun el s => length s = length ds /\
                       nshapes el = block_size (map Z.to_nat ds) s)
          (nd_data arr) (ix_product sl).
Proof.
  induction b as [degree rf rl | ifaces rf rl | b1 IH1 b2 IH2];
    intros shape ds sl arr Hwf Hshape Hds Hsl Harr.
  - pose proof (getdofshape_length _ _ _ Hds) as [Hlen _].
    destruct shape as [|nelems [|? ?]]; try discriminate.
    inversion Hshape as [|? ? Hn _]; subst. simpl in Hwf.
    rewrite (Spline_getstdelems_1 degree nelems rf rl Hn) in Harr by lia.
    simpl in Hds, Hsl. injection Hds as <-. injection Hsl as <-. injection Harr as <-.
    apply (counts_agree_1d _ nelems).
    + apply length_windows.
    + simpl. rewrite length_imap, length_PolyLine_spline by lia. done.
    + intros e s el Hs Hel.
      pose proof (lookup_lt_Some _ _ _ Hs) as He. rewrite length_windows in He.
      rewrite lookup_windows in Hs by lia. injection Hs as <-.
      simpl in Hel. rewrite list_lookup_imap, lookup_PolyLine_spline in Hel by lia.
      injection Hel as <-. apply Spline_width; lia.
  - pose proof (getdofshape_length _ _ _ Hds) as [Hlen _].
    destruct shape as [|nelems [|? ?]]; try discriminate.
    simpl in Hds. injection Hds as <-.
    destruct (sorted_ifaces ifaces nelems) as [positions|e] eqn:Hs;
      [|destruct (ModSpline2_queries_raise _ rf rl _ _ Hs) as [Hr _]; congruence].
    rewrite (ModSpline2_getslices_1 _ _ _ rf rl Hs) in Hsl. injection Hsl as <-.
    rewrite (ModSpline2_getstdelems_1 _ _ _ rf rl Hs) in Harr. injection Harr as <-.
    destruct (sorted_ifaces_spaced _ _ _ Hs) as [Hsp Hn4].
    apply (counts_agree_1d _ nelems).
    + by rewrite length_imap, length_windows.
    + simpl. by rewrite length_imap, length_PolyLine_spline.
    + intros e s el Hsl Hel.
      pose proof (lookup_lt_Some _ _ _ Hsl) as He.
      rewrite length_imap, length_windows in He.
      rewrite list_lookup_imap, lookup_windows in Hsl by lia. injection Hsl as <-.
      simpl in Hel. rewrite list_lookup_imap, lookup_PolyLine_spline in Hel by lia.
      injection Hel as <-.
      by apply (ModSpline2_width positions nelems rf rl e Hsp Hn4 ltac:(lia)).
  - destruct Hwf as [Hwf1 Hwf2]. simpl in Hds, Hsl, Harr.
    apply rbind_ok in Hds as (u & Hu & Hds). apply rbind_ok in Hds as (d1 & Hd1 & Hds).
    apply rbind_ok in Hds as (d2 & Hd2 & [= <-]).
    apply rbind_ok in Hsl as (u' & _ & Hsl). apply rbind_ok in Hsl as (s1 & Hs1 & Hsl).
    apply rbind_ok in Hsl as (s2 & Hs2 & [= <-]).
    apply rbind_ok in Harr as (u'' & _ & Harr). apply rbind_ok in Harr as (e1 & He1 & Harr).
    apply rbind_ok in Harr as (e2 & He2 & [= <-]).
    specialize (IH1 _ _ _ _ Hwf1 (Forall_take _ _ _ Hshape) Hd1 Hs1 He1).
    specialize (IH2 _ _ _ _ Hwf2 (Forall_drop _ _ _ Hshape) Hd2 Hs2 He2).
    rewrite ix_product_app. simpl.
    apply (Forall2_flat_map _ _ _ _ _ _ IH1). intros x t1 [Hl1 Hx].
    to_fmap. apply Forall2_fmap.
    eapply Forall2_impl; [exact IH2|]. simpl. intros y t2 [Hl2 Hy].
    split; [rewrite !length_app; lia|].
    change (@fmap list _ ?A ?B) with (@map A B). rewrite map_app.
    rewrite block_size_app by (rewrite length_map; done).
    cbn [nshapes]. by rewrite Hx, Hy.
Qed.

Lemma dict_of_zip_lookup {V : Type} (keys : list (list nat)) (vals : list V)
  (p : nat) (k : list nat) (v : V) :
  NoDup keys -> length keys = length vals ->
  keys !! p = Some k -> vals !! p = Some v ->
  dict_of (zip keys vals) !! k = Some v.
Proof.
  intros Hnd Hlen Hk Hv. apply dict_of_lookup.
  - by rewrite map_fst_zip.
  - apply list_elem_of_In, list_elem_of_lookup. exists p.
    apply lookup_zip_with_Some. by exists k, v.
Qed.

(** Property X9.  For a builder whose [Spline] factors have a degree of at
    least 1, on a structured domain with at least one element per axis:
    when [build] returns, every element of the grid has exactly one pair
    [(funcs, None)] in [fmap] and an array of dof indices in [nmap], and the
    array has as many entries as [funcs] has shape functions, also for
    products, where both are products over the axes. *)
Theorem build_counts_agree (b : BasisBuilder) (structure_shape : list nat)
  (f : function.function) :
  pos_degrees b ->
  Forall (fun n => (1 <= n)%nat) structure_shape ->
  build b (StructuredTopology structure_shape) = Ok f ->
  forall elem, Forall2 lt elem structure_shape ->
    exists funcs dofs,
      function.fmap f !! elem = Some [(funcs, None)] /\
      function.nmap f !! elem = Some dofs /\
      length dofs = nshapes funcs.
Proof.
  intros Hwf Hshape Hbuild elem Helem.
  apply build_pairs in Hbuild
    as (ds & sl & arr & dofs & Hds & Hsl & Harr & Hdofs & _ & _ & Hf & Hn & Hla & Hlb).
  assert (Hsame : broadcast_to (nd_shape arr) structure_shape (nd_data arr) = nd_data arr).
  { pose proof (getstdelems_shape_pos _ _ _ Hwf Harr) as Hs.
    rewrite map_to_nat_of_nat in Hs. rewrite <- Hs.
    apply broadcast_to_same. by apply (getstdelems_size b (map Z.of_nat structure_shape)). }
  rewrite Hsame in Hf, Hla.
  assert (Hcount : Forall2 (fun el s => length s = length ds /\
                                        nshapes el = block_size (map Z.to_nat ds) s)
                           (nd_data arr) (ix_product sl)).
  { apply (counts_agree b (map Z.of_nat structure_shape)); try done.
    apply Forall_forall. intros x Hx.
    apply list_elem_of_In, in_map_iff in Hx as (n & <- & Hn').
    rewrite Forall_forall in Hshape. apply list_elem_of_In in Hn'.
    specialize (Hshape n Hn'). simpl in Hshape. lia. }
  apply in_grid, list_elem_of_In, list_elem_of_lookup in Helem as [p Hp].
  pose proof (lookup_lt_Some _ _ _ Hp) as Hlt.
  destruct (lookup_lt_is_Some_2 (nd_data arr) p) as [el Hel]; [lia|].
  destruct (lookup_lt_is_Some_2 (ix_product sl) p) as [s Hs]; [lia|].
  destruct (Forall2_lookup_lr _ _ _ _ _ _ Hcount Hel Hs) as [_ Hnum].
  exists el, (block_offsets (nd_shape dofs) s 0).
  rewrite Hf, Hn. split; [|split].
  - apply (dict_of_zip_lookup _ _ p); [apply NoDup_grid | by rewrite length_map | done|].
    to_fmap. by rewrite list_lookup_fmap, Hel.
  - apply (dict_of_zip_lookup _ _ p); [apply NoDup_grid | by rewrite length_map | done|].
    to_fmap. by rewrite list_lookup_fmap, Hs.
  - by rewrite length_block_offsets, (np_reshape_shape _ _ Hdofs).
Qed.

Lemma build_counts_agree_witness :
  exists f funcs dofs,
    build (ProductFunc (Spline 1 true false) (ModSpline2 [2] false false))
          (StructuredTopology [4%nat; 4%nat]) = Ok f /\
    function.fmap f !! [0%nat; 3%nat] = Some [(funcs, None)] /\
    function.nmap f !! [0%nat; 3%nat] = Some dofs /\
    length dofs = nshapes funcs.
Proof.
  destruct (build (ProductFunc (Spline 1 true false) (ModSpline2 [2] false false))
                  (StructuredTopology [4%nat; 4%nat])) as [f|e] eqn:Hb;
    [|vm_compute in Hb; discriminate].
  assert (Hwf : pos_degrees (ProductFunc (Spline 1 true false) (ModSpline2 [2] false false)))
    by (simpl; split; [lia | exact I]).
  assert (Hshape : Forall (fun n => (1 <= n)%nat) [4%nat; 4%nat])
    by (repeat constructor; lia).
  assert (Helem : Forall2 lt [0%nat; 3%nat] [4%nat; 4%nat])
    by (repeat constructor; lia).
  destruct (build_counts_agree _ _ f Hwf Hshape Hb _ Helem) as (funcs & dofs & H1 & H2 & H3).
  exists f, funcs, dofs. split; [reflexivity|]. split; [exact H1|].
  split; [exact H2 | exact H3].
Defined.

Lemma flat_map_sorted (f : Z -> list Z) (lo hi : Z -> Z) (r : list Z) :
  StronglySorted Z.lt r ->
  (forall j, In j r -> StronglySorted Z.lt (f j)) ->
  (forall j o, In j r -> In o (f j) -> lo j <= o < hi j) ->
  (forall j j', j < j' -> hi j <= lo j') ->
  StronglySorted Z.lt (flat_map f r).
Proof.
  intros Hr Hf Hb Hmono. induction Hr as [|j r Hr IH Hj]; simpl; [constructor|].
  apply StronglySorted_app. split; [|split].
  - intros o o' Ho Ho'. apply list_elem_of_In in Ho, Ho'.
    apply in_flat_map in Ho' as (j' & Hj' & Ho').
    rewrite Forall_forall in Hj. specialize (Hj j' ltac:(by apply list_elem_of_In)).
    pose proof (Hb j o (or_introl eq_refl) Ho).
    pose proof (Hb j' o' (or_intror Hj') Ho').
    specialize (Hmono j j' Hj). lia.
  - apply Hf. by left.
  - apply IH.
    + intros j0 Hj0. apply Hf. by right.
    + intros j0 o Hj0 Ho. apply (Hb j0); [by right | done].
Qed.

Lemma seqZ_sorted (a len : Z) : StronglySorted Z.lt (seqZ a len).
Proof.
  destruct (Z.le_gt_cases len 0) as [Hle | Hgt]; [rewrite seqZ_nil by done; constructor|].
  rewrite <- (Z2Nat.id len) by lia. generalize (Z.to_nat len). clear. intros n. revert a.
  induction n as [|n IH]; intros a; [rewrite seqZ_nil by done; constructor|].
  rewrite seqZ_cons by lia. constructor.
  - replace (Z.pred (Z.of_nat (S n))) with (Z.of_nat n) by lia. apply IH.
  - apply Forall_forall. intros x Hx. apply elem_of_seqZ in Hx. lia.
Qed.

Lemma block_offsets_sorted (dims : list nat) : forall s base,
  0 <= base -> StronglySorted Z.lt (block_offsets dims s base).
Proof.
  induction dims as [|len dims IH]; intros s base Hbase; simpl.
  - repeat constructor.
  - set (P := np_product (map Z.of_nat dims)).
    pose proof (np_product_of_nat dims) as HP. fold P in HP.
    assert (Hrange : forall j,
              In j (match s with
                    | [] => seqZ 0 (Z.of_nat len)
                    | sl :: _ => slice_range len sl
                    end) -> 0 <= j).
    { intros j Hj. destruct s as [|sl s].
      - apply list_elem_of_In, elem_of_seqZ in Hj. lia.
      - apply list_elem_of_In, slice_range_bounds in Hj. lia. }
    apply (flat_map_sorted _ (fun j => (base * Z.of_nat len + j) * P)
                             (fun j => (base * Z.of_nat len + j + 1) * P)).
    + destruct s as [|sl s]; [apply seqZ_sorted|].
      unfold slice_range, slice_indices. apply seqZ_sorted.
    + intros j Hj. apply IH. specialize (Hrange j Hj). nia.
    + intros j o Hj Ho. specialize (Hrange j Hj).
      apply block_offsets_bound in Ho; [|nia]. fold P in Ho. lia.
    + intros j j' Hjj. nia.
Qed.

(** Property X10.  When [build] returns, every array of dof indices in
    [nmap] lists valid dofs, between 0 and [ndofs - 1], in strictly
    ascending order, so no dof occurs twice in the array of an element. *)
Theorem nmap_entries_ascending (b : BasisBuilder) (topo : Topology)
  (f : function.function) (elem : list nat) (dofs : list Z) :
  build b topo = Ok f ->
  function.nmap f !! elem = Some dofs ->
  StronglySorted Z.lt dofs /\ NoDup dofs /\
  Forall (fun d => 0 <= d < function.ndofs f) dofs.
Proof.
  intros Hbuild Hdofs.
  destruct topo as [structure_shape | dims]; [|discriminate].
  apply build_pairs in Hbuild
    as (ds & sl & arr & tensor & _ & _ & _ & Hresh & Hnd & _ & _ & Hn & _ & _).
  rewrite Hn in Hdofs. apply dict_of_lookup_inv in Hdofs.
  apply list_elem_of_In, elem_of_zip_r, list_elem_of_In, in_map_iff in Hdofs as (s & <- & _).
  pose proof (block_offsets_sorted (nd_shape tensor) s 0 ltac:(lia)) as Hsorted.
  split; [exact Hsorted|]. split.
  - clear -Hsorted. induction Hsorted as [|x l _ IH Hx]; constructor; [|exact IH].
    intros Hin. rewrite Forall_forall in Hx. specialize (Hx x Hin). lia.
  - apply Forall_forall. intros d Hd. apply list_elem_of_In in Hd.
    apply block_offsets_bound in Hd; [|lia].
    destruct (np_reshape_inv _ _ _ Hresh) as (_ & _ & Hsize).
    rewrite Hsize, length_arange in Hd. rewrite Hnd. lia.
Qed.

Lemma nmap_entries_ascending_witness :
  exists f dofs,
    build (ModSpline2 [2; -3] false true) (StructuredTopology [9%nat]) = Ok f /\
    function.nmap f !! [3%nat] = Some dofs /\
    StronglySorted Z.lt dofs /\ NoDup dofs /\
    Forall (fun d => 0 <= d < function.ndofs f) dofs.
Proof.
  destruct (build (ModSpline2 [2; -3] false true) (StructuredTopology [9%nat]))
    as [f|e] eqn:Hb; [|vm_compute in Hb; discriminate].
  destruct (function.nmap f !! [3%nat]) as [dofs|] eqn:Hd;
    [|vm_compute in Hb; injection Hb as <-; vm_compute in Hd; discriminate].
  exists f, dofs. split; [reflexivity|]. split; [exact Hd|].
  exact (nmap_entries_ascending _ _ f [3%nat] dofs Hb Hd).
Defined.

Lemma block_offsets_1d (len : nat) (s : slice) :
  block_offsets [len] [s] 0 = slice_range len s.
Proof.
  simpl. induction (slice_range len s) as [|j l IH]; [reflexivity|].
  simpl. by rewrite IH.
Qed.

Lemma grid_1d (nelems : nat) : grid [nelems] = map (fun e => [e]) (seq 0 nelems).
Proof. exact (ix_product_single (seq 0 nelems)). Qed.

(** Property X11.  On a one-dimensional domain, when [build] returns, the
    array of dof indices that [nmap] holds for element [e] is exactly the
    range selected by the slice that [getslices] returns for [e], in
    ascending order. *)
Theorem build_1d_nmap (b : BasisBuilder) (nelems : nat) (f : function.function) :
  build b (StructuredTopology [nelems]) = Ok f ->
  exists N slices,
    getdofshape b [Z.of_nat nelems] = Ok [N] /\
    getslices b [Z.of_nat nelems] = Ok [slices] /\
    length slices = nelems /\
    forall e s, slices !! e = Some s ->
      function.nmap f !! [e] = Some (slice_range (Z.to_nat N) s).
Proof.
  intros Hbuild.
  apply build_pairs in Hbuild
    as (ds & sl & arr & dofs & Hds & Hsl & _ & Hresh & _ & _ & _ & Hn & _ & Hlb).
  change (map Z.of_nat [nelems]) with [Z.of_nat nelems] in *.
  destruct (getdofshape_length _ _ _ Hds) as [Hlen Hdl].
  destruct (getslices_shape _ _ _ Hsl) as [_ Hshape].
  simpl in Hshape. rewrite Nat2Z.id in Hshape.
  destruct ds as [|N [|? ?]]; simpl in Hdl, Hlen; try lia.
  destruct sl as [|slices [|? ?]]; try discriminate. injection Hshape as Hslices.
  exists N, slices. repeat (split; [done|]).
  intros e s Hs. rewrite Hn.
  pose proof (lookup_lt_Some _ _ _ Hs) as He.
  apply (dict_of_zip_lookup _ _ e); [apply NoDup_grid | by rewrite length_map | |].
  - rewrite grid_1d. to_fmap. rewrite list_lookup_fmap, lookup_seq_lt by lia.
    reflexivity.
  - rewrite ix_product_single. to_fmap. rewrite !list_lookup_fmap, Hs. simpl.
    rewrite (np_reshape_shape _ _ Hresh). simpl. f_equal.
    apply (block_offsets_1d (Z.to_nat N) s).
Qed.

Lemma build_1d_nmap_witness :
  exists f,
    build (Spline 2 true false) (StructuredTopology [3%nat]) = Ok f /\
    function.nmap f !! [2%nat] = Some [1; 2; 3].
Proof.
  destruct (build (Spline 2 true false) (StructuredTopology [3%nat])) as [f|e] eqn:Hb;
    [|vm_compute in Hb; discriminate].
  exists f. split; [reflexivity|].
  destruct (build_1d_nmap _ _ f Hb) as (N & slices & HN & Hs & _ & Hall).
  injection HN as <-. injection Hs as <-.
  exact (Hall 2%nat (Slice 1 4) eq_refl).
Defined.

(** ** Degree 0: one standard element for all elements *)

Lemma broadcast_to_one {A : Type} (n : nat) (x : A) :
  broadcast_to [1%nat] [n] [x] = map (fun _ => x) (seq 0 n).
Proof.
  simpl. induction (seq 0 n) as [|j l IH]; [reflexivity|]. simpl. by rewrite IH.
Qed.

(** Property X18.  A [Spline] of degree 0 on a one-dimensional domain of at
    least one element: [build] returns, [fmap] gives every element the
    same standard element, the constant of the library after the endpoint
    removals, which both apply to it, and [nmap] gives element [e] the
    dofs of its sliding window of width 1.  So with a removal flag no
    element has a shape function, while on two or more elements (three
    when both flags are set) element 1, or element 0 when only [rmlast] is
    set, still has one dof. *)
Theorem Spline0_build (nelems : nat) (rmfirst rmlast : bool) :
  (1 <= nelems)%nat ->
  let N := Z.of_nat nelems - Z.b2z rmfirst - Z.b2z rmlast in
  let x := PolyLine 0 (Z.of_nat nelems) 0 in
  let x1 := if rmfirst then drop_first_shape x else x in
  let x2 := if rmlast then drop_last_shape x1 else x1 in
  exists f,
    build (Spline 0 rmfirst rmlast) (StructuredTopology [nelems]) = Ok f /\
    nshapes x2 = (if rmfirst || rmlast then 0 else 1)%nat /\
    (forall e, (e < nelems)%nat ->
       function.fmap f !! [e] = Some [(x2, None)] /\
       function.nmap f !! [e]
       = Some (slice_range (Z.to_nat N)
                 (Slice (Z.max 0 (Z.of_nat e - Z.b2z rmfirst))
                        (Z.min N (Z.of_nat e - Z.b2z rmfirst + 1))))) /\
    (2 + Z.b2z (rmfirst && rmlast) <= Z.of_nat nelems ->
     exists d, function.nmap f !! [if rmfirst then 1%nat else 0%nat] = Some [d]).
Proof.
  intros Hn N x x1 x2.
  destruct (Spline_build_returns 0 rmfirst rmlast nelems Hn ltac:(lia)) as (f & Hb & _).
  exists f. split; [exact Hb|].
  split; [subst x2 x1 x; by destruct rmfirst, rmlast|].
  apply build_pairs in Hb
    as (ds & sl & arr & dofs & Hds & Hsl & Harr & Hresh & _ & _ & Hf & Hm & _ & _).
  change (map Z.of_nat [nelems]) with [Z.of_nat nelems] in *.
  rewrite Spline_getstdelems_0 in Harr. injection Harr as <-.
  simpl in Hds, Hsl. injection Hds as <-. injection Hsl as <-.
  replace (Z.of_nat nelems + 0 - Z.b2z rmfirst - Z.b2z rmlast) with N in * by (subst N; lia).
  assert (Hx2 : removed_at rmfirst rmlast 1 0 (PolyLine 0 (Z.of_nat nelems) 0) = x2)
    by (subst x2 x1 x; by destruct rmfirst, rmlast).
  cbn [array1 nd_shape nd_data length] in Hf. rewrite Hx2, broadcast_to_one in Hf.
  assert (Hlookup : forall e, (e < nelems)%nat ->
            function.fmap f !! [e] = Some [(x2, None)] /\
            function.nmap f !! [e]
            = Some (slice_range (Z.to_nat N)
                      (Slice (Z.max 0 (Z.of_nat e - Z.b2z rmfirst))
                             (Z.min N (Z.of_nat e - Z.b2z rmfirst + 1))))).
  { intros e He.
    assert (Hg : grid [nelems] !! e = Some [e]).
    { rewrite grid_1d. to_fmap. by rewrite list_lookup_fmap, lookup_seq_lt by lia. }
    split.
    - rewrite Hf. apply (dict_of_zip_lookup _ _ e); [apply NoDup_grid | | done |].
      + by rewrite !length_map, length_seq, length_grid; simpl; lia.
      + to_fmap. by rewrite !list_lookup_fmap, lookup_seq_lt by lia.
    - rewrite Hm. apply (dict_of_zip_lookup _ _ e); [apply NoDup_grid | | done |].
      + rewrite length_map, length_ix_product, length_grid. simpl.
        rewrite length_windows. lia.
      + rewrite ix_product_single. to_fmap. rewrite !list_lookup_fmap.
        rewrite lookup_windows by lia. simpl.
        rewrite (np_reshape_shape _ _ Hresh). simpl. f_equal.
        apply (block_offsets_1d (Z.to_nat N)). }
  split; [exact Hlookup|].
  intros Hmany.
  destruct (Hlookup (if rmfirst then 1%nat else 0%nat)) as [_ Hd].
  { destruct rmfirst, rmlast; simpl in *; lia. }
  rewrite Hd.
  exists (Z.max 0 (Z.of_nat (if rmfirst then 1%nat else 0%nat) - Z.b2z rmfirst)).
  f_equal. subst N.
  rewrite slice_range_inside by (destruct rmfirst, rmlast; simpl in *; lia).
  destruct rmfirst, rmlast; simpl in *;
    match goal with |- seqZ ?a ?n = _ => replace n with 1 by lia end; reflexivity.
Qed.

Lemma Spline0_build_witness :
  exists f d,
    build (Spline 0 true false) (StructuredTopology [3%nat]) = Ok f /\
    function.fmap f !! [1%nat] = Some [(drop_first_shape (PolyLine 0 3 0), None)] /\
    function.nmap f !! [1%nat] = Some [d].
Proof.
  destruct (Spline0_build 3 true false ltac:(lia)) as (f & Hb & _ & He & Hd).
  destruct (Hd ltac:(simpl; lia)) as [d Hd1].
  exists f, d. split; [exact Hb|].
  split; [exact (proj1 (He 1%nat ltac:(lia))) | exact Hd1].
Defined.

(** ** Products of builders *)

Lemma outer_product_lookup (ad bd : list StdElem) (p q : nat) (x y : StdElem) :
  ad !! p = Some x -> bd !! q = Some y ->
  flat_map (fun x => map (PolyProduct x) bd) ad !! (p * length bd + q)%nat
  = Some (PolyProduct x y).
Proof.
  revert p. induction ad as [|a ad IH]; intros p Hx Hy; [discriminate|].
  pose proof (lookup_lt_Some _ _ _ Hy) as Hq. simpl.
  destruct p as [|p].
  - injection Hx as ->. replace (0 * length bd + q)%nat with q by lia.
    rewrite lookup_app_l by (rewrite length_map; lia).
    to_fmap. by rewrite list_lookup_fmap, Hy.
  - rewrite lookup_app_r by (rewrite length_map; lia). rewrite length_map.
    replace (S p * length bd + q - length bd)%nat with (p * length bd + q)%nat by lia.
    by apply IH.
Qed.

Lemma product_queries_split (A B : BasisBuilder) (s1 s2 : list Z) :
  length s1 = ndims A -> length s2 = ndims B ->
  getdofshape (ProductFunc A B) (s1 ++ s2)
  = (let! d1 := getdofshape A s1 in let! d2 := getdofshape B s2 in Ok (d1 ++ d2)) /\
  getslices (ProductFunc A B) (s1 ++ s2)
  = (let! sl1 := getslices A s1 in let! sl2 := getslices B s2 in Ok (sl1 ++ sl2)) /\
  getstdelems (ProductFunc A B) (s1 ++ s2)
  = (let! a := getstdelems A s1 in let! b := getstdelems B s2 in Ok (outer_product a b)).
Proof.
  intros H1 H2. simpl.
  rewrite assert_len_ok by (rewrite length_app; lia). simpl.
  rewrite <- H1, take_app_length, drop_app_length. done.
Qed.

(** Property X12.  On the concatenation of the element counts of two
    builders, the queries of their product return the concatenated dof
    shapes and slice lists, and the standard element of the grid element
    made of entry [p] of the first and entry [q] of the second factor is the
    product of the two standard elements, with the product of their
    shape-function counts. *)
Theorem ProductFunc_elements (A B : BasisBuilder) (s1 s2 : list Z)
  (d1 d2 : list Z) (sl1 sl2 : list (list slice)) (a b : ndarray StdElem) :
  getdofshape A s1 = Ok d1 -> getslices A s1 = Ok sl1 -> getstdelems A s1 = Ok a ->
  getdofshape B s2 = Ok d2 -> getslices B s2 = Ok sl2 -> getstdelems B s2 = Ok b ->
  getdofshape (ProductFunc A B) (s1 ++ s2) = Ok (d1 ++ d2) /\
  getslices (ProductFunc A B) (s1 ++ s2) = Ok (sl1 ++ sl2) /\
  exists arr,
    getstdelems (ProductFunc A B) (s1 ++ s2) = Ok arr /\
    nd_shape arr = nd_shape a ++ nd_shape b /\
    forall p q x y,
      nd_data a !! p = Some x -> nd_data b !! q = Some y ->
      nd_data arr !! (p * length (nd_data b) + q)%nat = Some (PolyProduct x y) /\
      nshapes (PolyProduct x y) = (nshapes x * nshapes y)%nat.
Proof.
  intros Hd1 Hs1 Ha Hd2 Hs2 Hb.
  destruct (getdofshape_length _ _ _ Hd1) as [Hl1 _].
  destruct (getdofshape_length _ _ _ Hd2) as [Hl2 _].
  destruct (product_queries_split A B s1 s2 Hl1 Hl2) as (-> & -> & ->).
  rewrite Hd1, Hd2, Hs1, Hs2, Ha, Hb. simpl.
  split; [done|]. split; [done|]. eexists. split; [reflexivity|].
  split; [reflexivity|]. intros p q x y Hx Hy. split; [|reflexivity].
  by apply outer_product_lookup.
Qed.

Lemma ProductFunc_elements_witness :
  exists arr,
    getstdelems (ProductFunc (Spline 1 true false) (ModSpline2 [2] false false)) [4; 4] = Ok arr /\
    nd_data arr !! 3%nat
    = Some (PolyProduct (drop_first_shape (PolyLine 1 4 0))
                        (extract (PolyLine 2 4 3) iface_extraction_p1)).
Proof.
  destruct (ProductFunc_elements (Spline 1 true false) (ModSpline2 [2] false false)
              [4] [4] _ _ _ _ _ _ eq_refl eq_refl eq_refl eq_refl eq_refl eq_refl)
    as (_ & _ & arr & Harr & _ & Hlook).
  exists arr. split; [exact Harr|].
  exact (proj1 (Hlook 0%nat 3%nat _ _ eq_refl eq_refl)).
Defined.

Lemma np_product_app (l1 l2 : list Z) :
  np_product (l1 ++ l2) = np_product l1 * np_product l2.
Proof. induction l1 as [|x l1 IH]; simpl; [lia | rewrite IH; lia]. Qed.

Lemma np_reshape_nonneg (ds : list Z) :
  Forall (fun n => 0 <= n) ds ->
  exists dofs, np_reshape (arange (np_product ds)) ds = Ok dofs.
Proof.
  intros Hds. unfold np_reshape.
  assert (existsb (fun n => n <? -1) ds = false) as ->.
  { induction Hds as [|d ds Hd _ IH]; [reflexivity|]. simpl.
    destruct (Z.ltb_spec d (-1)); [lia | exact IH]. }
  assert (count_unknown ds = 0%nat) as ->.
  { unfold count_unknown. induction Hds as [|d ds Hd _ IH]; [reflexivity|].
    rewrite filter_cons. destruct (decide (d = -1)); [lia | exact IH]. }
  pose proof (np_product_nonneg ds Hds). rewrite length_arange.
  destruct (Z.eqb_spec (np_product ds) (Z.of_nat (Z.to_nat (np_product ds))));
    [by eexists | lia].
Qed.

Lemma np_reshape_nonneg_inv (ds : list Z) (dofs : ndarray Z) :
  np_reshape (arange (np_product ds)) ds = Ok dofs -> 0 <= np_product ds ->
  Forall (fun n => 0 <= n) ds.
Proof.
  unfold np_reshape. destruct (existsb _ ds) eqn:Hneg; [discriminate|].
  apply existsb_lt_false in Hneg. intros H Hpos.
  destruct (count_unknown ds) as [|[|k]] eqn:Hcount; [| |discriminate].
  - apply count_unknown_0 in Hcount.
    rewrite Forall_forall in *. intros x Hx.
    specialize (Hneg x Hx). specialize (Hcount x Hx). lia.
  - exfalso. destruct (Z.eqb_spec (np_product (filter (fun n => n <> -1) ds)) 0) as [|Hk];
      [discriminate|].
    pose proof (np_product_subst (-1) ds) as Hsub.
    rewrite map_subst_unknown, Hcount in Hsub.
    pose proof (np_product_nonneg _ (filter_known_nonneg _ Hneg)) as Hnn.
    change ((-1) ^ Z.of_nat 1) with (-1) in Hsub. lia.
Qed.

(** Property X13.  If two builders can be built on two structured domains
    and neither dof count is negative, their product can be built on the
    domain with the element counts of the first followed by those of the
    second; its dof count is the product of the two dof counts and its
    dimensionality the sum of the two dimensionalities. *)
Theorem ProductFunc_build (A B : BasisBuilder) (s1 s2 : list nat)
  (fa fb : function.function) :
  build A (StructuredTopology s1) = Ok fa ->
  build B (StructuredTopology s2) = Ok fb ->
  0 <= function.ndofs fa -> 0 <= function.ndofs fb ->
  exists f,
    build (ProductFunc A B) (StructuredTopology (s1 ++ s2)) = Ok f /\
    function.ndofs f = function.ndofs fa * function.ndofs fb /\
    function.ndims f = (function.ndims fa + function.ndims fb)%nat.
Proof.
  intros Ha Hb Hna Hnb.
  apply build_ok_inv in Ha
    as (s1' & d1 & sl1 & a & dofs1 & [= <-] & Hl1 & Hd1 & Hs1 & Ha & Hr1 & ->).
  apply build_ok_inv in Hb
    as (s2' & d2 & sl2 & b & dofs2 & [= <-] & Hl2 & Hd2 & Hs2 & Hb & Hr2 & ->).
  cbn [assemble function.ndofs function.ndims] in *.
  pose proof (np_reshape_nonneg_inv _ _ Hr1 Hna) as Hp1.
  pose proof (np_reshape_nonneg_inv _ _ Hr2 Hnb) as Hp2.
  destruct (np_reshape_nonneg (d1 ++ d2)) as [dofs Hdofs]; [by apply Forall_app|].
  destruct (product_queries_split A B (map Z.of_nat s1) (map Z.of_nat s2))
    as (Hqd & Hqs & Hqe); [by rewrite length_map..|].
  rewrite Hd1, Hd2 in Hqd. rewrite Hs1, Hs2 in Hqs. rewrite Ha, Hb in Hqe.
  cbn [rbind] in Hqd, Hqs, Hqe. rewrite <- map_app in Hqd, Hqs, Hqe.
  eexists. split.
  - eapply build_structured;
      [simpl; rewrite length_app; lia | exact Hqd | exact Hqs | exact Hqe | exact Hdofs].
  - cbn [assemble function.ndofs function.ndims].
    by rewrite np_product_app, length_app.
Qed.

Lemma ProductFunc_build_witness :
  exists f,
    build (ProductFunc (Spline 1 false false) (Spline 1 false false))
          (StructuredTopology ([3%nat] ++ [3%nat])) = Ok f /\
    function.ndofs f = 16.
Proof.
  destruct (build (Spline 1 false false) (StructuredTopology [3%nat])) as [fa|e] eqn:Ha;
    [|vm_compute in Ha; discriminate].
  assert (Hna : function.ndofs fa = 4)
    by (vm_compute in Ha; injection Ha as <-; reflexivity).
  destruct (ProductFunc_build _ _ _ _ fa fa Ha Ha ltac:(lia) ltac:(lia))
    as (f & Hf & Hnd & _).
  exists f. split; [exact Hf|]. rewrite Hnd, Hna. reflexivity.
Defined.

(** ** The slices along an axis *)

Lemma spaced_members (hi : Z) (positions : list Z) (n n' : Z) : forall lo,
  spaced lo hi positions -> In n positions -> In n' positions ->
  n = n' \/ n + 4 <= n' \/ n' + 4 <= n.
Proof.
  induction positions as [|m rest IH]; intros lo Hsp Hn Hn'; [destruct Hn|].
  destruct Hsp as [Hm Hrest].
  pose proof (spaced_Forall _ _ _ Hrest) as Hall. rewrite Forall_forall in Hall.
  destruct Hn as [<- | Hn], Hn' as [<- | Hn'].
  - by left.
  - apply list_elem_of_In, Hall in Hn'. lia.
  - apply list_elem_of_In, Hall in Hn. lia.
  - by apply (IH (m + 4)).
Qed.

Lemma ndims_positive (b : BasisBuilder) : (1 <= ndims b)%nat.
Proof. induction b; simpl; lia. Qed.

Lemma Spline_windows_slide (degree nelems : Z) (rmfirst rmlast : bool) (e : Z) :
  1 <= nelems -> 0 <= degree -> 0 <= e < nelems ->
  let N := nelems + degree - Z.b2z rmfirst - Z.b2z rmlast in
  let s := fun e => Slice (Z.max 0 (e - Z.b2z rmfirst))
                          (Z.min N (e - Z.b2z rmfirst + (degree + 1))) in
  0 <= N ->
  (0 <= start (s e) <= stop (s e) /\ stop (s e) <= N) /\
  (e + 1 < nelems ->
   start (s e) <= start (s (e + 1)) <= stop (s e) /\ stop (s e) <= stop (s (e + 1))).
Proof.
  intros Hn Hd He N s HN. subst s N. cbn [start stop].
  destruct rmfirst, rmlast; cbn [Z.b2z] in *; lia.
Qed.

Lemma ModSpline2_windows_slide (positions : list Z) (nelems : Z) (rmfirst rmlast : bool)
  (e : Z) :
  spaced 2 (nelems - 2) positions -> 0 <= e < nelems ->
  let N := nelems + 2 - Z.b2z rmfirst - Z.b2z rmlast in
  let s := fun e => owned_slice N rmfirst positions e
                      (Slice (Z.max 0 (e - Z.b2z rmfirst))
                             (Z.min N (e - Z.b2z rmfirst + 3))) in
  (0 <= start (s e) <= stop (s e) /\ stop (s e) <= N) /\
  (e + 1 < nelems ->
   start (s e) <= start (s (e + 1)) <= stop (s e) /\ stop (s e) <= stop (s (e + 1))).
Proof.
  intros Hsp He N s. subst s. cbn beta.
  pose proof (spaced_Forall _ _ _ Hsp) as Hall. rewrite Forall_forall in Hall.
  assert (Hown : forall e' n, owner positions e' = Some n ->
            In n positions /\ n - 2 <= e' <= n + 1 /\ 2 <= n <= nelems - 2).
  { intros e' n Ho. apply owner_Some in Ho as [Hin Hr].
    split; [by apply list_elem_of_In|]. split; [done | by apply Hall]. }
  assert (Hnone : forall e' n, owner positions e' = None -> In n positions ->
            e' < n - 2 \/ n + 1 < e').
  { intros e' n Ho Hin. destruct (Z.lt_ge_cases e' (n - 2)); [by left|].
    destruct (Z.lt_ge_cases (n + 1) e'); [by right|].
    rewrite (owner_member positions n e' 2 (nelems - 2)) in Ho;
      [discriminate | done | by apply list_elem_of_In | lia]. }
  unfold owned_slice.
  destruct (owner positions e) as [n|] eqn:Ho;
    destruct (owner positions (e + 1)) as [n'|] eqn:Ho';
    try (destruct (Hown _ _ Ho) as (Hin & Hr & Hb));
    try (destruct (Hown _ _ Ho') as (Hin' & Hr' & Hb'));
    try (pose proof (spaced_members _ _ n n' 2 Hsp Hin Hin'));
    try (pose proof (Hnone _ _ Ho' Hin));
    try (pose proof (Hnone _ _ Ho Hin'));
    unfold patch_slice_at, update_at; subst N;
    repeat match goal with
           | |- context [Z.eqb ?x ?y] => destruct (Z.eqb_spec x y); try lia
           end;
    cbn [start stop]; destruct rmfirst, rmlast; cbn [Z.b2z] in *; lia.
Qed.

(** Property X14.  For a [Spline] of non-negative degree or a [ModSpline2],
    on at least one element, with the sums on the index of [getslices] in
    the 64-bit range and with a dof count [N] that is not negative:
    every slice returned by [getslices] lies inside the dof axis,
    [0 <= start <= stop <= N], and the slices slide along the axis: from
    one element to the next neither bound moves back, and the next slice
    starts no later than the current one stops, so no dof is skipped
    between them. *)
Theorem slices_slide (b : BasisBuilder) (nelems N : Z) (slices : list slice) :
  1 <= nelems -> nonneg_degrees b -> index_in_range b nelems ->
  getdofshape b [nelems] = Ok [N] -> 0 <= N ->
  getslices b [nelems] = Ok [slices] ->
  (forall e s, slices !! e = Some s -> 0 <= start s <= stop s /\ stop s <= N) /\
  (forall e s s', slices !! e = Some s -> slices !! S e = Some s' ->
     start s <= start s' <= stop s /\ stop s <= stop s').
Proof.
  intros Hn Hwf _ HN HN0 Hsl.
  destruct b as [degree rf rl | ifaces rf rl | b1 b2].
  - simpl in Hwf, HN, Hsl. injection HN as <-. injection Hsl as <-.
    split.
    + intros e s Hs. pose proof (lookup_lt_Some _ _ _ Hs) as He.
      rewrite length_windows in He. rewrite lookup_windows in Hs by lia.
      injection Hs as <-.
      by apply (Spline_windows_slide degree nelems rf rl (Z.of_nat e)); try lia.
    + intros e s s' Hs Hs'. pose proof (lookup_lt_Some _ _ _ Hs') as He.
      rewrite length_windows in He. rewrite lookup_windows in Hs, Hs' by lia.
      injection Hs as <-. injection Hs' as <-.
      replace (Z.of_nat (S e)) with (Z.of_nat e + 1) by lia.
      apply (Spline_windows_slide degree nelems rf rl (Z.of_nat e)); lia.
  - simpl in HN. injection HN as <-.
    destruct (sorted_ifaces ifaces nelems) as [positions|err] eqn:Hs;
      [|destruct (ModSpline2_queries_raise _ rf rl _ _ Hs) as [Hr _]; congruence].
    rewrite (ModSpline2_getslices_1 _ _ _ rf rl Hs) in Hsl. injection Hsl as <-.
    destruct (sorted_ifaces_spaced _ _ _ Hs) as [Hsp Hn4].
    split.
    + intros e s Hse. pose proof (lookup_lt_Some _ _ _ Hse) as He.
      rewrite length_imap, length_windows in He.
      rewrite list_lookup_imap, lookup_windows in Hse by lia. injection Hse as <-.
      by apply (ModSpline2_windows_slide positions nelems rf rl (Z.of_nat e)); try lia.
    + intros e s s' Hse Hse'. pose proof (lookup_lt_Some _ _ _ Hse') as He.
      rewrite length_imap, length_windows in He.
      rewrite list_lookup_imap, lookup_windows in Hse, Hse' by lia.
      injection Hse as <-. injection Hse' as <-.
      replace (Z.of_nat (S e)) with (Z.of_nat e + 1) by lia.
      apply (ModSpline2_windows_slide positions nelems rf rl (Z.of_nat e)); [done|lia|lia].
  - apply getdofshape_length in HN as [HN _]. simpl in HN.
    pose proof (ndims_positive b1). pose proof (ndims_positive b2). lia.
Qed.

Lemma slices_slide_witness :
  exists slices,
    getslices (ModSpline2 [2; -3] false true) [9] = Ok [slices] /\
    (forall e s s', slices !! e = Some s -> slices !! S e = Some s' ->
       start s <= start s' <= stop s /\ stop s <= stop s').
Proof.
  eexists. split; [reflexivity|].
  refine (proj2 (slices_slide (ModSpline2 [2; -3] false true) 9 10 _ _ I _ eq_refl _ eq_refl));
    unfold index_in_range, int64_max; lia.
Defined.
